(** * XNAS cell-based search space: a shallow embedding of
    [xnas/search_space/cell_based.py] and the properties of its
    weight unpacking, DAG construction, mixed operations and genotype codec. *)

From Stdlib Require Import ZArith QArith Lia.
From stdpp Require Import base list sets sorting strings.

Local Open Scope string_scope.
Local Open Scope list_scope.
Local Open Scope nat_scope.

(** ** Python exceptions and fallible computations *)

Inductive exn : Type :=
  | AssertionError
  | IndexError
  | KeyError
  | ValueError
  | RuntimeError.

Inductive res (A : Type) : Type :=
  | Ok (a : A)
  | Raise (e : exn).
Arguments Ok {A} a.
Arguments Raise {A} e.

#[global] Instance res_ret : MRet res := fun _ a => Ok a.
#[global] Instance res_bind : MBind res := fun _ _ f m =>
  match m with
  | Ok a => f a
  | Raise e => Raise e
  end.

(** [for x in xs: st = body st x], stopping at the first exception. *)
Fixpoint for_each {A S} (xs : list A) (body : S → A → res S) (st : S) : res S :=
  match xs with
  | [] => Ok st
  | x :: xs' => st' ← body st x; for_each xs' body st'
  end.

(** [enumerate(xs, start)] *)
Fixpoint enumerate_from {A} (start : nat) (xs : list A) : list (nat * A) :=
  match xs with
  | [] => []
  | x :: xs' => (start, x) :: enumerate_from (S start) xs'
  end.

Definition enumerate {A} (xs : list A) : list (nat * A) := enumerate_from 0 xs.

(** Computations that may raise and that update a store; what was written
    to the store before an exception stays written. *)
Definition M (St A : Type) : Type := St → res A * St.

#[global] Instance M_ret {St} : MRet (M St) := λ _ a st, (Ok a, st).
#[global] Instance M_bind {St} : MBind (M St) := λ _ _ f m st,
  match m st with
  | (Ok a, st') => f a st'
  | (Raise e, st') => (Raise e, st')
  end.

Definition raise {St A} (e : exn) : M St A := λ st, (Raise e, st).

Definition lift {St A} (r : res A) : M St A := λ st, (r, st).

Fixpoint for_eachM {St A S} (xs : list A) (body : S → A → M St S) (acc : S) : M St S :=
  match xs with
  | [] => mret acc
  | x :: xs' => acc' ← body acc x; for_eachM xs' body acc'
  end.

(** ** Sequences *)

(** [l[a:b]] for non-negative bounds: out-of-range bounds are clamped. *)
Definition slice {A} (l : list A) (a b : nat) : list A :=
  take (b - a) (drop a l).

(** [l[i]] on a Python list or a tensor axis of size [n]: negative indices
    count from the end, anything else out of range raises [IndexError]. *)
Definition py_index (n : nat) (i : Z) : res nat :=
  if (0 <=? i)%Z then
    if (i <? Z.of_nat n)%Z then Ok (Z.to_nat i) else Raise IndexError
  else
    if (- Z.of_nat n <=? i)%Z then Ok (Z.to_nat (Z.of_nat n + i)) else Raise IndexError.

Definition getitem {A} (l : list A) (i : Z) : res A :=
  k ← py_index (length l) i;
  match l !! k with
  | Some x => Ok x
  | None => Raise IndexError
  end.

(** [sum(range(2, 2 + n))] written as the sum it denotes. *)
Definition sum_list (l : list nat) : nat := foldr Nat.add 0 l.

(** ** [darts_weight_unpack] *)

Section Unpack.
Context {A : Type}.

(** One turn of the loop body; the state is [(w_dag, start_index, end_index)]. *)
Definition unpack_step (weight : list A) (input_nodes : nat)
    (st : list (list A) * nat * nat) (i : nat) : list (list A) * nat * nat :=
  let '(w_dag, start_index, end_index) := st in
  (w_dag ++ [slice weight start_index end_index],
   end_index,
   end_index + (input_nodes + i + 1)).

Definition darts_weight_unpack (weight : list A) (n_nodes input_nodes : nat)
    : list (list A) :=
  (foldl (unpack_step weight input_nodes) ([], 0, input_nodes) (seq 0 n_nodes)).1.1.

(** [gdas_indexes_unpack] has the same body. *)
Definition gdas_indexes_unpack (weight : list A) (n_nodes input_nodes : nat)
    : list (list A) :=
  (foldl (unpack_step weight input_nodes) ([], 0, input_nodes) (seq 0 n_nodes)).1.1.
End Unpack.

(** Number of entries in front of node [i]'s group: [Σ_{t<i} (input_nodes + t)]. *)
Fixpoint node_offset (input_nodes i : nat) : nat :=
  match i with
  | 0 => 0
  | S i' => node_offset input_nodes i' + (input_nodes + i')
  end.


(** ** The primitive operation registry

    A constructed [nn.Module] is recorded by its class and constructor
    arguments; the numeric transforms themselves are opaque. *)

Inductive module : Type :=
  | Zero (stride : nat)
  | PoolBN (pool_type : string) (C kernel_size stride padding : nat) (affine : bool)
  | Identity
  | FactorizedReduce (C_in C_out : nat) (affine : bool)
  | SepConv (C_in C_out kernel_size stride padding : nat) (affine : bool)
  | DilConv (C_in C_out kernel_size stride padding dilation : nat) (affine : bool)
  | FacConv (C_in C_out kernel_length stride padding : nat) (affine : bool)
  | ReLUConvBN (C_in C_out kernel_size stride padding : nat) (affine : bool)
  | StdConv (C_in C_out kernel_size stride padding : nat) (affine : bool)
  | Conv2d (C_in C_out kernel_size stride padding : nat)
  | BatchNorm2d (C : nat)
  | AdaptiveAvgPool2d (output_size : nat)
  | Linear (in_features out_features : nat).

(** [str.lower()] on the ASCII letters. *)
Definition lower_ascii (c : Ascii.ascii) : Ascii.ascii :=
  let n := Ascii.nat_of_ascii c in
  if (65 <=? n) && (n <=? 90) then Ascii.ascii_of_nat (n + 32) else c.

Fixpoint lower (s : string) : string :=
  match s with
  | EmptyString => EmptyString
  | String c s' => String (lower_ascii c) (lower s')
  end.

(** [PoolBN.__init__] rejects pooling modes other than max and avg,
    compared in lower case. *)
Definition PoolBN_init (pool_type : string) (C kernel_size stride padding : nat)
    (affine : bool) : res module :=
  if decide (lower pool_type = "max")
  then Ok (PoolBN pool_type C kernel_size stride padding affine)
  else if decide (lower pool_type = "avg")
  then Ok (PoolBN pool_type C kernel_size stride padding affine)
  else Raise ValueError.

(** The check of [nn.Conv2d.__init__] on its [groups] argument, which
    belongs to the tensor library: [groups] must be positive and divide
    both channel counts, otherwise the constructor raises [ValueError].
    Every convolution of this file but the first one of [DilConv] leaves
    [groups] at its default 1, for which the check always passes. *)
Definition conv_groups_check (in_channels out_channels groups : nat) : res unit :=
  if decide (groups = 0) then Raise ValueError
  else if decide (in_channels `mod` groups = 0)
       then if decide (out_channels `mod` groups = 0) then Ok () else Raise ValueError
       else Raise ValueError.

(** [DilConv.__init__]: its first convolution is depthwise,
    [nn.Conv2d(C_in, C_in, ..., groups=C_in)]. *)
Definition DilConv_init (C_in C_out kernel_size stride padding dilation : nat)
    (affine : bool) : res module :=
  conv_groups_check C_in C_in C_in;;
  Ok (DilConv C_in C_out kernel_size stride padding dilation affine).

(** [SepConv.__init__]: two [DilConv] with dilation 1, the second one
    with stride 1. *)
Definition SepConv_init (C_in C_out kernel_size stride padding : nat)
    (affine : bool) : res module :=
  DilConv_init C_in C_in kernel_size stride padding 1 affine;;
  DilConv_init C_in C_out kernel_size 1 padding 1 affine;;
  Ok (SepConv C_in C_out kernel_size stride padding affine).

(** [OPS_[primitive](C_in, C_out, stride, affine)]; a name outside the
    dictionary raises [KeyError], and the constructor that is called may
    raise in its turn. *)
Definition OPS_ (primitive : string) (C_in C_out stride : nat) (affine : bool)
    : res module :=
  match primitive with
  | "none" => Ok (Zero stride)
  | "avg_pool_3x3" => PoolBN_init "avg" C_in 3 stride 1 affine
  | "max_pool_3x3" => PoolBN_init "max" C_in 3 stride 1 affine
  | "skip_connect" =>
      Ok (if decide (stride = 1) then Identity else FactorizedReduce C_in C_out affine)
  | "sep_conv_3x3" => SepConv_init C_in C_out 3 stride 1 affine
  | "sep_conv_5x5" => SepConv_init C_in C_out 5 stride 2 affine
  | "sep_conv_7x7" => SepConv_init C_in C_out 7 stride 3 affine
  | "dil_conv_3x3" => DilConv_init C_in C_out 3 stride 2 2 affine
  | "dil_conv_5x5" => DilConv_init C_in C_out 5 stride 4 2 affine
  | "conv_7x1_1x7" => Ok (FacConv C_in C_out 7 stride 3 affine)
  | "nor_conv_3x3" => Ok (ReLUConvBN C_in C_out 3 stride 1 affine)
  | "nor_conv_1x1" => Ok (ReLUConvBN C_in C_out 1 stride 0 affine)
  | _ => Raise KeyError
  end.

Definition NON_PARAMETER_OP : list string :=
  ["none"; "avg_pool_3x3"; "max_pool_3x3"; "skip_connect"].
Definition PARAMETER_OP : list string :=
  ["sep_conv_3x3"; "sep_conv_5x5"; "sep_conv_7x7"; "dil_conv_3x3";
   "dil_conv_5x5"; "conv_7x1_1x7"; "nor_conv_3x3"; "nor_conv_1x1"].
Definition GDAS_OP : list string :=
  ["none"; "skip_connect"; "avg_pool_3x3"; "max_pool_3x3";
   "dil_conv_3x3"; "dil_conv_5x5"; "sep_conv_3x3"; "sep_conv_5x5"].

(** The names the registry knows. *)
Definition registered (primitive : string) : Prop :=
  primitive ∈ NON_PARAMETER_OP ++ PARAMETER_OP.

Definition get_op_index (op_list parameter_list : list string) : list nat :=
  foldl (λ op_idx_list '(op_idx, op),
           if decide (op ∈ parameter_list) then op_idx_list ++ [op_idx] else op_idx_list)
        [] (enumerate op_list).

(** ** [_MixedOp]: one edge of the DAG *)

Record MixedOp : Type := { _ops : list module }.

Definition MixedOp_init (C_in C_out stride : nat) (basic_op_list : list string)
    : res MixedOp :=
  ops ← for_each basic_op_list
          (λ ops primitive,
             op ← OPS_ primitive C_in C_out stride false;
             Ok (ops ++ [op]))
          [];
  Ok {| _ops := ops |}.

(** ** [DartsCell] *)

Record DartsCell : Type := {
  cell_reduction : bool;
  cell_n_nodes : nat;
  cell_basic_op_list : list string;
  preproc0 : module;
  preproc1 : module;
  dag : list (list MixedOp)
}.

Definition DartsCell_init (n_nodes C_pp C_p C : nat) (reduction_p reduction : bool)
    (basic_op_list : list string) : res DartsCell :=
  let preproc0 :=
    if reduction_p then FactorizedReduce C_pp C false
    else StdConv C_pp C 1 1 0 false in
  let preproc1 := StdConv C_p C 1 1 0 false in
  dag ← for_each (seq 0 n_nodes)
          (λ dag i,
             edges ← for_each (seq 0 (2 + i))
                       (λ edges j,
                          (* reduction should be used only for input node *)
                          let stride := if reduction && bool_decide (j < 2) then 2 else 1 in
                          op ← MixedOp_init C C stride basic_op_list;
                          Ok (edges ++ [op]))
                       [];
             Ok (dag ++ [edges]))
          [];
  Ok {| cell_reduction := reduction;
        cell_n_nodes := n_nodes;
        cell_basic_op_list := basic_op_list;
        preproc0 := preproc0;
        preproc1 := preproc1;
        dag := dag |}.

(** The width [C] a cell was built with is the output width of its
    second input transform, [StdConv(C_p, C, 1, 1, 0)]. *)
Definition cell_width (cell : DartsCell) : nat :=
  match preproc1 cell with
  | StdConv _ C _ _ _ _ => C
  | _ => 0
  end.

(** ** [DartsCNN] *)

Record DartsCNN : Type := {
  net_C_in : nat;
  net_C : nat;
  net_n_classes : nat;
  net_n_layers : nat;
  net_n_nodes : nat;
  net_basic_op_list : list string;
  non_op_idx : list nat;
  para_op_idx : list nat;
  stem : list module;
  cells : list DartsCell;
  gap : module;
  linear : module;
  num_edges : nat;
  num_ops : nat;
  all_edges : nat;
  norm_node_index : list (list nat);
  reduce_node_index : list (list nat)
}.

Definition DEFAULT_OP : list string :=
  ["max_pool_3x3"; "avg_pool_3x3"; "skip_connect"; "sep_conv_3x3";
   "sep_conv_5x5"; "dil_conv_3x3"; "dil_conv_5x5"; "none"].

Definition _node_index (n_nodes input_nodes start_index : nat) : list (list nat) :=
  (foldl (λ '(node_index, start_index, end_index) i,
            (node_index ++ [seq start_index (end_index - start_index)],
             end_index,
             end_index + (input_nodes + i + 1)))
         ([], start_index, input_nodes + start_index)
         (seq 0 n_nodes)).1.1.

(** The state of the layer loop of [DartsCNN.__init__]. *)
Record layer_state : Type := {
  ls_cells : list DartsCell;
  ls_C_pp : nat;
  ls_C_p : nat;
  ls_C_cur : nat;
  ls_reduction_p : bool
}.

Definition layer_step (n_layers n_nodes : nat) (basic_op_list : list string)
    (st : layer_state) (i : nat) : res layer_state :=
  (* Reduce featuremap size and double channels in 1/3 and 2/3 layer. *)
  let '(C_cur, reduction) :=
    if decide (i ∈ [n_layers / 3; 2 * n_layers / 3])
    then (ls_C_cur st * 2, true)
    else (ls_C_cur st, false) in
  cell ← DartsCell_init n_nodes (ls_C_pp st) (ls_C_p st) C_cur
            (ls_reduction_p st) reduction basic_op_list;
  let C_cur_out := C_cur * n_nodes in
  Ok {| ls_cells := ls_cells st ++ [cell];
        ls_C_pp := ls_C_p st;
        ls_C_p := C_cur_out;
        ls_C_cur := C_cur;
        ls_reduction_p := reduction |}.

Definition DartsCNN_init (C n_classes n_layers n_nodes : nat)
    (basic_op_list : list string) : res DartsCNN :=
  let stem_multiplier := 3 in
  let C_in := 3 in
  let basic_op_list :=
    if decide (length basic_op_list = 0) then DEFAULT_OP else basic_op_list in
  let C_cur := stem_multiplier * C in
  let stem := [Conv2d C_in C_cur 3 1 1; BatchNorm2d C_cur] in
  st ← for_each (seq 0 n_layers) (layer_step n_layers n_nodes basic_op_list)
         {| ls_cells := []; ls_C_pp := C_cur; ls_C_p := C_cur; ls_C_cur := C;
            ls_reduction_p := false |};
  let num_edges := sum_list (seq 2 n_nodes) in
  Ok {| net_C_in := C_in;
        net_C := C;
        net_n_classes := n_classes;
        net_n_layers := n_layers;
        net_n_nodes := n_nodes;
        net_basic_op_list := basic_op_list;
        non_op_idx := get_op_index basic_op_list NON_PARAMETER_OP;
        para_op_idx := get_op_index basic_op_list PARAMETER_OP;
        stem := stem;
        cells := ls_cells st;
        gap := AdaptiveAvgPool2d 1;
        linear := Linear (ls_C_p st) n_classes;
        num_edges := num_edges;
        num_ops := length basic_op_list;
        all_edges := 2 * num_edges;
        norm_node_index := _node_index n_nodes 2 0;
        reduce_node_index := _node_index n_nodes 2 num_edges |}.

(** ** [GDAS]: a [DartsCNN] with a temperature *)

Record GDAS : Type := {
  gdas_net : DartsCNN;
  tau : Q
}.

(** The constructor hands literal values to [DartsCNN.__init__], not its
    own arguments. *)
Definition GDAS_init (C n_classes n_layers n_nodes : nat)
    (basic_op_list : list string) (tau : Q) : res GDAS :=
  net ← DartsCNN_init 16 10 8 4 [];
  Ok {| gdas_net := net; tau := tau |}.

Definition set_tau (self : GDAS) (tau : Q) : GDAS :=
  {| gdas_net := gdas_net self; tau := tau |}.

(** ** Evaluation of a mixed operation

    Tensors and the numeric transforms are opaque: a primitive reads its
    running statistics and the input and returns the output and the
    updated statistics. *)

Class TensorOps (T OpState : Type) : Type := {
  (** [op(x)] for a constructed primitive *)
  run : module → OpState → T → T * OpState;
  (** [a + b] on tensors *)
  tadd : T → T → T;
  (** [n + a] for a Python integer [n], as [sum] does on its first item *)
  radd : Z → T → T;
  (** [w * a] for a scalar weight [w] *)
  smul : Q → T → T;
  (** [a * w] for a scalar weight [w] *)
  muls : T → Q → T
}.

(** What [sum] returns: its start value 0 on no items, else a tensor. *)
Inductive pynum (T : Type) : Type :=
  | PInt (z : Z)
  | PTensor (t : T).
Arguments PInt {T} z.
Arguments PTensor {T} t.

Definition Qlt_bool (x y : Q) : bool := negb (Qle_bool y x).

Section MixedOpEval.
Context {T OpState : Type} `{!TensorOps T OpState}.

Definition py_add (acc : pynum T) (t : T) : pynum T :=
  match acc with
  | PInt z => PTensor (radd z t)
  | PTensor a => PTensor (tadd a t)
  end.

(** [sum(xs)] *)
Definition py_sum (xs : list T) : pynum T := foldl py_add (PInt 0) xs.

(** Calling the primitive stored at position [i] of an edge: the store
    holds the running statistics of the edge's primitives by position. *)
Definition call_module (i : nat) (op : module) (x : T) : M (list OpState) T :=
  λ st,
    match st !! i with
    | Some s => let '(y, s') := run op s x in (Ok y, <[i:=s']> st)
    | None => (Raise IndexError, st)
    end.

(** [self._ops[i](x)] *)
Definition call_op (ops : list module) (i : nat) (x : T) : M (list OpState) T :=
  match ops !! i with
  | Some op => call_module i op x
  | None => raise IndexError
  end.

(** The loop body of [_MixedOp.forward]: two independent tests on [value]. *)
Definition forward_step (self : MixedOp) (x : T) (_x : list T) (item : nat * Q)
    : M (list OpState) (list T) :=
  let '(i, value) := item in
  _x ← (if Qeq_bool value 1
        then y ← call_op (_ops self) i x; mret (_x ++ [y])
        else mret _x);
  if Qlt_bool 0 value && Qlt_bool value 1
  then y ← call_op (_ops self) i x; mret (_x ++ [smul value y])
  else mret _x.

(** [_MixedOp.forward] *)
Definition MixedOp_forward (self : MixedOp) (x : T) (weights : list Q)
    : M (list OpState) (pynum T) :=
  if decide (length (_ops self) = length weights) then
    _x ← for_eachM (enumerate weights) (forward_step self x) [];
    mret (py_sum _x)
  else raise AssertionError.

(** One item of the generator summed by [_MixedOp.forwardDART]. *)
Definition forwardDART_step (x : T) (acc : pynum T) (item : Q * (nat * module))
    : M (list OpState) (pynum T) :=
  let '(w, (i, op)) := item in
  y ← call_module i op x;
  mret (py_add acc (smul w y)).

(** [_MixedOp.forwardDART] *)
Definition MixedOp_forwardDART (self : MixedOp) (x : T) (weights : list Q)
    : M (list OpState) (pynum T) :=
  if decide (length (_ops self) = length weights) then
    for_eachM (zip weights (enumerate (_ops self))) (forwardDART_step x) (PInt 0)
  else raise AssertionError.

(** [_MixedOp.forwardGDAS] *)
Definition MixedOp_forwardGDAS (self : MixedOp) (x : T) (weights : list Q)
    (index : Z) : M (list OpState) T :=
  if decide (length (_ops self) = length weights) then
    i ← lift (py_index (length (_ops self)) index);
    y ← call_op (_ops self) i x;
    w ← lift (getitem weights index);
    mret (muls y w)
  else raise AssertionError.
End MixedOpEval.

(** Symbolic tensors: an output records which primitive produced it, from
    which statistics and input; the statistics of a primitive count its
    calls. Adding the integer 0 leaves a tensor as it is. *)
Inductive sym : Type :=
  | SInput
  | SOut (op : module) (calls : nat) (x : sym)
  | SAdd (a b : sym)
  | SRAdd (n : Z) (a : sym)
  | SSMul (w : Q) (a : sym)
  | SMulS (a : sym) (w : Q).

#[global] Instance sym_ops : TensorOps sym nat := {|
  run op calls x := (SOut op calls x, S calls);
  tadd := SAdd;
  radd n a := if decide (n = 0%Z) then a else SRAdd n a;
  smul := SSMul;
  muls := SMulS
|}.

(** ** [DartsCNN.forward]

    The stem, the cells and the classifier head are opaque calls on
    tensors that may update a store of statistics and may raise; a cell is
    called by its position in [self.cells]. *)

Class NetOps (T St : Type) : Type := {
  (** [self.stem(x)] *)
  stem_call : list module → T → M St T;
  (** [cell(s0, s1, weights)] *)
  cell_call : nat → DartsCell → T → T → list (list Q) → M St T;
  (** [self.gap(s1)] *)
  gap_call : module → T → M St T;
  (** [out.view(out.size(0), -1)] *)
  flatten : T → T;
  (** [self.linear(out)] *)
  linear_call : module → T → M St T
}.

Section NetForward.
Context {T St : Type} (ops : NetOps T St).

(** The body of the loop over [self.cells]; the state is [(s0, s1)]. *)
Definition forward_cell_step (self : DartsCNN) (sample : list (list Q))
    (s : T * T) (item : nat * DartsCell) : M St (T * T) :=
  let '(s0, s1) := s in
  let '(i, cell) := item in
  let weights :=
    if cell_reduction cell
    then drop (num_edges self) sample
    else slice sample 0 (num_edges self) in
  s1' ← cell_call i cell s0 s1 weights;
  mret (s1, s1').

Definition DartsCNN_forward (self : DartsCNN) (x : T) (sample : list (list Q))
    : M St T :=
  s ← stem_call (stem self) x;
  s01 ← for_eachM (enumerate (cells self)) (forward_cell_step self sample) (s, s);
  out ← gap_call (gap self) s01.2;
  let out := flatten out in
  logits ← linear_call (linear self) out;
  mret logits.
End NetForward.

(** A probe around the cells: every call of a cell is written to a log
    with the position of the cell and the weights it was given. *)
Abbreviation call_log := (list (nat * list (list Q))).

Definition with_log {St A} (m : M St A) : M (St * call_log) A :=
  λ '(st, log), let '(r, st') := m st in (r, (st', log)).

Definition probed {T St} (ops : NetOps T St) : NetOps T (St * call_log) := {|
  stem_call m x := with_log (stem_call m x);
  cell_call i cell s0 s1 weights :=
    λ '(st, log),
      let '(r, st') := cell_call i cell s0 s1 weights st in
      (r, (st', log ++ [(i, weights)]));
  gap_call m x := with_log (gap_call m x);
  flatten := flatten;
  linear_call m x := with_log (linear_call m x)
|}.

(** The call each cell is expected to receive: the first [num_edges] rows
    for a normal cell, the rows after them for a reduction cell. *)
Definition expected_call (self : DartsCNN) (sample : list (list Q))
    (item : nat * DartsCell) : nat * list (list Q) :=
  (item.1,
   if cell_reduction item.2
   then drop (num_edges self) sample
   else take (num_edges self) sample).

(** ** The genotype codec *)

(** [torch.topk(values, k)] belongs to the tensor library: the [k] largest
    values with their positions, largest first, and [RuntimeError] when
    [k] exceeds the number of values. The library does not fix which of
    several equal values it takes nor their order; this definition takes
    the one met first (a stable insertion sort). The statements about the
    decoder rest on what holds for every such choice: the values, that no
    position is taken twice, and that nothing left out is larger. *)
Fixpoint insert_desc (x : Q * nat) (l : list (Q * nat)) : list (Q * nat) :=
  match l with
  | [] => [x]
  | y :: l' => if Qle_bool y.1 x.1 then x :: y :: l' else y :: insert_desc x l'
  end.

Definition sort_desc (l : list (Q * nat)) : list (Q * nat) := foldr insert_desc [] l.

Definition topk (values : list Q) (k : nat) : res (list (Q * nat)) :=
  if decide (k ≤ length values)
  then Ok (take k (sort_desc ((λ '(i, v), (v, i)) <$> enumerate values)))
  else Raise RuntimeError.

(** [row[:-1]] *)
Definition drop_last {A} (l : list A) : list A := take (length l - 1) l.

(** One row of [torch.topk(edges[:, :-1], 1)]: the best entry of the row
    without its last column, and the column it stands in. *)
Definition row_top1 (row : list Q) : res (Q * nat) :=
  top ← topk (drop_last row) 1;
  match top with
  | [t] => Ok t
  | _ => Raise RuntimeError
  end.

(** [l.index(x)] *)
Definition list_index (x : string) (l : list string) : res nat :=
  match list_find (λ y, y = x) l with
  | Some (i, _) => Ok i
  | None => Raise ValueError
  end.

(** A gene: per node, the selected (operation name, edge index) pairs. *)
Abbreviation gene := (list (list (string * Z))).

(** The body of the loop over [alpha] in [parse_from_numpy], for one node.
    [tops] holds [edge_max] and [primitive_indices] side by side. *)
Definition parse_node (k : nat) (basic_op_list : list string) (edges : list (list Q))
    : res (list (string * Z)) :=
  tops ← for_each edges (λ tops row, t ← row_top1 row; Ok (tops ++ [t])) [];
  topk_edges ← topk (fst <$> tops) k;
  for_each topk_edges
    (λ node_gene '(_, edge_idx),
       prim_idx ← match tops !! edge_idx with
                  | Some (_, p) => Ok p
                  | None => Raise IndexError
                  end;
       prim ← getitem basic_op_list (Z.of_nat prim_idx);
       Ok (node_gene ++ [(prim, Z.of_nat edge_idx)]))
    [].

Definition parse_from_numpy (alpha : list (list (list Q))) (k : nat)
    (basic_op_list : list string) : res gene :=
  last ← getitem basic_op_list (-1);
  (* assume last PRIMITIVE is 'none' *)
  if decide (last = "none") then
    for_each alpha
      (λ gene edges,
         node_gene ← parse_node k basic_op_list edges;
         Ok (gene ++ [node_gene]))
      []
  else Raise AssertionError.

Record Genotype : Type := {
  normal : gene;
  normal_concat : list nat;
  reduce : gene;
  reduce_concat : list nat
}.

(** [DartsCNN.genotype] *)
Definition DartsCNN_genotype (self : DartsCNN) (theta : list (list Q)) : res Genotype :=
  let theta_norm :=
    darts_weight_unpack (slice theta 0 (num_edges self)) (net_n_nodes self) 2 in
  let theta_reduce :=
    darts_weight_unpack (drop (num_edges self) theta) (net_n_nodes self) 2 in
  gene_normal ← parse_from_numpy theta_norm 2 (net_basic_op_list self);
  gene_reduce ← parse_from_numpy theta_reduce 2 (net_basic_op_list self);
  (* concat all intermediate nodes *)
  let concat := seq 2 (net_n_nodes self) in
  Ok {| normal := gene_normal; normal_concat := concat;
        reduce := gene_reduce; reduce_concat := concat |}.

(** [sample[r, c] = v] on a two-dimensional array. *)
Definition np_set (sample : list (list Q)) (r c : Z) (v : Q) : res (list (list Q)) :=
  r' ← py_index (length sample) r;
  match sample !! r' with
  | Some row =>
      c' ← py_index (length row) c;
      Ok (<[r':=<[c':=v]> row]> sample)
  | None => Raise IndexError
  end.

(** [np.sum(row)] *)
Definition Qsum (row : list Q) : Q := foldr Qplus 0%Q row.

(** The innermost loop body of [genotype_to_onehot_sample]: one selected
    pair [op] of node [i] of the gene at position [j]. *)
Definition onehot_set_op (self : DartsCNN) (j i : nat) (sample : list (list Q))
    (op : string * Z) : res (list (list Q)) :=
  let num_select := seq 2 (net_n_nodes self) in
  let op_name := op.1 in
  let op_id := op.2 in
  true_id ←
    (if decide (i = 0) then Ok (op_id + Z.of_nat (j * num_edges self))%Z
     else
       _temp ← (if decide (i = 1) then getitem num_select 0
                else Ok (sum_list (slice num_select 0 i)));
       Ok (op_id + Z.of_nat _temp + Z.of_nat (j * num_edges self))%Z);
  col ← list_index op_name (net_basic_op_list self);
  np_set sample true_id (Z.of_nat col) 1.

(** The closing loop body: a row that sums to 0 gets a 1 in column 7. *)
Definition onehot_default_row (sample : list (list Q)) (i : nat) : res (list (list Q)) :=
  row ← getitem sample (Z.of_nat i);
  if Qeq_bool (Qsum row) 0 then np_set sample (Z.of_nat i) 7 1 else Ok sample.

(** [DartsCNN.genotype_to_onehot_sample] *)
Definition genotype_to_onehot_sample (self : DartsCNN) (genotype : Genotype)
    : res (list (list Q)) :=
  let sample := replicate (all_edges self)
                  (replicate (length (net_basic_op_list self)) 0%Q) in
  let norm_gene := normal genotype in
  let reduce_gene := reduce genotype in
  sample ← for_each (enumerate [norm_gene; reduce_gene])
             (λ sample '(j, _gene),
                for_each (enumerate _gene)
                  (λ sample '(i, node), for_each node (onehot_set_op self j i) sample)
                  sample)
             sample;
  for_each (seq 0 (all_edges self)) onehot_default_row sample.

(** ** Vocabulary of the statements *)

(** Width the layer loop holds in [C_cur] when it reaches layer [i]. *)
Definition prev_width (C : nat) (cs : list DartsCell) (i : nat) : nat :=
  match i with
  | 0 => C
  | S i' => from_option cell_width 0 (cs !! i')
  end.

Definition layer_ok (C n_layers : nat) (cs : list DartsCell) (i : nat)
    (cell : DartsCell) : Prop :=
  (cell_reduction cell = true ↔ i = n_layers / 3 ∨ i = 2 * n_layers / 3)
  ∧ cell_width cell
    = (if cell_reduction cell then 2 * prev_width C cs i else prev_width C cs i).

(** A weight vector that selects position [i]: 1 there, 0 everywhere else. *)
Definition one_hot_at (weights : list Q) (i : nat) : Prop :=
  (∃ w, weights !! i = Some w ∧ w == 1)
  ∧ ∀ j w, j ≠ i → weights !! j = Some w → w == 0.

(** ** Inputs used in the examples *)

(** A genotype for two nodes per cell: node 1 of the normal cell selects
    its edges 1 and 2 and leaves edge 0 out. *)
Definition two_node_genotype : Genotype :=
  {| normal := [[("skip_connect", 0%Z); ("skip_connect", 1%Z)];
                [("skip_connect", 1%Z); ("skip_connect", 2%Z)]];
     normal_concat := [2; 3];
     reduce := [[("skip_connect", 0%Z); ("skip_connect", 1%Z)];
                [("skip_connect", 0%Z); ("skip_connect", 1%Z)]];
     reduce_concat := [2; 3] |}.

(** A five-entry and a nine-entry vocabulary, both ending in "none". *)
Definition FIVE_OP : list string :=
  ["skip_connect"; "avg_pool_3x3"; "max_pool_3x3"; "sep_conv_3x3"; "none"].
Definition NINE_OP : list string :=
  ["max_pool_3x3"; "avg_pool_3x3"; "skip_connect"; "sep_conv_3x3"; "sep_conv_5x5";
   "sep_conv_7x7"; "dil_conv_3x3"; "dil_conv_5x5"; "none"].

(** Architecture weights for two nodes per cell (ten edges) in which
    column [c] carries the largest weight of every row, and rows [lo] of
    the two three-edge groups carry small weights. *)
Definition weights_row (n_ops c : nat) (scale : Q) : list Q :=
  (λ i, if decide (i = c) then scale else 0%Q) <$> seq 0 n_ops.

Definition two_node_theta (n_ops c : nat) : list (list Q) :=
  [weights_row n_ops c (1 # 2); weights_row n_ops c (1 # 3);
   weights_row n_ops c (1 # 9); weights_row n_ops c (1 # 2); weights_row n_ops c (1 # 3);
   weights_row n_ops c (1 # 2); weights_row n_ops c (1 # 3);
   weights_row n_ops c (1 # 2); weights_row n_ops c (1 # 3); weights_row n_ops c (1 # 9)].

(** The vocabulary a network ends up with: the default one when the
    argument is empty. *)
Definition effective_op_list (basic_op_list : list string) : list string :=
  if decide (length basic_op_list = 0) then DEFAULT_OP else basic_op_list.

(** The names whose primitive starts with a depthwise convolution. *)
Definition DEPTHWISE_OP : list string :=
  ["sep_conv_3x3"; "sep_conv_5x5"; "sep_conv_7x7"; "dil_conv_3x3"; "dil_conv_5x5"].

#[global] Instance registered_dec (primitive : string) : Decision (registered primitive).
Proof. unfold registered. apply _. Defined.

(** Number of channels that come out of the cell before cell [i] (the
    stem for the first cell): the width of that cell times the number of
    nodes, whose outputs are concatenated. *)
Definition out_width (C n_nodes : nat) (cs : list DartsCell) (i : nat) : nat :=
  match i with
  | 0 => 3 * C
  | S i' => from_option cell_width 0 (cs !! i') * n_nodes
  end.

(** Whether the cell before cell [i] is a reduction cell. *)
Definition prev_reduction (cs : list DartsCell) (i : nat) : bool :=
  match i with
  | 0 => false
  | S i' => from_option cell_reduction false (cs !! i')
  end.

(** What the layer loop promises about cell [i]: the two input
    transforms read the output widths of the two cells before it. *)
Definition inputs_ok (C n_nodes : nat) (cs : list DartsCell) (i : nat)
    (cell : DartsCell) : Prop :=
  preproc1 cell = StdConv (out_width C n_nodes cs i) (cell_width cell) 1 1 0 false
  ∧ preproc0 cell
    = (if prev_reduction cs i
       then FactorizedReduce (out_width C n_nodes cs (i - 1)) (cell_width cell) false
       else StdConv (out_width C n_nodes cs (i - 1)) (cell_width cell) 1 1 0 false).

(** Whether [forward] evaluates the primitive that carries weight [w]:
    the weight is 1, or lies strictly between 0 and 1. *)
Definition evaluated (w : Q) : bool :=
  Qeq_bool w 1 || (Qlt_bool 0 w && Qlt_bool w 1).

Section MixedOpSpec.
Context {T OpState : Type} `{!TensorOps T OpState}.

(** The statistics after every primitive of an edge has been called once. *)
Definition dense_state (x : T) (ops : list module) (st : list OpState)
    : list OpState :=
  zip_with (λ op s, (run op s x).2) ops st.

(** The outputs of the primitives of an edge, each on its own statistics. *)
Definition dense_outputs (x : T) (ops : list module) (st : list OpState) : list T :=
  zip_with (λ op s, (run op s x).1) ops st.

(** The statistics after the primitives with an evaluated weight have
    been called once. *)
Definition relaxed_state (x : T) (weights : list Q) (ops : list module)
    (st : list OpState) : list OpState :=
  zip_with (λ w os, if evaluated w then (run os.1 os.2 x).2 else os.2)
    weights (zip ops st).

(** The terms [forward] sums: the output for a weight 1, the scaled output
    for a weight inside (0, 1), nothing for any other weight. *)
Definition relaxed_terms (x : T) (weights : list Q) (ops : list module)
    (st : list OpState) : list T :=
  omap id
    (zip_with (λ w os,
                 if Qeq_bool w 1 then Some (run os.1 os.2 x).1
                 else if Qlt_bool 0 w && Qlt_bool w 1
                      then Some (smul w (run os.1 os.2 x).1)
                      else None)
       weights (zip ops st)).
End MixedOpSpec.

(** A three-primitive edge for the examples. *)
Definition three_op_edge : MixedOp :=
  {| _ops := [Zero 1; Identity; SepConv 16 16 3 1 1 false] |}.

(** [v] is the largest entry of [row] outside its last column, found in
    column [p]. *)
Definition best_entry (row : list Q) (p : nat) (v : Q) : Prop :=
  p < length row - 1
  ∧ row !! p = Some v
  ∧ ∀ q v', q < length row - 1 → row !! q = Some v' → (v' <= v)%Q.

(** ** Vocabulary for the codec round trip *)

(** The column of a name in the vocabulary. *)
Definition col_of (ops : list string) (name : string) : nat :=
  match list_index name ops with
  | Ok c => c
  | Raise _ => 0
  end.

(** A pair a node of [width] incoming edges may hold: an edge of the node
    and a name of the vocabulary that is found before its last entry. *)
Definition wf_pair (ops : list string) (width : nat) (p : string * Z) : Prop :=
  ∃ e c, p.2 = Z.of_nat e ∧ e < width
         ∧ list_index p.1 ops = Ok c ∧ c + 1 < length ops.

(** A node as discretization with [k = 2] produces it: two pairs on two
    different edges. *)
Definition wf_node (ops : list string) (width : nat) (node : list (string * Z)) : Prop :=
  ∃ pa pb, node = [pa; pb]
           ∧ wf_pair ops width pa ∧ wf_pair ops width pb ∧ pa.2 ≠ pb.2.

Definition wf_gene (ops : list string) (n_nodes : nat) (g : gene) : Prop :=
  length g = n_nodes
  ∧ ∀ i node, g !! i = Some node → wf_node ops (2 + i) node.

(** The rows of one node after its pairs have been written. *)
Definition set_pairs (ops : list string) (node : list (string * Z))
    (block : list (list Q)) : list (list Q) :=
  foldl (λ b p, alter (<[col_of ops p.1:=1%Q]>) (Z.to_nat p.2) b) block node.

(** The rows of the nodes [i], [i+1], ... of a gene, node by node. *)
Fixpoint enc_blocks (ops : list string) (i : nat) (nodes : gene)
    : list (list (list Q)) :=
  match nodes with
  | [] => []
  | node :: rest =>
      set_pairs ops node (replicate (2 + i) (replicate (length ops) 0%Q))
      :: enc_blocks ops (S i) rest
  end.

(** What the closing loop of the encoder does to one row. *)
Definition fill_default (row : list Q) : list Q :=
  if Qeq_bool (Qsum row) 0 then <[7:=1%Q]> row else row.

(** The tensor the encoder returns for a well-formed genotype. *)
Definition onehot_rows (ops : list string) (g : Genotype) : list (list Q) :=
  fill_default
    <$> (concat (enc_blocks ops 0 (normal g)) ++ concat (enc_blocks ops 0 (reduce g))).

(** ** Properties of the unpacking cursor *)

Section UnpackFacts.
Context {A : Type}.
Implicit Types (weight : list A) (n_nodes input_nodes : nat).

Lemma length_slice weight a b :
  length (slice weight a b) = (b - a) `min` (length weight - a).
Proof. unfold slice. by rewrite length_take, length_drop. Qed.

Lemma lookup_slice weight a b j :
  j < b - a → slice weight a b !! j = weight !! (a + j).
Proof. intros Hj. unfold slice. by rewrite lookup_take_lt, lookup_drop. Qed.

Lemma node_offset_S input_nodes i :
  node_offset input_nodes (S i) = node_offset input_nodes i + (input_nodes + i).
Proof. reflexivity. Qed.

Lemma node_offset_mono input_nodes i j :
  i ≤ j → node_offset input_nodes i ≤ node_offset input_nodes j.
Proof. induction 1; simpl; lia. Qed.

(** The cursor invariant: entering turn [k] the state holds the groups
    built so far and the bounds of node [k]'s group. *)
Lemma unpack_loop weight input_nodes m : ∀ k w_dag,
  foldl (unpack_step weight input_nodes)
        (w_dag, node_offset input_nodes k, node_offset input_nodes (S k))
        (seq k m)
  = (w_dag ++ ((λ i, slice weight (node_offset input_nodes i)
                                  (node_offset input_nodes (S i))) <$> seq k m),
     node_offset input_nodes (k + m),
     node_offset input_nodes (S (k + m))).
Proof.
  induction m as [|m IH]; intros k w_dag.
  - cbn [seq foldl fmap list_fmap]. by rewrite app_nil_r, Nat.add_0_r.
  - cbn [seq foldl unpack_step].
    replace (node_offset input_nodes (S k) + (input_nodes + k + 1))
      with (node_offset input_nodes (S (S k))) by (cbn [node_offset]; lia).
    rewrite IH, <- app_assoc, fmap_cons.
    by replace (S k + m) with (k + S m) by lia.
Qed.

Lemma darts_weight_unpack_eq weight n_nodes input_nodes :
  darts_weight_unpack weight n_nodes input_nodes
  = (λ i, slice weight (node_offset input_nodes i) (node_offset input_nodes (S i)))
      <$> seq 0 n_nodes.
Proof.
  unfold darts_weight_unpack.
  pose proof (unpack_loop weight input_nodes n_nodes 0 []) as Hloop.
  change (node_offset input_nodes 0) with 0 in Hloop.
  replace (node_offset input_nodes 1) with input_nodes in Hloop by (simpl; lia).
  by rewrite Hloop.
Qed.

Lemma darts_weight_unpack_length weight n_nodes input_nodes :
  length (darts_weight_unpack weight n_nodes input_nodes) = n_nodes.
Proof. by rewrite darts_weight_unpack_eq, length_fmap, length_seq. Qed.

Lemma darts_weight_unpack_lookup weight n_nodes input_nodes i :
  i < n_nodes →
  darts_weight_unpack weight n_nodes input_nodes !! i
  = Some (slice weight (node_offset input_nodes i) (node_offset input_nodes (S i))).
Proof.
  intros Hi. rewrite darts_weight_unpack_eq, list_lookup_fmap.
  by rewrite lookup_seq_lt.
Qed.

Lemma concat_slices weight input_nodes n :
  concat ((λ i, slice weight (node_offset input_nodes i) (node_offset input_nodes (S i)))
            <$> seq 0 n)
  = take (node_offset input_nodes n) weight.
Proof.
  induction n as [|n IH]; [done|].
  rewrite seq_S, fmap_app, concat_app, IH. simpl. rewrite app_nil_r.
  unfold slice.
  replace (node_offset input_nodes n + (input_nodes + n) - node_offset input_nodes n)
    with (input_nodes + n) by lia.
  by rewrite take_take_drop.
Qed.
End UnpackFacts.

Lemma sum_list_app l1 l2 : sum_list (l1 ++ l2) = sum_list l1 + sum_list l2.
Proof. induction l1 as [|x l1 IH]; simpl; [done|]. rewrite IH. lia. Qed.

(** [Σ_{i<N} (2 + i)], the offset past the last group and
    [sum(range(2, 2 + N))] are one number. *)
Lemma sum_edges_offset n :
  sum_list ((λ i, 2 + i) <$> seq 0 n) = node_offset 2 n.
Proof.
  induction n as [|n IH]; [done|].
  rewrite seq_S, fmap_app, sum_list_app, IH. simpl. lia.
Qed.

Lemma sum_range_offset n : sum_list (seq 2 n) = node_offset 2 n.
Proof.
  rewrite <- sum_edges_offset. f_equal.
  change (λ i, 2 + i) with (Nat.add 2). by rewrite fmap_add_seq.
Qed.

(** C4, as amended: for every node count [N] and every flat sequence that
    holds at least [Σ_{i<N} (2+i)] entries, [darts_weight_unpack] returns
    [N] groups; group [i] has length [2+i] and is made of the consecutive
    entries that start at offset [Σ_{t<i} (2+t)]; together the groups are
    exactly the first [Σ_{i<N} (2+i)] entries, and nothing after them. *)
Theorem darts_weight_unpack_groups {A} (weight : list A) (N : nat) :
  sum_list ((λ i, 2 + i) <$> seq 0 N) ≤ length weight →
  let w_dag := darts_weight_unpack weight N 2 in
  length w_dag = N
  ∧ (∀ i, i < N →
       ∃ g, w_dag !! i = Some g
            ∧ length g = 2 + i
            ∧ g = slice weight (node_offset 2 i) (node_offset 2 i + (2 + i))
            ∧ ∀ j, j < 2 + i → g !! j = weight !! (node_offset 2 i + j))
  ∧ concat w_dag = take (sum_list ((λ i, 2 + i) <$> seq 0 N)) weight.
Proof.
  rewrite sum_edges_offset. intros Hlen w_dag. subst w_dag.
  split; [apply darts_weight_unpack_length|]. split.
  - intros i Hi. eexists. split; [by apply darts_weight_unpack_lookup|].
    pose proof (node_offset_mono 2 (S i) N ltac:(lia)) as Hmono.
    rewrite node_offset_S in *.
    split; [|split; [done|]].
    + rewrite length_slice. lia.
    + intros j Hj. apply lookup_slice. lia.
  - by rewrite darts_weight_unpack_eq, concat_slices.
Qed.

(** The theorem at [N = 4] on the sequence [0, 1, ..., 13]. *)
Lemma darts_weight_unpack_groups_witness :
  let w_dag := darts_weight_unpack (seq 0 14) 4 2 in
  length w_dag = 4
  ∧ (∀ i, i < 4 →
       ∃ g, w_dag !! i = Some g
            ∧ length g = 2 + i
            ∧ g = slice (seq 0 14) (node_offset 2 i) (node_offset 2 i + (2 + i))
            ∧ ∀ j, j < 2 + i → g !! j = seq 0 14 !! (node_offset 2 i + j))
  ∧ concat w_dag = take (sum_list ((λ i, 2 + i) <$> seq 0 4)) (seq 0 14).
Proof. apply (darts_weight_unpack_groups (seq 0 14) 4). simpl. lia. Defined.

(** For [N = 4] a 14-entry sequence is cut at [0:2], [2:5], [5:9], [9:14]. *)
Lemma darts_weight_unpack_four {A} (w0 w1 w2 w3 w4 w5 w6 w7 w8 w9 w10 w11 w12 w13 : A) :
  darts_weight_unpack [w0; w1; w2; w3; w4; w5; w6; w7; w8; w9; w10; w11; w12; w13] 4 2
  = [[w0; w1]; [w2; w3; w4]; [w5; w6; w7; w8]; [w9; w10; w11; w12; w13]].
Proof. reflexivity. Qed.

(** Entries beyond the first 14 are never looked at when [N = 4]. *)
Lemma darts_weight_unpack_no_more {A} (weight extra : list A) :
  length weight = 14 →
  darts_weight_unpack (weight ++ extra) 4 2 = darts_weight_unpack weight 4 2.
Proof.
  intros Hlen. rewrite !darts_weight_unpack_eq.
  apply list_fmap_ext. intros k i Hk.
  apply lookup_seq in Hk as [-> Hk]. simpl. unfold slice.
  assert (node_offset 2 (S k) ≤ 14) as Hle
    by (change 14 with (node_offset 2 4); apply node_offset_mono; lia).
  rewrite node_offset_S in *.
  rewrite drop_app_le by lia. rewrite take_app_le; [done|].
  rewrite length_drop. lia.
Qed.

(** C4 as stated fails on a sequence that is too short: slicing clamps,
    so the one group cut from a 1-entry sequence has length 1, not 2. *)
Lemma darts_weight_unpack_short_sequence :
  darts_weight_unpack [5] 1 2 = [[5]]
  ∧ ¬ (∀ (weight : list nat) (N : nat), 1 ≤ N →
         ∀ i, i < N →
           ∃ g, darts_weight_unpack weight N 2 !! i = Some g ∧ length g = 2 + i).
Proof.
  split; [reflexivity|].
  intros H. destruct (H [5] 1 ltac:(lia) 0 ltac:(lia)) as (g & Hg & Hlen).
  vm_compute in Hg. injection Hg as <-. simpl in Hlen. lia.
Qed.

(** ** Loops that collect results *)

(** A loop whose body appends one computed element per item returns the
    list of those elements, provided no item raises. *)
Lemma for_each_collect {A B} (f : A → res B) (xs : list A) : ∀ acc,
  (∀ x, x ∈ xs → ∃ b, f x = Ok b) →
  ∃ bs, for_each xs (λ acc x, b ← f x; Ok (acc ++ [b])) acc = Ok (acc ++ bs)
        ∧ Forall2 (λ x b, f x = Ok b) xs bs.
Proof.
  induction xs as [|x xs IH]; intros acc Hf.
  - exists []. by rewrite app_nil_r.
  - destruct (Hf x) as [b Hb]; [by left|].
    destruct (IH (acc ++ [b])) as (bs & Hbs & Hall).
    { intros y Hy. apply Hf. by right. }
    exists (b :: bs). split; [|by constructor].
    cbn [for_each]. rewrite Hb. cbn. by rewrite Hbs, <- app_assoc.
Qed.

(** A loop over [range(n)] that keeps an invariant and never raises. *)
Lemma for_each_seq_inv {S} (body : S → nat → res S) (P : nat → S → Prop) (n : nat) :
  (∀ i st, i < n → P i st → ∃ st', body st i = Ok st' ∧ P (Datatypes.S i) st') →
  ∀ st0, P 0 st0 → ∃ st, for_each (seq 0 n) body st0 = Ok st ∧ P n st.
Proof.
  intros Hstep.
  assert (∀ m k st0, k + m = n → P k st0 →
            ∃ st, for_each (seq k m) body st0 = Ok st ∧ P n st) as Hgen.
  { induction m as [|m IH]; intros k st0 Hk HP.
    - exists st0. replace n with k by lia. done.
    - destruct (Hstep k st0) as (st' & Hst' & HP'); [lia|done|].
      destruct (IH (Datatypes.S k) st') as (st & Hst & HPn); [lia|done|].
      exists st. split; [|done]. cbn [seq for_each]. by rewrite Hst'. }
  intros st0 HP. by apply (Hgen n 0).
Qed.

(** ** Construction of edges and cells *)

Lemma conv_groups_check_same (C : nat) : 0 < C → conv_groups_check C C C = Ok ().
Proof.
  intros HC. unfold conv_groups_check.
  rewrite decide_False by lia. by rewrite !decide_True by (by apply Nat.Div0.mod_same).
Qed.

Lemma DilConv_init_pos C_in C_out kernel_size stride padding dilation affine :
  0 < C_in →
  DilConv_init C_in C_out kernel_size stride padding dilation affine
  = Ok (DilConv C_in C_out kernel_size stride padding dilation affine).
Proof. intros HC. unfold DilConv_init. by rewrite conv_groups_check_same. Qed.

Lemma DilConv_init_zero C_out kernel_size stride padding dilation affine :
  DilConv_init 0 C_out kernel_size stride padding dilation affine = Raise ValueError.
Proof. done. Qed.

Lemma SepConv_init_pos C_in C_out kernel_size stride padding affine :
  0 < C_in →
  SepConv_init C_in C_out kernel_size stride padding affine
  = Ok (SepConv C_in C_out kernel_size stride padding affine).
Proof. intros HC. unfold SepConv_init. by rewrite !DilConv_init_pos. Qed.

Lemma SepConv_init_zero C_out kernel_size stride padding affine :
  SepConv_init 0 C_out kernel_size stride padding affine = Raise ValueError.
Proof. done. Qed.

Lemma OPS_registered primitive C_in C_out stride affine :
  0 < C_in →
  registered primitive → ∃ op, OPS_ primitive C_in C_out stride affine = Ok op.
Proof.
  intros HC. unfold registered. rewrite !elem_of_app.
  unfold NON_PARAMETER_OP, PARAMETER_OP.
  rewrite !elem_of_cons, !elem_of_nil.
  intros H. destruct_or!; subst; try done; unfold OPS_;
    rewrite ?SepConv_init_pos, ?DilConv_init_pos by done; by eexists.
Qed.

Lemma MixedOp_init_ok C_in C_out stride basic_op_list :
  0 < C_in →
  Forall registered basic_op_list →
  ∃ op, MixedOp_init C_in C_out stride basic_op_list = Ok op
        ∧ length (_ops op) = length basic_op_list.
Proof.
  intros HC Hreg. unfold MixedOp_init.
  destruct (for_each_collect (λ p, OPS_ p C_in C_out stride false) basic_op_list [])
    as (ops & Hops & Hall).
  { intros p Hp. apply OPS_registered; [done|]. by eapply Forall_forall in Hreg. }
  rewrite Hops. eexists. split; [done|]. simpl.
  symmetry. by eapply Forall2_length.
Qed.

Lemma DartsCell_init_ok n_nodes C_pp C_p C reduction_p reduction basic_op_list :
  0 < C →
  Forall registered basic_op_list →
  ∃ cell, DartsCell_init n_nodes C_pp C_p C reduction_p reduction basic_op_list = Ok cell
    ∧ cell_reduction cell = reduction
    ∧ cell_n_nodes cell = n_nodes
    ∧ cell_basic_op_list cell = basic_op_list
    ∧ cell_width cell = C
    ∧ Forall2 (λ i edges, length edges = 2 + i) (seq 0 n_nodes) (dag cell).
Proof.
  intros HC Hreg. unfold DartsCell_init.
  set (inner := λ i : nat,
         for_each (seq 0 (2 + i))
           (λ edges j,
              op ← MixedOp_init C C
                     (if reduction && bool_decide (j < 2) then 2 else 1) basic_op_list;
              Ok (edges ++ [op])) []).
  destruct (for_each_collect inner (seq 0 n_nodes) []) as (d & Hd & Hall).
  { intros i _. unfold inner.
    destruct (for_each_collect
                (λ j, MixedOp_init C C
                        (if reduction && bool_decide (j < 2) then 2 else 1) basic_op_list)
                (seq 0 (2 + i)) []) as (edges & Hedges & _).
    - intros j _. destruct (MixedOp_init_ok C C
        (if reduction && bool_decide (j < 2) then 2 else 1) basic_op_list HC Hreg)
        as (op & Hop & _). eauto.
    - eauto. }
  unfold inner in Hd. rewrite Hd. eexists. split; [done|]. simpl.
  repeat split.
  eapply Forall2_impl; [exact Hall|]. intros i edges Hi. unfold inner in Hi.
  destruct (for_each_collect
              (λ j, MixedOp_init C C
                      (if reduction && bool_decide (j < 2) then 2 else 1) basic_op_list)
              (seq 0 (2 + i)) []) as (edges' & Hedges & Hall').
  { intros j _. destruct (MixedOp_init_ok C C
      (if reduction && bool_decide (j < 2) then 2 else 1) basic_op_list HC Hreg)
      as (op & Hop & _). eauto. }
  rewrite Hi in Hedges. injection Hedges as ->.
  apply Forall2_length in Hall'. rewrite length_seq in Hall'. done.
Qed.

Lemma Forall2_seq_lookup {B} (P : nat → B → Prop) (n : nat) (l : list B) :
  Forall2 P (seq 0 n) l →
  length l = n ∧ ∀ i, i < n → ∃ b, l !! i = Some b ∧ P i b.
Proof.
  intros H. pose proof (Forall2_length _ _ _ H) as Hlen. rewrite length_seq in Hlen.
  split; [done|]. intros i Hi.
  destruct (lookup_lt_is_Some_2 l i) as [b Hb]; [lia|].
  exists b. split; [done|].
  eapply (Forall2_lookup_lr _ _ _ i i b) in H; [done| |done].
  by apply lookup_seq_lt.
Qed.

Lemma length_concat_edges (d : list (list MixedOp)) : ∀ k,
  Forall2 (λ i edges, length edges = 2 + i) (seq k (length d)) d →
  length (concat d) = sum_list ((λ i, 2 + i) <$> seq k (length d)).
Proof.
  induction d as [|edges d IH]; intros k H; [done|].
  cbn [length seq] in H. apply Forall2_cons in H as [Hedges H].
  cbn [concat length seq fmap list_fmap sum_list foldr].
  rewrite length_app, Hedges. f_equal. by apply IH.
Qed.

(** ** The layer loop of [DartsCNN.__init__] *)

Lemma prev_width_app C cs cs' i :
  i ≤ length cs → prev_width C (cs ++ cs') i = prev_width C cs i.
Proof.
  destruct i as [|i]; [done|]. intros Hi. simpl.
  by rewrite lookup_app_l by lia.
Qed.

Lemma DartsCNN_init_ok C n_classes n_layers n_nodes basic_op_list :
  0 < C →
  Forall registered basic_op_list →
  ∃ net, DartsCNN_init C n_classes n_layers n_nodes basic_op_list = Ok net
    ∧ net_n_nodes net = n_nodes
    ∧ num_edges net = sum_list (seq 2 n_nodes)
    ∧ all_edges net = 2 * num_edges net
    ∧ length (cells net) = n_layers
    ∧ ∀ i cell, cells net !! i = Some cell → layer_ok C n_layers (cells net) i cell.
Proof.
  intros HC Hreg. unfold DartsCNN_init.
  set (ops := if decide (length basic_op_list = 0) then DEFAULT_OP else basic_op_list).
  assert (Forall registered ops) as Hops.
  { unfold ops. case_decide; [|done].
    unfold DEFAULT_OP, registered, NON_PARAMETER_OP, PARAMETER_OP.
    repeat constructor; set_solver. }
  set (P := λ (k : nat) (st : layer_state),
         length (ls_cells st) = k
         ∧ 0 < ls_C_cur st
         ∧ ls_C_cur st = prev_width C (ls_cells st) k
         ∧ ∀ i cell, ls_cells st !! i = Some cell →
             layer_ok C n_layers (ls_cells st) i cell).
  destruct (for_each_seq_inv (layer_step n_layers n_nodes ops) P n_layers) with
    (st0 := {| ls_cells := []; ls_C_pp := 3 * C; ls_C_p := 3 * C; ls_C_cur := C;
               ls_reduction_p := false |}) as (st & Hst & HP).
  - intros i st Hi (Hlen & Hpos & Hcur & Hcells). unfold layer_step.
    set (cr := if decide (i ∈ [n_layers / 3; 2 * n_layers / 3])
               then (ls_C_cur st * 2, true) else (ls_C_cur st, false)).
    assert (cr.2 = true ↔ i = n_layers / 3 ∨ i = 2 * n_layers / 3) as Hred.
    { unfold cr. case_decide as Hin; rewrite !elem_of_cons, elem_of_nil in Hin;
        simpl; intuition congruence. }
    assert (cr.1 = if cr.2 then 2 * ls_C_cur st else ls_C_cur st) as Hwidth.
    { unfold cr. case_decide; simpl; lia. }
    destruct cr as [C_cur reduction]. cbn [fst snd] in Hred, Hwidth.
    assert (0 < C_cur) as Hpos' by (destruct reduction; lia).
    destruct (DartsCell_init_ok n_nodes (ls_C_pp st) (ls_C_p st) C_cur
                (ls_reduction_p st) reduction ops Hpos' Hops)
      as (cell & Hcell & Hr & _ & _ & Hw & _).
    rewrite Hcell. eexists. split; [done|]. unfold P. simpl.
    split; [rewrite length_app; simpl; lia|]. split; [done|]. split.
    + rewrite lookup_app_r by lia. rewrite Hlen, Nat.sub_diag. simpl. by rewrite Hw.
    + intros j c Hj.
      destruct (decide (j < i)) as [Hlt|Hge].
      * rewrite lookup_app_l in Hj by lia.
        destruct (Hcells j c Hj) as [H1 H2].
        split; [done|]. by rewrite prev_width_app by lia.
      * rewrite lookup_app_r in Hj by lia.
        assert (j = i) as -> by
          (apply lookup_lt_Some in Hj; simpl in Hj; lia).
        rewrite Hlen, Nat.sub_diag in Hj. injection Hj as <-.
        split; [by rewrite Hr|].
        rewrite prev_width_app by lia. rewrite Hw, Hr, Hwidth, <- Hcur. done.
  - unfold P. simpl. split; [done|]. split; [done|]. split; [done|].
    intros i cell Hi. done.
  - rewrite Hst. eexists. split; [done|]. simpl.
    destruct HP as (Hlen & _ & _ & Hcells). done.
Qed.

Lemma four_nodes_fourteen_edges : sum_list ((λ i, 2 + i) <$> seq 0 4) = 14.
Proof. reflexivity. Qed.

(** For [C = 16], [N = 4], [L = 8]: reduction cells at indices 2 and 5,
    widths 16, 16, 32, 32, 32, 64, 64, 64. *)
Lemma DartsCNN_eight_layers :
  ∃ net,
    DartsCNN_init 16 10 8 4 [] = Ok net
    ∧ cell_reduction <$> cells net
      = [false; false; true; false; false; true; false; false]
    ∧ cell_width <$> cells net = [16; 16; 32; 32; 32; 64; 64; 64].
Proof. eexists. split; [vm_compute; reflexivity|]. split; reflexivity. Qed.

(** C2: whatever arguments [GDAS.__init__] receives, the network it builds
    is the one [DartsCNN.__init__] builds for [C = 16], 10 classes,
    8 layers, 4 nodes and the default 8-operation vocabulary; of the
    arguments only [tau] reaches the instance. *)
Theorem GDAS_init_fixed_architecture
    (C n_classes n_layers n_nodes : nat) (basic_op_list : list string) (tau0 : Q) :
  ∃ net,
    DartsCNN_init 16 10 8 4 DEFAULT_OP = Ok net
    ∧ GDAS_init C n_classes n_layers n_nodes basic_op_list tau0
      = Ok {| gdas_net := net; tau := tau0 |}
    ∧ net_C net = 16
    ∧ net_n_classes net = 10
    ∧ net_n_layers net = 8
    ∧ length (cells net) = 8
    ∧ net_n_nodes net = 4
    ∧ net_basic_op_list net = DEFAULT_OP
    ∧ length (net_basic_op_list net) = 8.
Proof.
  eexists. split; [vm_compute; reflexivity|].
  split; [vm_compute; reflexivity|].
  repeat split; reflexivity.
Qed.

(** Two calls that differ in every argument but [tau] build equal instances. *)
Lemma GDAS_init_only_tau
    (C C' n_classes n_classes' n_layers n_layers' n_nodes n_nodes' : nat)
    (basic_op_list basic_op_list' : list string) (tau0 : Q) :
  GDAS_init C n_classes n_layers n_nodes basic_op_list tau0
  = GDAS_init C' n_classes' n_layers' n_nodes' basic_op_list' tau0.
Proof. unfold GDAS_init. reflexivity. Qed.

(** ** Evaluation of a mixed operation *)

Lemma M_bind_unfold {St A B} (m : M St A) (f : A → M St B) (st : St) :
  mbind (M:=M St) f m st
  = match m st with
    | (Ok a, st') => f a st'
    | (Raise e, st') => (Raise e, st')
    end.
Proof. reflexivity. Qed.

Lemma for_eachM_app {St A S} (body : S → A → M St S) (xs ys : list A) : ∀ acc st,
  for_eachM (xs ++ ys) body acc st
  = match for_eachM xs body acc st with
    | (Ok acc', st') => for_eachM ys body acc' st'
    | (Raise e, st') => (Raise e, st')
    end.
Proof.
  induction xs as [|x xs IH]; intros acc st; [done|].
  cbn [app for_eachM]. rewrite !M_bind_unfold.
  destruct (body acc x st) as [[acc'|e] st']; [apply IH|done].
Qed.

Lemma enumerate_from_app {A} (xs ys : list A) : ∀ k,
  enumerate_from k (xs ++ ys)
  = enumerate_from k xs ++ enumerate_from (k + length xs) ys.
Proof.
  induction xs as [|x xs IH]; intros k; simpl.
  - by rewrite Nat.add_0_r.
  - rewrite IH. do 3 f_equal. lia.
Qed.

Lemma weight_inside (w : Q) :
  (0 < w)%Q → (w < 1)%Q →
  Qeq_bool w 1 = false ∧ Qlt_bool 0 w && Qlt_bool w 1 = true.
Proof.
  intros H0 H1. split.
  - destruct (Qeq_bool w 1) eqn:E; [|done].
    apply Qeq_bool_iff in E. rewrite E in H1. by apply Qlt_irrefl in H1.
  - unfold Qlt_bool. apply andb_true_iff. split; apply negb_true_iff.
    + destruct (Qle_bool w 0) eqn:E; [|done].
      apply Qle_bool_iff in E. by apply Qle_not_lt in E.
    + destruct (Qle_bool 1 w) eqn:E; [|done].
      apply Qle_bool_iff in E. by apply Qle_not_lt in E.
Qed.

Lemma weight_zero (w : Q) :
  (w == 0)%Q → Qeq_bool w 1 = false ∧ Qlt_bool 0 w && Qlt_bool w 1 = false.
Proof.
  intros H. split.
  - destruct (Qeq_bool w 1) eqn:E; [|done].
    apply Qeq_bool_iff in E. rewrite H in E. discriminate E.
  - unfold Qlt_bool. apply andb_false_iff. left. apply negb_false_iff.
    apply Qle_bool_iff. rewrite H. apply Qle_refl.
Qed.

Lemma weight_one (w : Q) :
  (w == 1)%Q → Qeq_bool w 1 = true ∧ Qlt_bool 0 w && Qlt_bool w 1 = false.
Proof.
  intros H. split; [by apply Qeq_bool_iff|].
  unfold Qlt_bool. apply andb_false_iff. right. apply negb_false_iff.
  apply Qle_bool_iff. rewrite H. apply Qle_refl.
Qed.

Section MixedOpFacts.
Context {T OpState : Type} `{!TensorOps T OpState}.
Implicit Types (self : MixedOp) (x : T) (st : list OpState).

Lemma py_sum_snoc (xs : list T) (t : T) : py_sum (xs ++ [t]) = py_add (py_sum xs) t.
Proof. unfold py_sum. by rewrite foldl_app. Qed.

(** With every weight inside (0, 1) the list built by [forward] and the
    running sum of [forwardDART] advance in step. *)
Lemma forward_loop_dense self x : ∀ (ws : list Q) (ops' : list module) k _x st,
  (∀ j, ops' !! j = _ops self !! (k + j)) →
  length ops' = length ws →
  Forall (λ w, 0 < w ∧ w < 1)%Q ws →
  for_eachM (zip ws (enumerate_from k ops')) (forwardDART_step x) (py_sum _x) st
  = match for_eachM (enumerate_from k ws) (forward_step self x) _x st with
    | (Ok _x', st') => (Ok (py_sum _x'), st')
    | (Raise e, st') => (Raise e, st')
    end.
Proof.
  induction ws as [|w ws IH]; intros ops' k _x st Hops Hlen Hws.
  - by destruct ops'.
  - destruct ops' as [|op ops']; [done|].
    apply Forall_cons in Hws as [[Hw0 Hw1] Hws].
    destruct (weight_inside w Hw0 Hw1) as [E1 E2].
    assert (_ops self !! k = Some op) as Hop.
    { specialize (Hops 0). rewrite Nat.add_0_r in Hops. by rewrite <- Hops. }
    cbn [enumerate_from zip zip_with for_eachM]. rewrite !M_bind_unfold.
    unfold forward_step, forwardDART_step. rewrite E1, E2. rewrite !M_bind_unfold.
    unfold call_op. rewrite Hop.
    cbn [mret M_ret]. rewrite !M_bind_unfold.
    unfold call_module. destruct (st !! k) as [s|]; [|done].
    destruct (run op s x) as [y s'].
    rewrite <- py_sum_snoc. apply IH; [|by injection Hlen|done].
    intros j. specialize (Hops (S j)). simpl in Hops. rewrite Hops. f_equal. lia.
Qed.

(** A weight equal to 0 passes both tests of the loop body without a call. *)
Lemma forward_loop_zeros self x : ∀ (ws : list Q) k _x st,
  Forall (λ w, w == 0)%Q ws →
  for_eachM (enumerate_from k ws) (forward_step self x) _x st = (Ok _x, st).
Proof.
  induction ws as [|w ws IH]; intros k _x st Hws; [done|].
  apply Forall_cons in Hws as [Hw Hws].
  destruct (weight_zero w Hw) as [E1 E2].
  cbn [enumerate_from for_eachM]. rewrite M_bind_unfold.
  unfold forward_step. rewrite E1, E2. cbn [mret M_ret]. rewrite M_bind_unfold.
  by apply IH.
Qed.
End MixedOpFacts.

Section MixedOpClaims.
Context {T OpState : Type} `{!TensorOps T OpState}.
Implicit Types (self : MixedOp) (x : T) (st : list OpState).

Lemma call_module_ok i op x st :
  i < length st →
  ∃ s, st !! i = Some s
       ∧ call_module i op x st = (Ok (run op s x).1, <[i:=(run op s x).2]> st).
Proof.
  intros Hi. destruct (lookup_lt_is_Some_2 st i Hi) as [s Hs].
  exists s. split; [done|]. unfold call_module. rewrite Hs.
  by destruct (run op s x).
Qed.

(** The generator of [forwardDART] never raises on a store that has one
    entry per primitive. *)
Lemma forwardDART_loop_ok x : ∀ (ws : list Q) (ops' : list module) k acc st,
  k + length ops' ≤ length st →
  ∃ acc' st',
    for_eachM (zip ws (enumerate_from k ops')) (forwardDART_step x) acc st
    = (Ok acc', st')
    ∧ length st' = length st.
Proof.
  induction ws as [|w ws IH]; intros ops' k acc st Hk; [by eexists _, _|].
  destruct ops' as [|op ops']; [by eexists _, _|].
  cbn [enumerate_from zip zip_with for_eachM]. rewrite M_bind_unfold.
  unfold forwardDART_step at 1. rewrite M_bind_unfold.
  simpl in Hk.
  destruct (call_module_ok k op x st ltac:(lia)) as (s & _ & ->).
  cbn [mret M_ret].
  destruct (IH ops' (S k) (py_add acc (smul w (run op s x).1))
              (<[k:=(run op s x).2]> st)) as (acc' & st' & -> & Hlen).
  { rewrite length_insert. lia. }
  eexists _, _. split; [done|]. by rewrite Hlen, length_insert.
Qed.

(** C8: when every weight lies strictly between 0 and 1, [forward]
    (relaxed evaluation) and [forwardDART] (soft evaluation) give the same
    result, the same output and the same statistics, from every store;
    on a store with one entry per primitive that result is an output. *)
Theorem forward_agrees_with_forwardDART self x (weights : list Q) st :
  Forall (λ w, 0 < w ∧ w < 1)%Q weights →
  MixedOp_forward self x weights st = MixedOp_forwardDART self x weights st
  ∧ (length weights = length (_ops self) → length st = length (_ops self) →
     ∃ out st', MixedOp_forward self x weights st = (Ok out, st')).
Proof.
  intros Hws.
  assert (MixedOp_forward self x weights st = MixedOp_forwardDART self x weights st)
    as Heq.
  { unfold MixedOp_forward, MixedOp_forwardDART. case_decide as Hlen; [|done].
    rewrite M_bind_unfold. unfold enumerate.
    change (PInt 0 : pynum T) with (py_sum ([] : list T)).
    rewrite (forward_loop_dense self x weights (_ops self) 0 [] st); [|done|done|done].
    by destruct (for_eachM _ _ _ _) as [[?|?] ?]. }
  split; [done|]. intros Hlen Hst. rewrite Heq.
  unfold MixedOp_forwardDART. rewrite decide_True by done.
  destruct (forwardDART_loop_ok x weights (_ops self) 0 (PInt 0) st)
    as (acc' & st' & Hloop & _); [simpl; lia|].
  unfold enumerate. rewrite Hloop. by eexists _, _.
Qed.

(** C7: for a weight vector of length [K] and an index [idx] in [0, K),
    [forwardGDAS] calls the primitive at [idx] and no other, returns its
    output multiplied by [weights[idx]], and leaves the statistics of the
    other [K-1] primitives as they were. *)
Theorem forwardGDAS_evaluates_one self x (weights : list Q) (idx : nat) st :
  length weights = length (_ops self) →
  length st = length (_ops self) →
  idx < length (_ops self) →
  ∃ op s w,
    _ops self !! idx = Some op ∧ st !! idx = Some s ∧ weights !! idx = Some w
    ∧ MixedOp_forwardGDAS self x weights (Z.of_nat idx) st
      = (Ok (muls (run op s x).1 w), <[idx:=(run op s x).2]> st)
    ∧ ∀ j, j ≠ idx → <[idx:=(run op s x).2]> st !! j = st !! j.
Proof.
  intros Hlen Hst Hidx.
  destruct (lookup_lt_is_Some_2 (_ops self) idx Hidx) as [op Hop].
  destruct (lookup_lt_is_Some_2 weights idx ltac:(lia)) as [w Hw].
  destruct (call_module_ok idx op x st ltac:(lia)) as (s & Hs & Hcall).
  exists op, s, w. repeat split; try done.
  - unfold MixedOp_forwardGDAS. rewrite decide_True by done.
    assert (∀ n, idx < n → py_index n (Z.of_nat idx) = Ok idx) as Hpy.
    { intros n Hn. unfold py_index.
      rewrite (proj2 (Z.leb_le _ _)) by lia. rewrite (proj2 (Z.ltb_lt _ _)) by lia.
      by rewrite Nat2Z.id. }
    rewrite M_bind_unfold. unfold lift at 1. rewrite Hpy by done.
    rewrite M_bind_unfold. unfold call_op. rewrite Hop, Hcall.
    rewrite M_bind_unfold. unfold lift, getitem. rewrite Hpy by lia.
    cbn [mbind res_bind]. by rewrite Hw.
  - intros j Hj. by apply list_lookup_insert_ne.
Qed.

(** C9: for a one-hot weight vector of the edge's length, [forward]
    returns what a call of the primitive at the position of the 1 returns,
    and the store it leaves is the store of that single call: primitives
    with weight 0 are not called and add nothing. The integer 0 that [sum]
    starts from is taken to leave a tensor unchanged when added. *)
Theorem forward_one_hot self x (weights : list Q) (i : nat) st :
  length weights = length (_ops self) →
  length st = length (_ops self) →
  one_hot_at weights i →
  (∀ t : T, radd 0 t = t) →
  ∃ y st',
    call_op (_ops self) i x st = (Ok y, st')
    ∧ MixedOp_forward self x weights st = (Ok (PTensor y), st')
    ∧ ∀ j, j ≠ i → st' !! j = st !! j.
Proof.
  intros Hlen Hst [(w & Hw & Hw1) Hzero] Hradd.
  pose proof (lookup_lt_Some _ _ _ Hw) as Hi.
  destruct (lookup_lt_is_Some_2 (_ops self) i ltac:(lia)) as [op Hop].
  destruct (call_module_ok i op x st ltac:(lia)) as (s & Hs & Hcall).
  assert (call_op (_ops self) i x st
          = (Ok (run op s x).1, <[i:=(run op s x).2]> st)) as Hcallop.
  { unfold call_op. by rewrite Hop. }
  eexists _, _. split; [exact Hcallop|]. split.
  - unfold MixedOp_forward. rewrite decide_True by done.
    rewrite M_bind_unfold. unfold enumerate.
    rewrite <- (take_drop_middle weights i w Hw).
    rewrite enumerate_from_app, for_eachM_app.
    rewrite forward_loop_zeros.
    2:{ apply Forall_lookup. intros j v Hj.
        apply lookup_take_Some in Hj as [Hj Hlt]. apply (Hzero j v); [lia|done]. }
    rewrite length_take, Nat.min_l by lia.
    cbn [enumerate_from for_eachM Nat.add]. rewrite M_bind_unfold.
    destruct (weight_one w Hw1) as [E1 E2].
    unfold forward_step at 1. rewrite E1, E2.
    rewrite !M_bind_unfold, Hcallop. cbn [mret M_ret].
    rewrite forward_loop_zeros.
    2:{ apply Forall_lookup. intros j v Hj.
        rewrite lookup_drop in Hj. apply (Hzero (S i + j) v); [lia|done]. }
    unfold py_sum. simpl. by rewrite Hradd.
  - intros j Hj. by apply list_lookup_insert_ne.
Qed.
End MixedOpClaims.

(** The mixed-operation theorems on a three-primitive edge over symbolic
    tensors, where the statistics of a primitive count its calls. *)
Lemma forward_agrees_with_forwardDART_witness :
  MixedOp_forward {| _ops := [Zero 1; Identity; SepConv 16 16 3 1 1 false] |}
    SInput [1 # 2; 1 # 4; 1 # 4]%Q [0; 0; 0]
  = MixedOp_forwardDART {| _ops := [Zero 1; Identity; SepConv 16 16 3 1 1 false] |}
      SInput [1 # 2; 1 # 4; 1 # 4]%Q [0; 0; 0]
  ∧ (length [1 # 2; 1 # 4; 1 # 4]%Q = 3 → length [0; 0; 0] = 3 →
     ∃ out st',
       MixedOp_forward {| _ops := [Zero 1; Identity; SepConv 16 16 3 1 1 false] |}
         SInput [1 # 2; 1 # 4; 1 # 4]%Q [0; 0; 0] = (Ok out, st')).
Proof.
  apply (forward_agrees_with_forwardDART
           {| _ops := [Zero 1; Identity; SepConv 16 16 3 1 1 false] |}
           SInput [1 # 2; 1 # 4; 1 # 4]%Q [0; 0; 0]).
  repeat (constructor; [split; reflexivity|]). constructor.
Defined.

Lemma forwardGDAS_evaluates_one_witness :
  ∃ op s w,
    [Zero 1; Identity; SepConv 16 16 3 1 1 false] !! 1 = Some op
    ∧ [0; 0; 0] !! 1 = Some s
    ∧ [0; 1; 0]%Q !! 1 = Some w
    ∧ MixedOp_forwardGDAS {| _ops := [Zero 1; Identity; SepConv 16 16 3 1 1 false] |}
        SInput [0; 1; 0]%Q (Z.of_nat 1) [0; 0; 0]
      = (Ok (muls (run op s SInput).1 w), <[1:=(run op s SInput).2]> [0; 0; 0])
    ∧ ∀ j, j ≠ 1 → <[1:=(run op s SInput).2]> [0; 0; 0] !! j = [0; 0; 0] !! j.
Proof.
  apply (forwardGDAS_evaluates_one
           {| _ops := [Zero 1; Identity; SepConv 16 16 3 1 1 false] |}
           SInput [0; 1; 0]%Q 1 [0; 0; 0]); simpl; [reflexivity|reflexivity|lia].
Defined.

Lemma forward_one_hot_witness :
  ∃ y st',
    call_op [Zero 1; Identity; SepConv 16 16 3 1 1 false] 1 SInput [0; 0; 0]
    = (Ok y, st')
    ∧ MixedOp_forward {| _ops := [Zero 1; Identity; SepConv 16 16 3 1 1 false] |}
        SInput [0; 1; 0]%Q [0; 0; 0] = (Ok (PTensor y), st')
    ∧ ∀ j, j ≠ 1 → st' !! j = [0; 0; 0] !! j.
Proof.
  apply (forward_one_hot
           {| _ops := [Zero 1; Identity; SepConv 16 16 3 1 1 false] |}
           SInput [0; 1; 0]%Q 1 [0; 0; 0]).
  - reflexivity.
  - reflexivity.
  - split.
    + exists 1%Q. split; reflexivity.
    + intros j w Hj Hw. destruct j as [|[|[|j]]]; simpl in Hw; try done;
        injection Hw as <-; reflexivity.
  - intros t. reflexivity.
Defined.

(** On the symbolic edge: the one-hot evaluation calls the second primitive
    once and the others not at all. *)
Lemma forward_one_hot_probe :
  MixedOp_forward {| _ops := [Zero 1; Identity; SepConv 16 16 3 1 1 false] |}
    SInput [0; 1; 0]%Q [0; 0; 0]
  = (Ok (PTensor (SOut Identity 0 SInput)), [0; 1; 0]).
Proof. reflexivity. Qed.

(** ** [DartsCNN.forward]: which weights each cell receives *)

Section ForwardFacts.
Context {T St : Type} (ops : NetOps T St).

Lemma slice_from_zero {A} (l : list A) n : slice l 0 n = take n l.
Proof. unfold slice. by rewrite drop_0, Nat.sub_0_r. Qed.

(** Running the loop over the cells under the probe gives the result and
    the store of the plain run and appends the expected calls to the log,
    all of them unless a cell raised. *)
Lemma forward_cells_probed (self : DartsCNN) (sample : list (list Q)) :
  ∀ (cs : list DartsCell) k s st log,
    ∃ n,
      for_eachM (enumerate_from k cs) (forward_cell_step (probed ops) self sample)
        s (st, log)
      = (let '(r, st') :=
           for_eachM (enumerate_from k cs) (forward_cell_step ops self sample) s st in
         (r, (st', log ++ take n (expected_call self sample <$> enumerate_from k cs))))
      ∧ match (for_eachM (enumerate_from k cs)
                 (forward_cell_step ops self sample) s st).1 with
        | Ok _ => n = length cs
        | Raise _ => True
        end.
Proof.
  induction cs as [|cell cs IH]; intros k [s0 s1] st log.
  - exists 0. simpl. by rewrite app_nil_r.
  - cbn [enumerate_from for_eachM]. rewrite !M_bind_unfold.
    unfold forward_cell_step at 1 3 5. rewrite !M_bind_unfold.
    cbn [cell_call probed]. rewrite slice_from_zero.
    set (weights := if cell_reduction cell then drop (num_edges self) sample
                    else take (num_edges self) sample).
    destruct (cell_call k cell s0 s1 weights st) as [[s1'|e] st'] eqn:Hcall.
    + cbn [mret M_ret].
      destruct (IH (S k) (s1, s1') st' (log ++ [(k, weights)])) as (n & Hn & Hok).
      exists (S n). split.
      * etrans; [exact Hn|].
        destruct (for_eachM _ (forward_cell_step ops self sample) _ st') as [r st''].
        cbn [fmap list_fmap take expected_call fst snd].
        fold weights. by rewrite <- app_assoc.
      * destruct (for_eachM _ (forward_cell_step ops self sample) _ st') as [[?|?] ?];
          simpl in *; [by rewrite Hok|done].
    + exists 1. split; [|done]. cbn [fmap list_fmap take]. by rewrite take_0.
Qed.
(** The whole forward pass under the probe. *)
Lemma forward_probed (self : DartsCNN) (x : T) (sample : list (list Q)) st log :
  ∃ n,
    DartsCNN_forward (probed ops) self x sample (st, log)
    = ((DartsCNN_forward ops self x sample st).1,
       ((DartsCNN_forward ops self x sample st).2,
        log ++ take n (expected_call self sample <$> enumerate (cells self))))
    ∧ match (DartsCNN_forward ops self x sample st).1 with
      | Ok _ => n = length (cells self)
      | Raise _ => True
      end.
Proof.
  unfold DartsCNN_forward, mbind, M_bind, with_log.
  cbn [stem_call gap_call linear_call flatten probed]. unfold with_log.
  destruct (stem_call (stem self) x st) as [[s|e] st1].
  2:{ exists 0. by rewrite take_0, app_nil_r. }
  unfold enumerate.
  destruct (forward_cells_probed self sample (cells self) 0 (s, s) st1 log)
    as (n & Hn & Hok).
  exists n. rewrite Hn.
  destruct (for_eachM _ (forward_cell_step ops self sample) _ st1) as [[s01|e] st2];
    cbn [fst snd] in *; [|done].
  destruct (gap_call (gap self) s01.2 st2) as [[out|e] st3]; [|done].
  destruct (linear_call (linear self) (flatten out) st3) as [[logits|e] st4]; done.
Qed.


End ForwardFacts.

(** Whatever the stem, the cells and the head do, the calls made to the
    cells are the first of the expected calls, in order: a cell is left
    out only when an earlier call raised. The probe does not change the
    result. *)
Lemma forward_log_prefix {T St} (ops : NetOps T St) (self : DartsCNN)
    (x : T) (sample : list (list Q)) (st : St) :
  let expected := expected_call self sample <$> enumerate (cells self) in
  let plain := DartsCNN_forward ops self x sample st in
  let probe := DartsCNN_forward (probed ops) self x sample (st, []) in
  probe.1 = plain.1
  ∧ probe.2.1 = plain.2
  ∧ probe.2.2 `prefix_of` expected.
Proof.
  intros expected plain probe. subst expected plain probe.
  destruct (forward_probed ops self x sample st []) as (n & Hn & Hok).
  rewrite Hn. cbn [fst snd app].
  repeat split. apply prefix_take.
Qed.



(** ** The genotype codec *)

(** C1, at a vocabulary whose "none" is not in column 7: with the
    vocabulary [GDAS_OP] of the source ("none" first, "sep_conv_5x5" in
    column 7) and two nodes per cell, the rows of the edges no node selects
    (rows 2 and 9) get their 1 in column 7, the column of "sep_conv_5x5",
    and not in column 0, the column of "none". The default column is the
    literal 7 whatever the vocabulary. *)
Theorem onehot_default_column_is_literal :
  ∃ net sample,
    DartsCNN_init 16 10 8 2 GDAS_OP = Ok net
    ∧ genotype_to_onehot_sample net two_node_genotype = Ok sample
    ∧ sample !! 2 = Some [0; 0; 0; 0; 0; 0; 0; 1]%Q
    ∧ sample !! 9 = Some [0; 0; 0; 0; 0; 0; 0; 1]%Q
    ∧ list_index "none" GDAS_OP = Ok 0
    ∧ GDAS_OP !! 7 = Some "sep_conv_5x5".
Proof.
  eexists _, _. split; [vm_compute; reflexivity|].
  split; [vm_compute; reflexivity|].
  repeat split; reflexivity.
Qed.

(** With a vocabulary of fewer than eight entries the default column does
    not exist and the encoder raises [IndexError]. *)
Lemma onehot_default_out_of_range :
  ∃ net,
    DartsCNN_init 16 10 8 2 FIVE_OP = Ok net
    ∧ genotype_to_onehot_sample net two_node_genotype = Raise IndexError.
Proof. eexists. split; vm_compute; reflexivity. Qed.

(** C3, at a five-entry vocabulary ending in "none": the genotype that
    discretization produces from the weights [two_node_theta 5 0] cannot be
    encoded, the encoder raises [IndexError] on the first edge no node
    selects, so nothing is recovered. *)
Theorem roundtrip_fails_on_short_vocabulary :
  ∃ net g,
    DartsCNN_init 16 10 8 2 FIVE_OP = Ok net
    ∧ DartsCNN_genotype net (two_node_theta 5 0) = Ok g
    ∧ normal g = [[("skip_connect", 0%Z); ("skip_connect", 1%Z)];
                  [("skip_connect", 1%Z); ("skip_connect", 2%Z)]]
    ∧ genotype_to_onehot_sample net g = Raise IndexError.
Proof.
  eexists _, _. split; [vm_compute; reflexivity|].
  split; [vm_compute; reflexivity|].
  split; vm_compute; reflexivity.
Qed.

(** With a nine-entry vocabulary ending in "none" the encoder runs, and
    the edge that node 1 leaves out (row 2) is encoded with its 1 in
    column 7, the column of "dil_conv_5x5": for the decoder this edge
    scores 1 like the two edges the node selects (rows 3 and 4), so the
    sample no longer tells which two edges were selected. *)
Lemma roundtrip_fails_on_long_vocabulary :
  ∃ net g sample,
    DartsCNN_init 16 10 8 2 NINE_OP = Ok net
    ∧ DartsCNN_genotype net (two_node_theta 9 2) = Ok g
    ∧ normal g !! 1 = Some [("skip_connect", 1%Z); ("skip_connect", 2%Z)]
    ∧ genotype_to_onehot_sample net g = Ok sample
    ∧ (row_top1 <$> sample !! 2) = Some (Ok (1%Q, 7))
    ∧ (row_top1 <$> sample !! 3) = Some (Ok (1%Q, 2))
    ∧ (row_top1 <$> sample !! 4) = Some (Ok (1%Q, 2))
    ∧ NINE_OP !! 7 = Some "dil_conv_5x5".
Proof.
  eexists _, _, _. split; [vm_compute; reflexivity|].
  split; [vm_compute; reflexivity|].
  split; [reflexivity|].
  split; [vm_compute; reflexivity|].
  repeat split; vm_compute; reflexivity.
Qed.

(** * Further properties of the search space *)

(** ** Unpacking on any sequence *)

(** Whatever the length of the flat sequence, unpacking returns one group
    per node; group [i] holds the entries from offset [Σ_{t<i} (input_nodes+t)]
    on, [input_nodes + i] of them or as many as are left, and the groups
    laid end to end are a prefix of the sequence: nothing is reordered,
    repeated or made up. *)
Theorem darts_weight_unpack_clamped {A} (weight : list A) (n_nodes input_nodes : nat) :
  let w_dag := darts_weight_unpack weight n_nodes input_nodes in
  length w_dag = n_nodes
  ∧ (∀ i, i < n_nodes →
       ∃ g, w_dag !! i = Some g
            ∧ length g = (input_nodes + i) `min` (length weight - node_offset input_nodes i)
            ∧ ∀ j, j < input_nodes + i → g !! j = weight !! (node_offset input_nodes i + j))
  ∧ concat w_dag = take (node_offset input_nodes n_nodes) weight.
Proof.
  intros w_dag. subst w_dag.
  split; [apply darts_weight_unpack_length|]. split.
  - intros i Hi.
    exists (slice weight (node_offset input_nodes i) (node_offset input_nodes (S i))).
    split; [by apply darts_weight_unpack_lookup|].
    rewrite node_offset_S. split.
    + rewrite length_slice. f_equal. lia.
    + intros j Hj. apply lookup_slice. lia.
  - by rewrite darts_weight_unpack_eq, concat_slices.
Qed.

(** The two unpacking functions of the source have the same body. *)
Lemma gdas_indexes_unpack_eq {A} (weight : list A) (n_nodes input_nodes : nat) :
  gdas_indexes_unpack weight n_nodes input_nodes
  = darts_weight_unpack weight n_nodes input_nodes.
Proof. reflexivity. Qed.

(** ** [_node_index] *)

Lemma node_index_loop (input_nodes start m : nat) : ∀ k node_index,
  foldl (λ '(node_index, start_index, end_index) i,
           (node_index ++ [seq start_index (end_index - start_index)],
            end_index,
            end_index + (input_nodes + i + 1)))
        (node_index, start + node_offset input_nodes k,
         start + node_offset input_nodes (S k))
        (seq k m)
  = (node_index
     ++ ((λ i, seq (start + node_offset input_nodes i) (input_nodes + i)) <$> seq k m),
     start + node_offset input_nodes (k + m),
     start + node_offset input_nodes (S (k + m))).
Proof.
  induction m as [|m IH]; intros k node_index.
  - cbn [seq foldl fmap list_fmap]. by rewrite app_nil_r, Nat.add_0_r.
  - cbn [seq foldl].
    replace (start + node_offset input_nodes (S k) + (input_nodes + k + 1))
      with (start + node_offset input_nodes (S (S k))) by (cbn [node_offset]; lia).
    rewrite IH, <- app_assoc, fmap_cons.
    replace (start + node_offset input_nodes (S k) - (start + node_offset input_nodes k))
      with (input_nodes + k) by (cbn [node_offset]; lia).
    by replace (S k + m) with (k + S m) by lia.
Qed.

Lemma node_index_eq (n_nodes input_nodes start : nat) :
  _node_index n_nodes input_nodes start
  = (λ i, seq (start + node_offset input_nodes i) (input_nodes + i)) <$> seq 0 n_nodes.
Proof.
  unfold _node_index.
  pose proof (node_index_loop input_nodes start n_nodes 0 []) as Hloop.
  change (node_offset input_nodes 0) with 0 in Hloop.
  replace (start + 0) with start in Hloop by lia.
  replace (start + node_offset input_nodes 1) with (input_nodes + start) in Hloop
    by (simpl; lia).
  by rewrite Hloop.
Qed.

Lemma slice_seq (start len a b : nat) :
  b ≤ len → a ≤ b → slice (seq start len) a b = seq (start + a) (b - a).
Proof.
  intros Hb Ha. unfold slice. rewrite drop_seq, take_seq. f_equal. lia.
Qed.

(** Group [k] cut out of the row numbers is the run of [input_nodes + k]
    numbers that starts at the offset of node [k]. *)
Lemma slice_row_numbers (n_nodes input_nodes start k : nat) :
  k < n_nodes →
  slice (seq start (node_offset input_nodes n_nodes))
    (node_offset input_nodes k) (node_offset input_nodes (S k))
  = seq (start + node_offset input_nodes k) (input_nodes + k).
Proof.
  intros Hk. rewrite slice_seq.
  - f_equal. rewrite node_offset_S. lia.
  - apply (node_offset_mono input_nodes (S k) n_nodes). lia.
  - rewrite node_offset_S. lia.
Qed.

Lemma node_index_unpacked (n_nodes input_nodes start : nat) :
  _node_index n_nodes input_nodes start
  = darts_weight_unpack (seq start (node_offset input_nodes n_nodes)) n_nodes input_nodes.
Proof.
  rewrite node_index_eq, darts_weight_unpack_eq.
  apply list_fmap_ext. intros k i Hk. apply lookup_seq in Hk as [-> Hk]. simpl.
  by rewrite slice_row_numbers.
Qed.

(** [_node_index] is the unpacking of the row numbers: the index lists of
    a cell are what [darts_weight_unpack] cuts out of
    [range(start, start + Σ_{i<N} (input_nodes+i))]. *)
Theorem node_index_is_unpacked_range (n_nodes input_nodes start : nat) :
  _node_index n_nodes input_nodes start
  = darts_weight_unpack (seq start (node_offset input_nodes n_nodes)) n_nodes input_nodes.
Proof.
  rewrite node_index_eq, darts_weight_unpack_eq.
  apply list_fmap_ext. intros k i Hk. apply lookup_seq in Hk as [-> Hk]. simpl.
  rewrite slice_seq.
  - f_equal. lia.
  - apply (node_offset_mono input_nodes (S k) n_nodes). lia.
  - lia.
Qed.

(** ** The fields a constructed network holds *)

Lemma DartsCNN_init_fields C n_classes n_layers n_nodes basic_op_list net :
  DartsCNN_init C n_classes n_layers n_nodes basic_op_list = Ok net →
  net_n_nodes net = n_nodes
  ∧ net_basic_op_list net = effective_op_list basic_op_list
  ∧ num_ops net = length (effective_op_list basic_op_list)
  ∧ num_edges net = node_offset 2 n_nodes
  ∧ all_edges net = 2 * node_offset 2 n_nodes
  ∧ non_op_idx net = get_op_index (effective_op_list basic_op_list) NON_PARAMETER_OP
  ∧ para_op_idx net = get_op_index (effective_op_list basic_op_list) PARAMETER_OP
  ∧ norm_node_index net = _node_index n_nodes 2 0
  ∧ reduce_node_index net = _node_index n_nodes 2 (node_offset 2 n_nodes).
Proof.
  unfold DartsCNN_init, effective_op_list. intros H.
  destruct (for_each _ _ _) as [st|e]; [|done].
  cbn [mbind res_bind] in H. injection H as <-. cbn [net_n_nodes net_basic_op_list
    num_ops num_edges all_edges non_op_idx para_op_idx norm_node_index reduce_node_index].
  rewrite sum_range_offset. by repeat split.
Qed.

Lemma effective_op_list_registered basic_op_list :
  Forall registered basic_op_list → Forall registered (effective_op_list basic_op_list).
Proof.
  intros Hreg. unfold effective_op_list. case_decide; [|done].
  unfold DEFAULT_OP, registered, NON_PARAMETER_OP, PARAMETER_OP.
  repeat constructor; set_solver.
Qed.

(** The index lists of the normal and of the reduction cell, laid end to
    end, are [0, 1, ..., all_edges - 1]: every row of the architecture
    tensor belongs to exactly one node of one cell kind. *)
Theorem node_indices_cover_all_edges C n_classes n_layers n_nodes basic_op_list net :
  DartsCNN_init C n_classes n_layers n_nodes basic_op_list = Ok net →
  concat (norm_node_index net) ++ concat (reduce_node_index net)
  = seq 0 (all_edges net).
Proof.
  intros Hnet.
  destruct (DartsCNN_init_fields _ _ _ _ _ _ Hnet)
    as (_ & _ & _ & _ & -> & _ & _ & -> & ->).
  rewrite !node_index_unpacked, !darts_weight_unpack_eq, !concat_slices.
  rewrite !firstn_all2 by (rewrite length_seq; lia).
  replace (2 * node_offset 2 n_nodes) with (node_offset 2 n_nodes + node_offset 2 n_nodes)
    by lia.
  by rewrite seq_app.
Qed.

Lemma node_indices_cover_all_edges_witness :
  ∃ net,
    DartsCNN_init 16 10 8 4 [] = Ok net
    ∧ concat (norm_node_index net) ++ concat (reduce_node_index net)
      = seq 0 (all_edges net).
Proof.
  eexists. split; [vm_compute; reflexivity|].
  apply (node_indices_cover_all_edges 16 10 8 4 []). vm_compute. reflexivity.
Defined.

(** ** [get_op_index] *)

Lemma elem_of_enumerate_from {A} (xs : list A) : ∀ k i x,
  (i, x) ∈ enumerate_from k xs ↔ k ≤ i ∧ xs !! (i - k) = Some x.
Proof.
  induction xs as [|y xs IH]; intros k i x; simpl.
  - rewrite elem_of_nil. split; [done|]. intros [_ Hx]. done.
  - rewrite elem_of_cons, IH. split.
    + intros [[= -> ->]|[Hk Hx]].
      * rewrite Nat.sub_diag. done.
      * split; [lia|]. by replace (i - k) with (S (i - S k)) by lia.
    + intros [Hk Hx]. destruct (decide (i = k)) as [->|Hne].
      * left. rewrite Nat.sub_diag in Hx. by injection Hx as ->.
      * right. split; [lia|]. by replace (i - k) with (S (i - S k)) in Hx by lia.
Qed.

Lemma get_op_index_loop (parameter_list : list string) (op_list : list string) :
  ∀ k acc,
    foldl (λ op_idx_list '(op_idx, op),
             if decide (op ∈ parameter_list) then op_idx_list ++ [op_idx]
             else op_idx_list)
          acc (enumerate_from k op_list)
    = acc ++ (fst <$> filter (λ p, p.2 ∈ parameter_list) (enumerate_from k op_list)).
Proof.
  induction op_list as [|op op_list IH]; intros k acc; simpl.
  - by rewrite app_nil_r.
  - rewrite IH, filter_cons. simpl. case_decide; [|done].
    by rewrite fmap_cons, <- app_assoc.
Qed.

Lemma enumerate_from_sorted {A} (P : nat * A → Prop) `{!∀ p, Decision (P p)}
    (xs : list A) : ∀ k,
  Forall (λ i, k ≤ i) (fst <$> filter P (enumerate_from k xs))
  ∧ StronglySorted lt (fst <$> filter P (enumerate_from k xs)).
Proof.
  induction xs as [|x xs IH]; intros k; simpl; [by split; constructor|].
  destruct (IH (S k)) as [Hge Hsorted].
  rewrite filter_cons. case_decide; simpl.
  - split.
    + constructor; [done|]. eapply Forall_impl; [exact Hge|]. simpl. lia.
    + constructor; [done|]. eapply Forall_impl; [exact Hge|]. simpl. lia.
  - split; [|done]. eapply Forall_impl; [exact Hge|]. simpl. lia.
Qed.

Lemma elem_of_get_op_index (op_list parameter_list : list string) (i : nat) :
  i ∈ get_op_index op_list parameter_list
  ↔ ∃ op, op_list !! i = Some op ∧ op ∈ parameter_list.
Proof.
  unfold get_op_index, enumerate. rewrite get_op_index_loop. simpl.
  rewrite list_elem_of_fmap. split.
  - intros ([j op] & -> & Hin). apply list_elem_of_filter in Hin as [Hop Hin].
    apply elem_of_enumerate_from in Hin as [_ Hin]. rewrite Nat.sub_0_r in Hin. eauto.
  - intros (op & Hi & Hop). exists (i, op). split; [done|].
    apply list_elem_of_filter. split; [done|].
    apply elem_of_enumerate_from. rewrite Nat.sub_0_r. split; [lia|done].
Qed.

(** [get_op_index] returns, in increasing order and without repetition,
    exactly the positions of the vocabulary whose name is in the given
    list. *)
Theorem get_op_index_spec (op_list parameter_list : list string) :
  (∀ i, i ∈ get_op_index op_list parameter_list
        ↔ ∃ op, op_list !! i = Some op ∧ op ∈ parameter_list)
  ∧ StronglySorted lt (get_op_index op_list parameter_list).
Proof.
  unfold get_op_index, enumerate. rewrite get_op_index_loop. simpl. split.
  - intros i. rewrite list_elem_of_fmap. split.
    + intros ([j op] & -> & Hin). apply list_elem_of_filter in Hin as [Hop Hin].
      apply elem_of_enumerate_from in Hin as [_ Hin]. rewrite Nat.sub_0_r in Hin. eauto.
    + intros (op & Hi & Hop). exists (i, op). split; [done|].
      apply list_elem_of_filter. split; [done|].
      apply elem_of_enumerate_from. rewrite Nat.sub_0_r. split; [lia|done].
  - apply (enumerate_from_sorted (λ p, p.2 ∈ parameter_list) op_list 0).
Qed.

(** For a vocabulary of registered names, [non_op_idx] and [para_op_idx]
    split the columns of the architecture tensor: every column is in
    exactly one of the two lists. *)
Theorem op_index_lists_partition C n_classes n_layers n_nodes basic_op_list net :
  DartsCNN_init C n_classes n_layers n_nodes basic_op_list = Ok net →
  Forall registered basic_op_list →
  ∀ i, i < num_ops net →
    (i ∈ non_op_idx net ∧ ¬ i ∈ para_op_idx net)
    ∨ (¬ i ∈ non_op_idx net ∧ i ∈ para_op_idx net).
Proof.
  intros Hnet Hreg i Hi.
  destruct (DartsCNN_init_fields _ _ _ _ _ _ Hnet)
    as (_ & _ & Hops & _ & _ & -> & -> & _ & _).
  set (ops := effective_op_list basic_op_list) in *.
  pose proof (effective_op_list_registered _ Hreg) as Hreg'. fold ops in Hreg'.
  rewrite Hops in Hi. destruct (lookup_lt_is_Some_2 ops i Hi) as [op Hop].
  pose proof (proj1 (Forall_lookup _ _) Hreg' i op Hop) as Hregop.
  rewrite !elem_of_get_op_index. unfold registered in Hregop. apply elem_of_app in Hregop.
  assert (∀ s, s ∈ NON_PARAMETER_OP → s ∉ PARAMETER_OP) as Hdisj.
  { unfold NON_PARAMETER_OP, PARAMETER_OP. intros s Hs Hp.
    rewrite !elem_of_cons, elem_of_nil in Hs.
    rewrite !elem_of_cons, elem_of_nil in Hp.
    destruct_or!; subst; done. }
  destruct Hregop as [Hin|Hin].
  - left. split; [eauto|]. intros (op' & Hop' & Hp). rewrite Hop in Hop'.
    injection Hop' as <-. by apply (Hdisj op).
  - right. split; [|eauto]. intros (op' & Hop' & Hp). rewrite Hop in Hop'.
    injection Hop' as <-. by apply (Hdisj op).
Qed.

Lemma op_index_lists_partition_witness :
  ∃ net,
    DartsCNN_init 16 10 8 4 [] = Ok net
    ∧ ∀ i, i < num_ops net →
        (i ∈ non_op_idx net ∧ ¬ i ∈ para_op_idx net)
        ∨ (¬ i ∈ non_op_idx net ∧ i ∈ para_op_idx net).
Proof.
  eexists. split; [vm_compute; reflexivity|].
  apply (op_index_lists_partition 16 10 8 4 []); [vm_compute; reflexivity|constructor].
Defined.

(** ** The registry and unknown names *)

Ltac registry_dead := solve [right; reflexivity].

Ltac registry_char p :=
  let b0 := fresh "b" in let b1 := fresh "b" in let b2 := fresh "b" in
  let b3 := fresh "b" in let b4 := fresh "b" in let b5 := fresh "b" in
  let b6 := fresh "b" in let b7 := fresh "b" in
  destruct p as [|[b0 b1 b2 b3 b4 b5 b6 b7] p];
  [ first [ registry_dead
          | left; unfold registered, NON_PARAMETER_OP, PARAMETER_OP; simpl; set_solver ]
  | destruct b0; try registry_dead; destruct b1; try registry_dead;
    destruct b2; try registry_dead; destruct b3; try registry_dead;
    destruct b4; try registry_dead; destruct b5; try registry_dead;
    destruct b6; try registry_dead; destruct b7; try registry_dead ].

Lemma OPS_cases (primitive : string) C_in C_out stride affine :
  registered primitive ∨ OPS_ primitive C_in C_out stride affine = Raise KeyError.
Proof. repeat (registry_char primitive). Qed.

Lemma OPS_unregistered (primitive : string) C_in C_out stride affine :
  ¬ registered primitive → OPS_ primitive C_in C_out stride affine = Raise KeyError.
Proof.
  intros Hnot. by destruct (OPS_cases primitive C_in C_out stride affine).
Qed.

Lemma OPS_depthwise_zero (primitive : string) C_out stride affine :
  primitive ∈ DEPTHWISE_OP → OPS_ primitive 0 C_out stride affine = Raise ValueError.
Proof.
  unfold DEPTHWISE_OP. rewrite !elem_of_cons, !elem_of_nil.
  intros H. destruct_or!; subst; done.
Qed.

Lemma OPS_registered_cases (primitive : string) C_in C_out stride affine :
  registered primitive →
  (primitive ∈ DEPTHWISE_OP ∧ C_in = 0)
  ∨ ∃ op, OPS_ primitive C_in C_out stride affine = Ok op.
Proof.
  intros Hreg. destruct C_in as [|n].
  - unfold registered in Hreg. rewrite !elem_of_app in Hreg.
    unfold NON_PARAMETER_OP, PARAMETER_OP in Hreg.
    rewrite !elem_of_cons, !elem_of_nil in Hreg.
    destruct_or!; subst; try done;
      first [ right; by eexists
            | left; split; [unfold DEPTHWISE_OP; set_solver|done] ].
  - right. apply OPS_registered; [lia|done].
Qed.

(** The three outcomes of the registry: [KeyError] exactly for the
    strings outside its twelve names; [ValueError] for a name whose
    primitive starts with a depthwise convolution when [C_in] is 0 (the
    convolution would have no group); a primitive in every other case. *)
Theorem OPS_rejects_unknown_names (primitive : string) (C_in C_out stride : nat)
    (affine : bool) :
  (¬ registered primitive
   ∧ OPS_ primitive C_in C_out stride affine = Raise KeyError)
  ∨ (registered primitive ∧ primitive ∈ DEPTHWISE_OP ∧ C_in = 0
     ∧ OPS_ primitive C_in C_out stride affine = Raise ValueError)
  ∨ (registered primitive ∧ ¬ (primitive ∈ DEPTHWISE_OP ∧ C_in = 0)
     ∧ ∃ op, OPS_ primitive C_in C_out stride affine = Ok op).
Proof.
  destruct (decide (registered primitive)) as [Hreg|Hnot].
  - right. destruct (OPS_registered_cases primitive C_in C_out stride affine Hreg)
      as [[Hdw ->]|[op Hop]].
    + left. split; [done|]. split; [done|]. split; [done|].
      by apply OPS_depthwise_zero.
    + right. split; [done|]. split; [|by exists op].
      intros [Hdw ->]. rewrite OPS_depthwise_zero in Hop by done. done.
  - left. split; [done|]. by apply OPS_unregistered.
Qed.

(** ** Loops that collect results: what a returned list is made of, and
    when the loop raises *)

Lemma for_each_collect_inv {A B} (f : A → res B) (xs : list A) : ∀ acc r,
  for_each xs (λ acc x, b ← f x; Ok (acc ++ [b])) acc = Ok r →
  ∃ bs, r = acc ++ bs ∧ Forall2 (λ x b, f x = Ok b) xs bs.
Proof.
  induction xs as [|x xs IH]; intros acc r Hr.
  - injection Hr as <-. exists []. by rewrite app_nil_r.
  - cbn [for_each] in Hr. destruct (f x) as [b|e] eqn:Hb; [|done].
    cbn in Hr. destruct (IH _ _ Hr) as (bs & -> & Hall).
    exists (b :: bs). split; [by rewrite <- app_assoc|]. by constructor.
Qed.

Lemma for_each_collect_raise {A B} (f : A → res B) (e : exn) (xs : list A) : ∀ acc,
  (∀ x, x ∈ xs → (∃ b, f x = Ok b) ∨ f x = Raise e) →
  (∃ x, x ∈ xs ∧ f x = Raise e) →
  for_each xs (λ acc x, b ← f x; Ok (acc ++ [b])) acc = Raise e.
Proof.
  induction xs as [|x xs IH]; intros acc Hall (y & Hy & Hraise).
  - by apply elem_of_nil in Hy.
  - cbn [for_each]. destruct (Hall x) as [[b Hb]|Hx]; [by left| |by rewrite Hx].
    rewrite Hb. cbn. apply IH.
    + intros z Hz. apply Hall. by right.
    + apply elem_of_cons in Hy as [->|Hy]; [congruence|eauto].
Qed.

(** At width 0 the default vocabulary cannot be built: the first
    depthwise primitive of the first edge raises [ValueError]. *)
Lemma DartsCNN_init_zero_width :
  OPS_ "sep_conv_3x3" 0 0 1 false = Raise ValueError
  ∧ DartsCNN_init 0 10 8 4 [] = Raise ValueError.
Proof. split; vm_compute; reflexivity. Qed.

Lemma MixedOp_init_unknown_name C_in C_out stride basic_op_list :
  0 < C_in →
  ¬ Forall registered basic_op_list →
  MixedOp_init C_in C_out stride basic_op_list = Raise KeyError.
Proof.
  intros HC Hnot. unfold MixedOp_init.
  rewrite (for_each_collect_raise (λ p, OPS_ p C_in C_out stride false) KeyError);
    [done| |].
  - intros p _. destruct (decide (registered p)) as [Hreg|Hunreg].
    + left. by apply OPS_registered.
    + right. by apply OPS_unregistered.
  - apply not_Forall_Exists in Hnot; [|apply _].
    apply Exists_exists in Hnot as (p & Hp & Hunreg). exists p. split; [done|].
    by apply OPS_unregistered.
Qed.

Lemma DartsCell_init_unknown_name n_nodes C_pp C_p C reduction_p reduction basic_op_list :
  0 < n_nodes →
  0 < C →
  ¬ Forall registered basic_op_list →
  DartsCell_init n_nodes C_pp C_p C reduction_p reduction basic_op_list = Raise KeyError.
Proof.
  intros Hn HC Hnot. unfold DartsCell_init.
  set (inner := λ i : nat,
         for_each (seq 0 (2 + i))
           (λ edges j,
              op ← MixedOp_init C C
                     (if reduction && bool_decide (j < 2) then 2 else 1) basic_op_list;
              Ok (edges ++ [op])) []).
  assert (∀ i, inner i = Raise KeyError) as Hinner.
  { intros i. unfold inner.
    apply (for_each_collect_raise
             (λ j, MixedOp_init C C
                     (if reduction && bool_decide (j < 2) then 2 else 1) basic_op_list)).
    - intros j _. right. by apply MixedOp_init_unknown_name.
    - exists 0. split; [simpl; by left|]. by apply MixedOp_init_unknown_name. }
  rewrite (for_each_collect_raise inner KeyError); [done| |].
  - intros i _. by right.
  - exists 0. split; [|done]. destruct n_nodes; [lia|]. by left.
Qed.

Lemma layer_step_unknown_name n_layers n_nodes basic_op_list st i :
  0 < n_nodes →
  0 < ls_C_cur st →
  ¬ Forall registered basic_op_list →
  layer_step n_layers n_nodes basic_op_list st i = Raise KeyError.
Proof.
  intros Hn HC Hnot. unfold layer_step.
  destruct (decide (i ∈ [n_layers / 3; 2 * n_layers / 3]));
    rewrite DartsCell_init_unknown_name; try done; lia.
Qed.

(** A network of positive width with at least one layer and one node per
    cell is built when every name of its vocabulary is registered, and its
    construction raises [KeyError] otherwise. *)
Theorem DartsCNN_init_rejects_unknown_names
    (C n_classes n_layers n_nodes : nat) (basic_op_list : list string) :
  0 < C →
  0 < n_layers →
  0 < n_nodes →
  (Forall registered (effective_op_list basic_op_list)
   ∧ ∃ net, DartsCNN_init C n_classes n_layers n_nodes basic_op_list = Ok net)
  ∨ (¬ Forall registered (effective_op_list basic_op_list)
     ∧ DartsCNN_init C n_classes n_layers n_nodes basic_op_list = Raise KeyError).
Proof.
  intros HC HL HN.
  destruct (decide (Forall registered (effective_op_list basic_op_list))) as [Hreg|Hnot].
  - left. split; [done|].
    assert (Forall registered basic_op_list) as Hreg'.
    { unfold effective_op_list in Hreg. case_decide as Hlen; [|done].
      destruct basic_op_list; [constructor|done]. }
    destruct (DartsCNN_init_ok C n_classes n_layers n_nodes basic_op_list HC Hreg')
      as (net & Hnet & _). eauto.
  - right. split; [done|]. unfold DartsCNN_init. fold (effective_op_list basic_op_list).
    destruct n_layers as [|L]; [lia|]. cbn [seq for_each].
    by rewrite layer_step_unknown_name.
Qed.

Lemma DartsCNN_init_rejects_unknown_names_witness :
  (Forall registered (effective_op_list ["conv_3x3"])
   ∧ ∃ net, DartsCNN_init 16 10 8 4 ["conv_3x3"] = Ok net)
  ∨ (¬ Forall registered (effective_op_list ["conv_3x3"])
     ∧ DartsCNN_init 16 10 8 4 ["conv_3x3"] = Raise KeyError).
Proof. apply (DartsCNN_init_rejects_unknown_names 16 10 8 4 ["conv_3x3"]); lia. Defined.

(** ** What the edges of a cell are made of *)

Lemma Forall2_seq_lookup_r {B} (P : nat → B → Prop) (n : nat) (l : list B) i b :
  Forall2 P (seq 0 n) l → l !! i = Some b → P i b.
Proof.
  intros H Hb. destruct (Forall2_lookup_r _ _ _ _ _ H Hb) as (x & Hx & HP).
  apply lookup_seq in Hx as [-> _]. done.
Qed.

Lemma MixedOp_init_inv C_in C_out stride basic_op_list edge :
  MixedOp_init C_in C_out stride basic_op_list = Ok edge →
  Forall2 (λ p op, OPS_ p C_in C_out stride false = Ok op) basic_op_list (_ops edge).
Proof.
  unfold MixedOp_init. intros H.
  destruct (for_each _ _ _) as [ops|e] eqn:Hops; [|done].
  injection H as <-.
  destruct (for_each_collect_inv (λ p, OPS_ p C_in C_out stride false) _ _ _ Hops)
    as (bs & -> & Hall). done.
Qed.

Lemma DartsCell_init_inv n_nodes C_pp C_p C reduction_p reduction basic_op_list cell :
  DartsCell_init n_nodes C_pp C_p C reduction_p reduction basic_op_list = Ok cell →
  ∀ i j edges edge,
    dag cell !! i = Some edges → edges !! j = Some edge →
    MixedOp_init C C (if reduction && bool_decide (j < 2) then 2 else 1) basic_op_list
    = Ok edge.
Proof.
  unfold DartsCell_init. intros H i j edges edge Hi Hj.
  set (inner := λ i : nat,
         for_each (seq 0 (2 + i))
           (λ edges j,
              op ← MixedOp_init C C
                     (if reduction && bool_decide (j < 2) then 2 else 1) basic_op_list;
              Ok (edges ++ [op])) []) in H.
  destruct (for_each (seq 0 n_nodes) _ []) as [d|e] eqn:Hd; [|done].
  injection H as <-. cbn [dag] in Hi.
  destruct (for_each_collect_inv inner _ _ _ Hd) as (bs & -> & Hall).
  pose proof (Forall2_seq_lookup_r _ _ _ _ _ Hall Hi) as Hinner. unfold inner in Hinner.
  destruct (for_each_collect_inv
              (λ j, MixedOp_init C C
                      (if reduction && bool_decide (j < 2) then 2 else 1) basic_op_list)
              _ _ _ Hinner) as (es & -> & Hall').
  exact (Forall2_seq_lookup_r _ _ _ _ _ Hall' Hj).
Qed.

(** In a constructed cell every edge owns one primitive per vocabulary
    entry, in the order of the vocabulary: primitive [k] of edge [j] of a
    node is what the registry builds for name [k] with both widths equal
    to the width [C] of the cell, without affine normalisation, and with
    the stride argument 2 on the edges that leave the two cell inputs of
    a reduction cell and 1 on every other edge. *)
Theorem DartsCell_edge_primitives
    (n_nodes C_pp C_p C : nat) (reduction_p reduction : bool)
    (basic_op_list : list string) (cell : DartsCell) :
  DartsCell_init n_nodes C_pp C_p C reduction_p reduction basic_op_list = Ok cell →
  ∀ i j edges edge,
    dag cell !! i = Some edges → edges !! j = Some edge →
    length (_ops edge) = length basic_op_list
    ∧ ∀ k primitive, basic_op_list !! k = Some primitive →
        ∃ op, _ops edge !! k = Some op
              ∧ OPS_ primitive C C (if reduction && bool_decide (j < 2) then 2 else 1)
                  false
                = Ok op.
Proof.
  intros Hcell i j edges edge Hi Hj.
  pose proof (DartsCell_init_inv _ _ _ _ _ _ _ _ Hcell i j edges edge Hi Hj) as Hedge.
  apply MixedOp_init_inv in Hedge. split.
  - symmetry. by eapply Forall2_length.
  - intros k primitive Hk.
    destruct (Forall2_lookup_l _ _ _ _ _ Hedge Hk) as (op & Hop & Hbuilt). eauto.
Qed.

Lemma DartsCell_edge_primitives_witness :
  ∃ cell,
    DartsCell_init 4 48 48 32 false true DEFAULT_OP = Ok cell
    ∧ ∀ i j edges edge,
        dag cell !! i = Some edges → edges !! j = Some edge →
        length (_ops edge) = length DEFAULT_OP
        ∧ ∀ k primitive, DEFAULT_OP !! k = Some primitive →
            ∃ op, _ops edge !! k = Some op
                  ∧ OPS_ primitive 32 32 (if true && bool_decide (j < 2) then 2 else 1)
                      false
                    = Ok op.
Proof.
  eexists. split; [vm_compute; reflexivity|].
  apply (DartsCell_edge_primitives 4 48 48 32 false true DEFAULT_OP).
  vm_compute. reflexivity.
Defined.

(** ** Channel bookkeeping across the stack of cells *)

(** A loop over [range(n)] that returned: an invariant kept by every turn
    that returns holds at the end. *)
Lemma for_each_seq_inv_ok {S} (body : S → nat → res S) (P : nat → S → Prop) (n : nat) :
  (∀ i st st', i < n → P i st → body st i = Ok st' → P (Datatypes.S i) st') →
  ∀ st0 st, P 0 st0 → for_each (seq 0 n) body st0 = Ok st → P n st.
Proof.
  intros Hstep.
  assert (∀ m k st0 st, k + m = n → P k st0 →
            for_each (seq k m) body st0 = Ok st → P n st) as Hgen.
  { induction m as [|m IH]; intros k st0 st Hk HP Hrun.
    - injection Hrun as <-. by replace n with k by lia.
    - cbn [seq for_each] in Hrun. destruct (body st0 k) as [st'|e] eqn:Hbody; [|done].
      apply (IH (Datatypes.S k) st' st); [lia| |done].
      apply (Hstep k st0); [lia|done|done]. }
  intros st0 st HP Hrun. by apply (Hgen n 0 st0 st).
Qed.

Lemma DartsCell_init_head n_nodes C_pp C_p C reduction_p reduction basic_op_list cell :
  DartsCell_init n_nodes C_pp C_p C reduction_p reduction basic_op_list = Ok cell →
  cell_reduction cell = reduction
  ∧ cell_n_nodes cell = n_nodes
  ∧ cell_width cell = C
  ∧ preproc1 cell = StdConv C_p C 1 1 0 false
  ∧ preproc0 cell = (if reduction_p then FactorizedReduce C_pp C false
                     else StdConv C_pp C 1 1 0 false).
Proof.
  unfold DartsCell_init. intros H.
  destruct (for_each _ _ _) as [d|e]; [|done]. by injection H as <-.
Qed.

Lemma out_width_app C n_nodes cs cs' i :
  i ≤ length cs → out_width C n_nodes (cs ++ cs') i = out_width C n_nodes cs i.
Proof.
  destruct i as [|i]; [done|]. intros Hi. simpl. by rewrite lookup_app_l by lia.
Qed.

Lemma prev_reduction_app cs cs' i :
  i ≤ length cs → prev_reduction (cs ++ cs') i = prev_reduction cs i.
Proof.
  destruct i as [|i]; [done|]. intros Hi. simpl. by rewrite lookup_app_l by lia.
Qed.

Lemma DartsCNN_init_layers C n_classes n_layers n_nodes basic_op_list net :
  DartsCNN_init C n_classes n_layers n_nodes basic_op_list = Ok net →
  length (cells net) = n_layers
  ∧ linear net = Linear (out_width C n_nodes (cells net) n_layers) n_classes
  ∧ ∀ i cell, cells net !! i = Some cell →
      cell_n_nodes cell = n_nodes
      ∧ layer_ok C n_layers (cells net) i cell
      ∧ inputs_ok C n_nodes (cells net) i cell.
Proof.
  unfold DartsCNN_init. fold (effective_op_list basic_op_list). intros H.
  destruct (for_each _ _ _) as [st|e] eqn:Hst; [|done].
  injection H as <-. cbn [cells linear].
  set (P := λ (k : nat) (st : layer_state),
         length (ls_cells st) = k
         ∧ ls_C_cur st = prev_width C (ls_cells st) k
         ∧ ls_C_p st = out_width C n_nodes (ls_cells st) k
         ∧ ls_C_pp st = out_width C n_nodes (ls_cells st) (k - 1)
         ∧ ls_reduction_p st = prev_reduction (ls_cells st) k
         ∧ ∀ i cell, ls_cells st !! i = Some cell →
             cell_n_nodes cell = n_nodes
             ∧ layer_ok C n_layers (ls_cells st) i cell
             ∧ inputs_ok C n_nodes (ls_cells st) i cell).
  assert (P n_layers st) as (Hlen & _ & Hp & _ & _ & Hcells).
  { eapply (for_each_seq_inv_ok _ P); [|  |exact Hst].
    - clear Hst st. intros i st st' Hi (Hlen & Hcur & Hp & Hpp & Hrp & Hcells) Hstep.
      unfold layer_step in Hstep.
      set (cr := if decide (i ∈ [n_layers / 3; 2 * n_layers / 3])
                 then (ls_C_cur st * 2, true) else (ls_C_cur st, false)) in Hstep.
      assert (cr.2 = true ↔ i = n_layers / 3 ∨ i = 2 * n_layers / 3) as Hred.
      { unfold cr. case_decide as Hin; rewrite !elem_of_cons, elem_of_nil in Hin;
          simpl; intuition congruence. }
      assert (cr.1 = if cr.2 then 2 * ls_C_cur st else ls_C_cur st) as Hwidth.
      { unfold cr. case_decide; simpl; lia. }
      destruct cr as [C_cur reduction]. cbn [fst snd] in Hred, Hwidth.
      destruct (DartsCell_init _ _ _ _ _ _ _) as [cell|e] eqn:Hcell; [|done].
      injection Hstep as <-.
      apply DartsCell_init_head in Hcell as (Hr & Hn & Hw & Hp1 & Hp0).
      unfold P. cbn [ls_cells ls_C_cur ls_C_p ls_C_pp ls_reduction_p].
      split; [rewrite length_app; simpl; lia|]. split.
      { simpl. rewrite lookup_app_r by lia. rewrite Hlen, Nat.sub_diag. simpl.
        by rewrite Hw. }
      split.
      { simpl. rewrite lookup_app_r by lia. rewrite Hlen, Nat.sub_diag. simpl.
        by rewrite Hw. }
      split.
      { replace (S i - 1) with i by lia. rewrite out_width_app by lia. done. }
      split.
      { simpl. rewrite lookup_app_r by lia. rewrite Hlen, Nat.sub_diag. simpl.
        by rewrite Hr. }
      intros j c Hj. destruct (decide (j < i)) as [Hlt|Hge].
      + rewrite lookup_app_l in Hj by lia.
        destruct (Hcells j c Hj) as (H0 & [H1 H2] & [H3 H4]).
        split; [done|]. split; split; try done.
        * by rewrite prev_width_app by lia.
        * by rewrite out_width_app by lia.
        * rewrite prev_reduction_app, out_width_app by lia. done.
      + rewrite lookup_app_r in Hj by lia.
        assert (j = i) as -> by (apply lookup_lt_Some in Hj; simpl in Hj; lia).
        rewrite Hlen, Nat.sub_diag in Hj. injection Hj as <-.
        split; [done|]. split; split.
        * by rewrite Hr.
        * rewrite prev_width_app by lia. by rewrite Hw, Hr, Hwidth, <- Hcur.
        * rewrite out_width_app by lia. by rewrite Hp1, Hw, Hp.
        * rewrite prev_reduction_app, out_width_app by lia.
          by rewrite Hp0, Hw, Hrp, Hpp.
    - unfold P. simpl. repeat split; try done. }
  split; [done|]. split; [by rewrite Hp|]. exact Hcells.
Qed.

Lemma DartsCell_init_shape n_nodes C_pp C_p C reduction_p reduction basic_op_list cell :
  DartsCell_init n_nodes C_pp C_p C reduction_p reduction basic_op_list = Ok cell →
  Forall2 (λ i edges, length edges = 2 + i) (seq 0 n_nodes) (dag cell).
Proof.
  unfold DartsCell_init. intros H.
  set (inner := λ i : nat,
         for_each (seq 0 (2 + i))
           (λ edges j,
              op ← MixedOp_init C C
                     (if reduction && bool_decide (j < 2) then 2 else 1) basic_op_list;
              Ok (edges ++ [op])) []) in H.
  destruct (for_each (seq 0 n_nodes) _ []) as [d|e] eqn:Hd; [|done].
  injection H as <-. cbn [dag].
  destruct (for_each_collect_inv inner _ _ _ Hd) as (bs & -> & Hall).
  cbn [app]. eapply Forall2_impl; [exact Hall|].
  intros i edges Hinner. unfold inner in Hinner.
  destruct (for_each_collect_inv
              (λ j, MixedOp_init C C
                      (if reduction && bool_decide (j < 2) then 2 else 1) basic_op_list)
              _ _ _ Hinner) as (es & -> & Hall').
  apply Forall2_length in Hall'. by rewrite length_seq in Hall'.
Qed.

(** C10: for every node count [N], a cell that [DartsCell.__init__] has
    built has [N] nodes in its DAG and node [i] has exactly [2+i] incoming
    edges, so the cell has [Σ_{i<N} (2+i)] edges in all, and the
    [num_edges] field of a network built with the same node count is that
    sum. *)
Theorem DartsCell_edge_count
    (n_nodes C_pp C_p C : nat) (reduction_p reduction : bool)
    (basic_op_list : list string) (n_classes n_layers : nat)
    (cell : DartsCell) (net : DartsCNN) :
  DartsCell_init n_nodes C_pp C_p C reduction_p reduction basic_op_list = Ok cell →
  DartsCNN_init C n_classes n_layers n_nodes basic_op_list = Ok net →
  length (dag cell) = n_nodes
  ∧ (∀ i, i < n_nodes → ∃ edges, dag cell !! i = Some edges ∧ length edges = 2 + i)
  ∧ length (concat (dag cell)) = sum_list ((λ i, 2 + i) <$> seq 0 n_nodes)
  ∧ num_edges net = sum_list ((λ i, 2 + i) <$> seq 0 n_nodes).
Proof.
  intros Hcell Hnet.
  pose proof (DartsCell_init_shape _ _ _ _ _ _ _ _ Hcell) as Hdag.
  destruct (DartsCNN_init_fields _ _ _ _ _ _ Hnet) as (_ & _ & _ & Hedges & _).
  destruct (Forall2_seq_lookup _ _ _ Hdag) as [Hlen Hlookup].
  repeat split; try done.
  - rewrite <- Hlen in Hdag |- *. by apply length_concat_edges.
  - by rewrite Hedges, sum_edges_offset.
Qed.

(** The theorem at [N = 4] with the default vocabulary: 14 edges. *)
Lemma DartsCell_edge_count_witness :
  ∃ cell net,
    DartsCell_init 4 48 48 16 false false DEFAULT_OP = Ok cell
    ∧ DartsCNN_init 16 10 8 4 DEFAULT_OP = Ok net
    ∧ length (dag cell) = 4
    ∧ (∀ i, i < 4 → ∃ edges, dag cell !! i = Some edges ∧ length edges = 2 + i)
    ∧ length (concat (dag cell)) = sum_list ((λ i, 2 + i) <$> seq 0 4)
    ∧ num_edges net = sum_list ((λ i, 2 + i) <$> seq 0 4).
Proof.
  eexists _, _. split; [vm_compute; reflexivity|]. split; [vm_compute; reflexivity|].
  apply (DartsCell_edge_count 4 48 48 16 false false DEFAULT_OP 10 8);
    vm_compute; reflexivity.
Defined.

(** C6: for every layer count [L], a network that [DartsCNN.__init__] has
    built has [L] cells; cell [i] is a reduction cell exactly when
    [i = L // 3] or [i = 2 * L // 3], and the width a cell is built with
    is twice the width of the cell before it (the base width [C] for the
    first cell) at those indices and equal to it everywhere else. *)
Theorem DartsCNN_reduction_positions
    (C n_classes L n_nodes : nat) (basic_op_list : list string) (net : DartsCNN) :
  DartsCNN_init C n_classes L n_nodes basic_op_list = Ok net →
  length (cells net) = L
  ∧ ∀ i cell, cells net !! i = Some cell →
      (cell_reduction cell = true ↔ i = L / 3 ∨ i = 2 * L / 3)
      ∧ cell_width cell
        = (if cell_reduction cell
           then 2 * prev_width C (cells net) i
           else prev_width C (cells net) i).
Proof.
  intros Hnet.
  destruct (DartsCNN_init_layers _ _ _ _ _ _ Hnet) as (Hlen & _ & Hcells).
  split; [done|]. intros i cell Hi.
  by destruct (Hcells i cell Hi) as (_ & Hlayer & _).
Qed.

(** The theorem at [C = 16], [N = 4], [L = 8]. *)
Lemma DartsCNN_reduction_positions_witness :
  ∃ net,
    DartsCNN_init 16 10 8 4 DEFAULT_OP = Ok net
    ∧ length (cells net) = 8
    ∧ ∀ i cell, cells net !! i = Some cell →
        (cell_reduction cell = true ↔ i = 8 / 3 ∨ i = 2 * 8 / 3)
        ∧ cell_width cell
          = (if cell_reduction cell
             then 2 * prev_width 16 (cells net) i
             else prev_width 16 (cells net) i).
Proof.
  eexists. split; [vm_compute; reflexivity|].
  apply (DartsCNN_reduction_positions 16 10 8 4 DEFAULT_OP).
  vm_compute. reflexivity.
Defined.

(** In a constructed network the cells fit together: the second input
    transform of cell [i] reads as many channels as cell [i-1] puts out
    (its width times the number of nodes; the stem's [3 * C] for the
    first cell), the first input transform reads the output of cell [i-2]
    and is a [FactorizedReduce] exactly when cell [i-1] is a reduction
    cell, and the classifier reads the output of the last cell. *)
Theorem DartsCNN_channels_fit
    (C n_classes n_layers n_nodes : nat) (basic_op_list : list string) (net : DartsCNN) :
  DartsCNN_init C n_classes n_layers n_nodes basic_op_list = Ok net →
  (∀ i cell, cells net !! i = Some cell →
     preproc1 cell
     = StdConv (out_width C n_nodes (cells net) i) (cell_width cell) 1 1 0 false
     ∧ preproc0 cell
       = (if prev_reduction (cells net) i
          then FactorizedReduce (out_width C n_nodes (cells net) (i - 1))
                 (cell_width cell) false
          else StdConv (out_width C n_nodes (cells net) (i - 1))
                 (cell_width cell) 1 1 0 false))
  ∧ linear net = Linear (out_width C n_nodes (cells net) n_layers) n_classes.
Proof.
  intros Hnet. destruct (DartsCNN_init_layers _ _ _ _ _ _ Hnet) as (_ & Hlin & Hcells).
  split; [|done]. intros i cell Hi. by destruct (Hcells i cell Hi) as (_ & _ & Hin).
Qed.

Lemma DartsCNN_channels_fit_witness :
  ∃ net,
    DartsCNN_init 16 10 8 4 [] = Ok net
    ∧ (∀ i cell, cells net !! i = Some cell →
         preproc1 cell
         = StdConv (out_width 16 4 (cells net) i) (cell_width cell) 1 1 0 false
         ∧ preproc0 cell
           = (if prev_reduction (cells net) i
              then FactorizedReduce (out_width 16 4 (cells net) (i - 1))
                     (cell_width cell) false
              else StdConv (out_width 16 4 (cells net) (i - 1))
                     (cell_width cell) 1 1 0 false))
    ∧ linear net = Linear (out_width 16 4 (cells net) 8) 10.
Proof.
  eexists. split; [vm_compute; reflexivity|].
  apply (DartsCNN_channels_fit 16 10 8 4 []). vm_compute. reflexivity.
Defined.

Lemma thirds_of (L : nat) :
  2 ≤ L → L / 3 < 2 * L / 3 ∧ 2 * L / 3 < L.
Proof.
  intros HL.
  pose proof (Nat.div_mod_eq L 3). pose proof (Nat.mod_upper_bound L 3).
  pose proof (Nat.div_mod_eq (2 * L) 3). pose proof (Nat.mod_upper_bound (2 * L) 3).
  lia.
Qed.

(** With at least two layers the widths of the cells are [C] before the
    first reduction cell, [2 * C] from it to the second, and [4 * C] from
    the second on; the classifier reads [4 * C * n_nodes] channels. *)
Theorem DartsCNN_widths
    (C n_classes n_layers n_nodes : nat) (basic_op_list : list string) (net : DartsCNN) :
  2 ≤ n_layers →
  DartsCNN_init C n_classes n_layers n_nodes basic_op_list = Ok net →
  (∀ i cell, cells net !! i = Some cell →
     cell_width cell
     = (if decide (i < n_layers / 3) then C
        else if decide (i < 2 * n_layers / 3) then 2 * C
        else 4 * C))
  ∧ linear net = Linear (4 * C * n_nodes) n_classes.
Proof.
  intros HL Hnet.
  destruct (DartsCNN_init_layers _ _ _ _ _ _ Hnet) as (Hlen & Hlin & Hcells).
  destruct (thirds_of n_layers HL) as [Hab Hb].
  set (a := n_layers / 3) in *. set (b := 2 * n_layers / 3) in *.
  assert (∀ i cell, cells net !! i = Some cell →
            cell_width cell
            = (if decide (i < a) then C else if decide (i < b) then 2 * C else 4 * C))
    as Hwidth.
  { induction i as [|i IH]; intros cell Hi.
    - destruct (Hcells 0 cell Hi) as (_ & [Hred Hw] & _). simpl in Hw.
      rewrite Hw. destruct (cell_reduction cell).
      + destruct Hred as [Hred _]. specialize (Hred eq_refl).
        repeat case_decide; lia.
      + assert (¬ (0 = a ∨ 0 = b)) as Hno by (intros Hx; apply Hred in Hx; done).
        repeat case_decide; lia.
    - destruct (Hcells (S i) cell Hi) as (_ & [Hred Hw] & _).
      destruct (lookup_lt_is_Some_2 (cells net) i) as [prev Hprev].
      { apply lookup_lt_Some in Hi. lia. }
      simpl in Hw. rewrite Hprev in Hw. simpl in Hw.
      rewrite (IH prev Hprev) in Hw. rewrite Hw.
      destruct (cell_reduction cell).
      + destruct Hred as [Hred _]. specialize (Hred eq_refl).
        repeat case_decide; lia.
      + assert (¬ (S i = a ∨ S i = b)) as Hno by (intros Hx; apply Hred in Hx; done).
        repeat case_decide; lia. }
  split; [done|]. rewrite Hlin.
  destruct n_layers as [|L]; [lia|]. simpl.
  destruct (lookup_lt_is_Some_2 (cells net) L) as [last Hlast]; [lia|].
  rewrite Hlast. simpl. rewrite (Hwidth L last Hlast).
  repeat case_decide; f_equal; lia.
Qed.

Lemma DartsCNN_widths_witness :
  ∃ net,
    DartsCNN_init 16 10 8 4 [] = Ok net
    ∧ (∀ i cell, cells net !! i = Some cell →
         cell_width cell
         = (if decide (i < 8 / 3) then 16
            else if decide (i < 2 * 8 / 3) then 2 * 16
            else 4 * 16))
    ∧ linear net = Linear (4 * 16 * 4) 10.
Proof.
  eexists. split; [vm_compute; reflexivity|].
  apply (DartsCNN_widths 16 10 8 4 []); [lia|vm_compute; reflexivity].
Defined.

(** ** What the three evaluations of an edge compute *)

Section MixedOpSpecFacts.
Context {T OpState : Type} `{!TensorOps T OpState}.
Implicit Types (self : MixedOp) (x : T) (st : list OpState).

Lemma call_module_middle (op : module) x (done todo : list OpState) (s : OpState) :
  call_module (length done) op x (done ++ s :: todo)
  = (Ok (run op s x).1, (done ++ [(run op s x).2]) ++ todo).
Proof.
  unfold call_module. rewrite lookup_app_r, Nat.sub_diag by lia. simpl.
  destruct (run op s x) as [y s']. simpl.
  rewrite insert_app_r_alt, Nat.sub_diag by lia. simpl. by rewrite <- app_assoc.
Qed.

Lemma forwardDART_loop_spec x : ∀ (ws : list Q) (ops' : list module)
    (done todo : list OpState) acc,
  length ws = length ops' → length ops' = length todo →
  for_eachM (zip ws (enumerate_from (length done) ops')) (forwardDART_step x) acc
    (done ++ todo)
  = (Ok (foldl py_add acc (zip_with smul ws (dense_outputs x ops' todo))),
     done ++ dense_state x ops' todo).
Proof.
  induction ws as [|w ws IH]; intros ops' done todo acc Hws Hops.
  - destruct ops'; [|done]. by destruct todo.
  - destruct ops' as [|op ops']; [done|]. destruct todo as [|s todo]; [done|].
    cbn [enumerate_from zip zip_with for_eachM]. rewrite M_bind_unfold.
    unfold forwardDART_step at 1. rewrite M_bind_unfold, call_module_middle.
    cbn [mret M_ret].
    replace (S (length done)) with (length (done ++ [(run op s x).2]))
      by (rewrite length_app; simpl; lia).
    rewrite IH by (simpl in *; lia).
    unfold dense_outputs, dense_state. cbn [zip_with foldl]. by rewrite <- app_assoc.
Qed.

Lemma evaluated_one (w : Q) :
  Qeq_bool w 1 = true → Qlt_bool 0 w && Qlt_bool w 1 = false.
Proof. intros H. apply Qeq_bool_iff in H. by apply weight_one. Qed.

Lemma forward_loop_spec self x : ∀ (ws : list Q) (ops' : list module)
    (done todo : list OpState) _x,
  (∀ j, ops' !! j = _ops self !! (length done + j)) →
  length ws = length ops' → length ops' = length todo →
  for_eachM (enumerate_from (length done) ws) (forward_step self x) _x (done ++ todo)
  = (Ok (_x ++ relaxed_terms x ws ops' todo), done ++ relaxed_state x ws ops' todo).
Proof.
  induction ws as [|w ws IH]; intros ops' done todo _x Hself Hws Hops.
  - destruct ops'; [|done]. destruct todo; [|done].
    cbn. by rewrite !app_nil_r.
  - destruct ops' as [|op ops']; [done|]. destruct todo as [|s todo]; [done|].
    assert (_ops self !! length done = Some op) as Hop.
    { specialize (Hself 0). rewrite Nat.add_0_r in Hself. by rewrite <- Hself. }
    assert (∀ j, ops' !! j = _ops self !! (length (done ++ [(run op s x).2]) + j))
      as Hself'.
    { intros j. specialize (Hself (S j)). simpl in Hself. rewrite Hself.
      f_equal. rewrite length_app. simpl. lia. }
    assert (∀ j, ops' !! j = _ops self !! (S (length done) + j)) as Hself''.
    { intros j. specialize (Hself (S j)). simpl in Hself. rewrite Hself. f_equal. lia. }
    cbn [enumerate_from for_eachM]. rewrite M_bind_unfold.
    unfold forward_step at 1. rewrite M_bind_unfold.
    unfold relaxed_terms, relaxed_state, evaluated.
    cbn [zip zip_with omap fst snd].
    destruct (Qeq_bool w 1) eqn:E1.
    + rewrite (evaluated_one w E1).
      rewrite M_bind_unfold. unfold call_op. rewrite Hop, call_module_middle.
      cbn [mret M_ret orb option_fmap id].
      replace (S (length done)) with (length (done ++ [(run op s x).2]))
        by (rewrite length_app; simpl; lia).
      rewrite (IH ops' _ todo) by (done || simpl in *; lia).
      unfold relaxed_terms, relaxed_state, evaluated. simpl.
      by rewrite <- !app_assoc.
    + cbn [mret M_ret orb]. destruct (Qlt_bool 0 w && Qlt_bool w 1) eqn:E2.
      * rewrite M_bind_unfold. unfold call_op. rewrite Hop, call_module_middle.
        cbn [mret M_ret].
        replace (S (length done)) with (length (done ++ [(run op s x).2]))
          by (rewrite length_app; simpl; lia).
        rewrite (IH ops' _ todo) by (done || simpl in *; lia).
        unfold relaxed_terms, relaxed_state, evaluated. simpl.
        by rewrite <- !app_assoc.
      * replace (done ++ s :: todo) with ((done ++ [s]) ++ todo)
          by (by rewrite <- app_assoc).
        replace (S (length done)) with (length (done ++ [s]))
          by (rewrite length_app; simpl; lia).
        cbn [mret M_ret].
        rewrite (IH ops' _ todo).
        -- unfold relaxed_terms, relaxed_state, evaluated. simpl.
           by rewrite <- !app_assoc.
        -- intros j. rewrite Hself''. f_equal. rewrite length_app. simpl. lia.
        -- simpl in *; lia.
        -- simpl in *; lia.
Qed.
End MixedOpSpecFacts.

Section MixedOpSpecClaims.
Context {T OpState : Type} `{!TensorOps T OpState}.
Implicit Types (self : MixedOp) (x : T) (st : list OpState).

(** [forwardDART] is dense: whatever the weights, also 0, it calls every
    primitive of the edge exactly once, in order, and returns the sum of
    all the scaled outputs. *)
Theorem forwardDART_dense self x (weights : list Q) st :
  length weights = length (_ops self) →
  length st = length (_ops self) →
  MixedOp_forwardDART self x weights st
  = (Ok (foldl py_add (PInt 0) (zip_with smul weights (dense_outputs x (_ops self) st))),
     dense_state x (_ops self) st)
  ∧ ∀ i op s, _ops self !! i = Some op → st !! i = Some s →
      dense_state x (_ops self) st !! i = Some (run op s x).2.
Proof.
  intros Hw Hst. split.
  - unfold MixedOp_forwardDART. rewrite decide_True by done. unfold enumerate.
    apply (forwardDART_loop_spec x weights (_ops self) [] st (PInt 0)); lia.
  - intros i op s Hop Hs. unfold dense_state. rewrite lookup_zip_with, Hop. simpl.
    by rewrite Hs.
Qed.

Lemma forward_relaxed_eq self x (weights : list Q) st :
  length weights = length (_ops self) →
  length st = length (_ops self) →
  MixedOp_forward self x weights st
  = (Ok (py_sum (relaxed_terms x weights (_ops self) st)),
     relaxed_state x weights (_ops self) st).
Proof.
  intros Hw Hst. unfold MixedOp_forward. rewrite decide_True by done. unfold enumerate.
  rewrite M_bind_unfold.
  by rewrite (forward_loop_spec self x weights (_ops self) [] st []) by (done || lia).
Qed.

(** [forward] calls exactly the primitives whose weight is 1 or lies
    strictly between 0 and 1, each once and in order, and returns the sum
    of their outputs, scaled unless the weight is 1; every other primitive
    keeps its statistics. *)
Theorem forward_relaxed_spec self x (weights : list Q) st :
  length weights = length (_ops self) →
  length st = length (_ops self) →
  MixedOp_forward self x weights st
  = (Ok (py_sum (relaxed_terms x weights (_ops self) st)),
     relaxed_state x weights (_ops self) st)
  ∧ ∀ i w op s, weights !! i = Some w → _ops self !! i = Some op → st !! i = Some s →
      relaxed_state x weights (_ops self) st !! i
      = Some (if evaluated w then (run op s x).2 else s).
Proof.
  intros Hw Hst. split.
  - unfold MixedOp_forward. rewrite decide_True by done. unfold enumerate.
    rewrite M_bind_unfold.
    by rewrite (forward_loop_spec self x weights (_ops self) [] st []) by (done || lia).
  - intros i w op s Hi Hop Hs. unfold relaxed_state.
    rewrite lookup_zip_with, Hi. simpl.
    by rewrite lookup_zip_with, Hop, Hs.
Qed.

Lemma not_evaluated (w : Q) : (w <= 0 ∨ 1 < w)%Q → evaluated w = false.
Proof.
  intros Hw. unfold evaluated, Qlt_bool.
  destruct (Qeq_bool w 1) eqn:E1.
  - apply Qeq_bool_iff in E1. destruct Hw as [Hw|Hw]; rewrite E1 in Hw.
    + by apply Qle_not_lt in Hw.
    + by apply Qlt_irrefl in Hw.
  - simpl. destruct Hw as [Hw|Hw].
    + apply Qle_bool_iff in Hw. by rewrite Hw.
    + apply Qlt_le_weak, Qle_bool_iff in Hw. rewrite Hw. simpl. apply andb_false_r.
Qed.

(** When no weight is 1 or inside (0, 1), be it 0, negative or above 1,
    [forward] calls no primitive and returns the integer 0 that [sum]
    starts from, not a tensor. *)
Theorem forward_nothing_evaluated self x (weights : list Q) st :
  length weights = length (_ops self) →
  length st = length (_ops self) →
  Forall (λ w, w <= 0 ∨ 1 < w)%Q weights →
  MixedOp_forward self x weights st = (Ok (PInt 0), st).
Proof.
  intros Hw Hst Hall.
  rewrite (forward_relaxed_eq self x weights st Hw Hst).
  assert (∀ (ws : list Q) ops (sts : list OpState),
            length ops = length sts → length ws = length ops →
            Forall (λ w, w <= 0 ∨ 1 < w)%Q ws →
            relaxed_terms x ws ops sts = [] ∧ relaxed_state x ws ops sts = sts) as Hgen.
  { clear. induction ws as [|w ws IH]; intros ops sts Hops Hws Hall.
    - destruct ops; [|done]. by destruct sts.
    - destruct ops as [|op ops]; [done|]. destruct sts as [|s sts]; [done|].
      apply Forall_cons in Hall as [Hw Hall].
      pose proof (not_evaluated w Hw) as He.
      destruct (IH ops sts) as [Ht Hs]; [simpl in *; lia..|done|].
      unfold relaxed_terms, relaxed_state in *. cbn [zip zip_with omap fst snd].
      rewrite He. unfold evaluated in He. apply orb_false_iff in He as [-> ->].
      split; [exact Ht|exact (f_equal (cons s) Hs)]. }
  destruct (Hgen weights (_ops self) st) as [-> ->]; [lia|done|done|done].
Qed.

(** The three evaluations check the number of weights before anything
    else: with a weight vector of another length than the edge they raise
    [AssertionError] and no primitive is called. *)
Theorem MixedOp_length_assertion self x (weights : list Q) (index : Z) st :
  length (_ops self) ≠ length weights →
  MixedOp_forward self x weights st = (Raise AssertionError, st)
  ∧ MixedOp_forwardDART self x weights st = (Raise AssertionError, st)
  ∧ MixedOp_forwardGDAS self x weights index st = (Raise AssertionError, st).
Proof.
  intros Hne. unfold MixedOp_forward, MixedOp_forwardDART, MixedOp_forwardGDAS.
  by rewrite !decide_False by done.
Qed.

(** [forwardGDAS] with an index outside [-K, K) raises [IndexError]
    without calling a primitive; an index in [-K, 0) counts from the end. *)
Theorem forwardGDAS_index_range self x (weights : list Q) (index : Z) st :
  length weights = length (_ops self) →
  ((index < - Z.of_nat (length (_ops self)) ∨ Z.of_nat (length (_ops self)) <= index)%Z →
   MixedOp_forwardGDAS self x weights index st = (Raise IndexError, st))
  ∧ ((- Z.of_nat (length (_ops self)) <= index < 0)%Z →
     MixedOp_forwardGDAS self x weights index st
     = MixedOp_forwardGDAS self x weights (Z.of_nat (length (_ops self)) + index) st).
Proof.
  intros Hw. unfold MixedOp_forwardGDAS. rewrite !decide_True by done.
  set (K := length (_ops self)) in *. split.
  - intros Hout. rewrite M_bind_unfold. unfold lift at 1, py_index.
    destruct (Z.leb_spec 0 index).
    + rewrite (proj2 (Z.ltb_ge _ _)) by lia. done.
    + rewrite (proj2 (Z.leb_gt _ _)) by lia. done.
  - intros Hneg.
    assert (∀ n, n = K → py_index n index = py_index n (Z.of_nat K + index)) as Hpy.
    { intros n ->. unfold py_index.
      rewrite (proj2 (Z.leb_gt 0 index)) by lia.
      rewrite (proj2 (Z.leb_le (- Z.of_nat K) index)) by lia.
      rewrite (proj2 (Z.leb_le 0 (Z.of_nat K + index))) by lia.
      by rewrite (proj2 (Z.ltb_lt (Z.of_nat K + index) (Z.of_nat K))) by lia. }
    unfold getitem. rewrite !(Hpy K) by done. by rewrite !(Hpy (length weights)) by done.
Qed.
End MixedOpSpecClaims.

Lemma forwardDART_dense_witness :
  MixedOp_forwardDART three_op_edge SInput [0; 1 # 2; 1 # 2]%Q [0; 0; 0]
  = (Ok (foldl py_add (PInt 0)
           (zip_with smul [0; 1 # 2; 1 # 2]%Q
              (dense_outputs SInput (_ops three_op_edge) [0; 0; 0]))),
     dense_state SInput (_ops three_op_edge) [0; 0; 0])
  ∧ ∀ i op s, _ops three_op_edge !! i = Some op → [0; 0; 0] !! i = Some s →
      dense_state SInput (_ops three_op_edge) [0; 0; 0] !! i
      = Some (run op s SInput).2.
Proof.
  apply (forwardDART_dense three_op_edge SInput [0; 1 # 2; 1 # 2]%Q [0; 0; 0]);
    reflexivity.
Defined.

Lemma forward_relaxed_spec_witness :
  MixedOp_forward three_op_edge SInput [0; 1 # 2; 1]%Q [0; 0; 0]
  = (Ok (py_sum (relaxed_terms SInput [0; 1 # 2; 1]%Q (_ops three_op_edge) [0; 0; 0])),
     relaxed_state SInput [0; 1 # 2; 1]%Q (_ops three_op_edge) [0; 0; 0])
  ∧ ∀ i w op s,
      [0; 1 # 2; 1]%Q !! i = Some w → _ops three_op_edge !! i = Some op →
      [0; 0; 0] !! i = Some s →
      relaxed_state SInput [0; 1 # 2; 1]%Q (_ops three_op_edge) [0; 0; 0] !! i
      = Some (if evaluated w then (run op s SInput).2 else s).
Proof.
  apply (forward_relaxed_spec three_op_edge SInput [0; 1 # 2; 1]%Q [0; 0; 0]);
    reflexivity.
Defined.

(** On the symbolic edge: the weights 0, 1/2, 1 make [forward] call the
    second and the third primitive, [forwardDART] all three. *)
Lemma forward_and_forwardDART_side_effects :
  (MixedOp_forward three_op_edge SInput [0; 1 # 2; 1]%Q [0; 0; 0]).2 = [0; 1; 1]
  ∧ (MixedOp_forwardDART three_op_edge SInput [0; 1 # 2; 1]%Q [0; 0; 0]).2 = [1; 1; 1].
Proof. split; reflexivity. Qed.

Lemma forward_nothing_evaluated_witness :
  MixedOp_forward three_op_edge SInput [0; -1; 2]%Q [0; 0; 0] = (Ok (PInt 0), [0; 0; 0]).
Proof.
  apply (forward_nothing_evaluated three_op_edge SInput [0; -1; 2]%Q [0; 0; 0]).
  - reflexivity.
  - reflexivity.
  - apply Forall_cons; split; [left; discriminate|].
    apply Forall_cons; split; [left; discriminate|].
    apply Forall_cons; split; [right; reflexivity|]. constructor.
Defined.

Lemma MixedOp_length_assertion_witness :
  MixedOp_forward three_op_edge SInput [1 # 2; 1 # 2]%Q [0; 0; 0]
  = (Raise AssertionError, [0; 0; 0])
  ∧ MixedOp_forwardDART three_op_edge SInput [1 # 2; 1 # 2]%Q [0; 0; 0]
    = (Raise AssertionError, [0; 0; 0])
  ∧ MixedOp_forwardGDAS three_op_edge SInput [1 # 2; 1 # 2]%Q 0 [0; 0; 0]
    = (Raise AssertionError, [0; 0; 0]).
Proof.
  apply (MixedOp_length_assertion three_op_edge SInput [1 # 2; 1 # 2]%Q 0 [0; 0; 0]).
  simpl. lia.
Defined.

Lemma forwardGDAS_index_range_witness :
  ((3 < - Z.of_nat (length (_ops three_op_edge))
    ∨ Z.of_nat (length (_ops three_op_edge)) <= 3)%Z →
   MixedOp_forwardGDAS three_op_edge SInput [0; 0; 1]%Q 3 [0; 0; 0]
   = (Raise IndexError, [0; 0; 0]))
  ∧ ((- Z.of_nat (length (_ops three_op_edge)) <= 3 < 0)%Z →
     MixedOp_forwardGDAS three_op_edge SInput [0; 0; 1]%Q 3 [0; 0; 0]
     = MixedOp_forwardGDAS three_op_edge SInput [0; 0; 1]%Q
         (Z.of_nat (length (_ops three_op_edge)) + 3) [0; 0; 0]).
Proof.
  apply (forwardGDAS_index_range three_op_edge SInput [0; 0; 1]%Q 3 [0; 0; 0]).
  reflexivity.
Defined.

(** On the symbolic edge: index 3 is out of range, index -1 selects the
    last primitive. *)
Lemma forwardGDAS_index_examples :
  MixedOp_forwardGDAS three_op_edge SInput [0; 0; 1]%Q 3 [0; 0; 0]
  = (Raise IndexError, [0; 0; 0])
  ∧ MixedOp_forwardGDAS three_op_edge SInput [0; 0; 1]%Q (-1) [0; 0; 0]
    = (Ok (SMulS (SOut (SepConv 16 16 3 1 1 false) 0 SInput) 1), [0; 0; 1]).
Proof. split; reflexivity. Qed.

(** ** The model of [torch.topk] *)

Lemma insert_desc_perm (x : Q * nat) (l : list (Q * nat)) : insert_desc x l ≡ₚ x :: l.
Proof.
  induction l as [|y l IH]; simpl; [done|].
  destruct (Qle_bool y.1 x.1); [done|]. rewrite IH. apply Permutation_swap.
Qed.

Lemma sort_desc_perm (l : list (Q * nat)) : sort_desc l ≡ₚ l.
Proof.
  induction l as [|x l IH]; simpl; [done|]. by rewrite insert_desc_perm, IH.
Qed.

Lemma insert_desc_sorted (x : Q * nat) (l : list (Q * nat)) :
  StronglySorted (λ a b, b.1 <= a.1)%Q l →
  StronglySorted (λ a b, b.1 <= a.1)%Q (insert_desc x l).
Proof.
  induction 1 as [|y l Hsorted IH Hall]; simpl.
  - repeat constructor.
  - destruct (Qle_bool y.1 x.1) eqn:E.
    + apply Qle_bool_iff in E. constructor; [by constructor|].
      constructor; [done|]. eapply Forall_impl; [exact Hall|].
      intros z Hz. simpl in Hz. by eapply Qle_trans.
    + assert (x.1 <= y.1)%Q as Hxy.
      { destruct (Qlt_le_dec x.1 y.1) as [Hlt|Hle]; [by apply Qlt_le_weak|].
        apply Qle_bool_iff in Hle. congruence. }
      constructor; [done|]. rewrite insert_desc_perm. by constructor.
Qed.

Lemma sort_desc_sorted (l : list (Q * nat)) :
  StronglySorted (λ a b, b.1 <= a.1)%Q (sort_desc l).
Proof.
  induction l as [|x l IH]; simpl; [constructor|]. by apply insert_desc_sorted.
Qed.

Lemma enumerate_from_fst {A} (xs : list A) : ∀ k,
  fst <$> enumerate_from k xs = seq k (length xs).
Proof. induction xs as [|x xs IH]; intros k; simpl; [done|]. by rewrite IH. Qed.

Lemma enumerate_from_lookup {A} (xs : list A) : ∀ k i,
  enumerate_from k xs !! i = (λ x, (k + i, x)) <$> xs !! i.
Proof.
  induction xs as [|x xs IH]; intros k i; [done|].
  destruct i as [|i]; simpl; [by rewrite Nat.add_0_r|].
  rewrite IH. by replace (S k + i) with (k + S i) by lia.
Qed.

(** What [topk] returns: [k] entries with distinct positions, each the
    value at its position, largest first, and no value left out is larger
    than a value taken. *)
Lemma topk_spec (values : list Q) (k : nat) (l : list (Q * nat)) :
  topk values k = Ok l →
  length l = k
  ∧ NoDup (snd <$> l)
  ∧ (∀ v i, (v, i) ∈ l → values !! i = Some v)
  ∧ StronglySorted (λ a b, b.1 <= a.1)%Q l
  ∧ (∀ v i v' i', (v, i) ∈ l → values !! i' = Some v' → (v', i') ∉ l → (v' <= v)%Q).
Proof.
  unfold topk. case_decide as Hk; [|done]. intros [= <-].
  set (ixs := (λ '(i, v), (v, i)) <$> enumerate values).
  assert (snd <$> ixs = seq 0 (length values)) as Hsnd.
  { unfold ixs, enumerate. rewrite <- list_fmap_compose, <- enumerate_from_fst.
    apply list_fmap_ext. by intros ? [??] _. }
  assert (∀ v i, (v, i) ∈ ixs ↔ values !! i = Some v) as Hin.
  { intros v i. unfold ixs, enumerate. rewrite list_elem_of_fmap. split.
    - intros ([j w] & [= -> ->] & Hj).
      apply elem_of_enumerate_from in Hj as [_ Hj]. by rewrite Nat.sub_0_r in Hj.
    - intros Hv. exists (i, v). split; [done|].
      apply elem_of_enumerate_from. rewrite Nat.sub_0_r. split; [lia|done]. }
  pose proof (sort_desc_perm ixs) as Hperm.
  pose proof (sort_desc_sorted ixs) as Hsorted.
  assert (length (sort_desc ixs) = length values) as Hlen.
  { rewrite Hperm. unfold ixs, enumerate.
    rewrite length_fmap, <- (length_fmap fst), enumerate_from_fst. apply length_seq. }
  assert (NoDup (snd <$> sort_desc ixs)) as Hnodup.
  { rewrite Hperm, Hsnd. apply NoDup_seq. }
  rewrite <- (take_drop k (sort_desc ixs)) in Hsorted, Hnodup.
  rewrite fmap_app in Hnodup. apply NoDup_app in Hnodup as (Hnd & Hdisj & _).
  repeat split.
  - rewrite length_take. lia.
  - done.
  - intros v i Hvi. apply Hin. rewrite <- Hperm, <- (take_drop k (sort_desc ixs)).
    apply elem_of_app. by left.
  - by apply StronglySorted_app_1_l in Hsorted.
  - intros v i v' i' Hvi Hv' Hnot.
    assert ((v', i') ∈ drop k (sort_desc ixs)) as Hdrop.
    { apply Hin in Hv'. rewrite <- Hperm, <- (take_drop k (sort_desc ixs)) in Hv'.
      apply elem_of_app in Hv' as [Hv'|Hv']; done. }
    exact (StronglySorted_app_1_elem_of _ _ _ (v, i) (v', i') Hsorted Hvi Hdrop).
Qed.

Lemma topk_raises (values : list Q) (k : nat) :
  length values < k → topk values k = Raise RuntimeError.
Proof. intros Hk. unfold topk. apply decide_False. lia. Qed.

Lemma topk_returns (values : list Q) (k : nat) :
  k ≤ length values → ∃ l, topk values k = Ok l.
Proof. intros Hk. unfold topk. rewrite decide_True by done. eauto. Qed.

(** ** [parse_from_numpy] *)

Lemma py_index_nat (n i : nat) : i < n → py_index n (Z.of_nat i) = Ok i.
Proof.
  intros Hi. unfold py_index.
  rewrite (proj2 (Z.leb_le _ _)) by lia. rewrite (proj2 (Z.ltb_lt _ _)) by lia.
  by rewrite Nat2Z.id.
Qed.

Lemma py_index_nat_out (n i : nat) : n ≤ i → py_index n (Z.of_nat i) = Raise IndexError.
Proof.
  intros Hi. unfold py_index.
  rewrite (proj2 (Z.leb_le _ _)) by lia. by rewrite (proj2 (Z.ltb_ge _ _)) by lia.
Qed.

Lemma getitem_nat {A} (l : list A) (i : nat) :
  getitem l (Z.of_nat i)
  = match l !! i with
    | Some x => Ok x
    | None => Raise IndexError
    end.
Proof.
  unfold getitem. destruct (l !! i) as [x|] eqn:Hi.
  - rewrite py_index_nat by (by eapply lookup_lt_Some). cbn. by rewrite Hi.
  - rewrite py_index_nat_out; [done|]. by apply lookup_ge_None.
Qed.

Lemma getitem_last {A} (l : list A) :
  getitem l (-1)
  = match last l with
    | Some x => Ok x
    | None => Raise IndexError
    end.
Proof.
  unfold getitem, py_index. rewrite last_lookup.
  destruct l as [|x l]; [done|].
  change (0 <=? -1)%Z with false. cbn [negb].
  rewrite (proj2 (Z.leb_le _ _)) by (simpl; lia). cbn.
  replace (Z.to_nat (Z.of_nat (S (length l)) + -1)) with (length l) by lia.
  done.
Qed.

Lemma for_each_ext {A S} (body body' : S → A → res S) (xs : list A) : ∀ acc,
  (∀ acc x, body acc x = body' acc x) →
  for_each xs body acc = for_each xs body' acc.
Proof.
  induction xs as [|x xs IH]; intros acc Hext; [done|].
  cbn [for_each]. rewrite Hext. destruct (body' acc x); [by apply IH|done].
Qed.

(** The best entry of a row without its last column. *)
Lemma row_top1_spec (row : list Q) (v : Q) (p : nat) :
  row_top1 row = Ok (v, p) →
  p < length row - 1
  ∧ row !! p = Some v
  ∧ ∀ q v', q < length row - 1 → row !! q = Some v' → (v' <= v)%Q.
Proof.
  unfold row_top1. destruct (topk (drop_last row) 1) as [l|e] eqn:Htop; [|done].
  cbn. destruct l as [|t [|t' l]]; try done. intros [= ->].
  destruct (topk_spec _ _ _ Htop) as (_ & _ & Hval & _ & Hbest).
  assert (drop_last row !! p = Some v) as Hp by (apply Hval; by left).
  unfold drop_last in Hp. apply lookup_take_Some in Hp as [Hp Hlt].
  repeat split; [done..|].
  intros q v' Hq Hv'.
  assert (drop_last row !! q = Some v') as Hq'.
  { unfold drop_last. by rewrite lookup_take_lt. }
  destruct (decide (q = p)) as [->|Hne].
  - rewrite Hp in Hv'. injection Hv' as <-. apply Qle_refl.
  - apply (Hbest v p v' q); [by left|done|].
    intros Hin%list_elem_of_singleton. congruence.
Qed.

Lemma row_top1_returns (row : list Q) :
  1 < length row → ∃ t, row_top1 row = Ok t.
Proof.
  intros Hlen. unfold row_top1.
  destruct (topk_returns (drop_last row) 1) as [l Hl].
  { unfold drop_last. rewrite length_take. lia. }
  rewrite Hl. cbn.
  destruct (topk_spec _ _ _ Hl) as (Hlen1 & _).
  destruct l as [|t [|t' l]]; try done. by exists t.
Qed.

Lemma parse_node_inv (k : nat) (basic_op_list : list string) (edges : list (list Q))
    (node : list (string * Z)) :
  parse_node k basic_op_list edges = Ok node →
  ∃ tops sel,
    Forall2 (λ row t, row_top1 row = Ok t) edges tops
    ∧ topk (fst <$> tops) k = Ok sel
    ∧ Forall2 (λ s pe, ∃ t, tops !! s.2 = Some t
                            ∧ basic_op_list !! t.2 = Some pe.1
                            ∧ pe.2 = Z.of_nat s.2) sel node.
Proof.
  unfold parse_node. intros H.
  destruct (for_each edges _ []) as [tops|e] eqn:Htops; [|done]. cbn in H.
  destruct (topk (fst <$> tops) k) as [sel|e] eqn:Hsel; [|done]. cbn in H.
  exists tops, sel.
  destruct (for_each_collect_inv row_top1 _ _ _ Htops) as (bs & Hbs & Hall).
  simpl in Hbs. subst bs.
  split; [done|]. split; [done|].
  rewrite (for_each_ext _
             (λ node_gene s,
                b ← (prim_idx ← match tops !! s.2 with
                                | Some t => Ok t.2
                                | None => Raise IndexError
                                end;
                     prim ← getitem basic_op_list (Z.of_nat prim_idx);
                     Ok (prim, Z.of_nat s.2));
                Ok (node_gene ++ [b]))) in H.
  2:{ intros acc [v e]. simpl. destruct (tops !! e) as [[v' p]|]; [|done].
      cbn. by destruct (getitem basic_op_list (Z.of_nat p)). }
  destruct (for_each_collect_inv _ _ _ _ H) as (node' & -> & Hnode).
  simpl. eapply Forall2_impl; [exact Hnode|].
  intros [v e] [prim z] Hpe. simpl in Hpe.
  destruct (tops !! e) as [t|] eqn:Ht; [|done]. cbn in Hpe.
  rewrite getitem_nat in Hpe. destruct (basic_op_list !! t.2) as [name|] eqn:Hname; [|done].
  cbn in Hpe. injection Hpe as <- <-. exists t. simpl. by rewrite Ht.
Qed.

Lemma parse_from_numpy_inv (alpha : list (list (list Q))) (k : nat)
    (basic_op_list : list string) (g : gene) :
  parse_from_numpy alpha k basic_op_list = Ok g →
  last basic_op_list = Some "none"
  ∧ Forall2 (λ edges node, parse_node k basic_op_list edges = Ok node) alpha g.
Proof.
  unfold parse_from_numpy. rewrite getitem_last.
  destruct (last basic_op_list) as [name|]; [|done]. cbn.
  case_decide as Hname; [|done]. subst name. intros H.
  destruct (for_each_collect_inv (parse_node k basic_op_list) _ _ _ H)
    as (bs & -> & Hall). done.
Qed.

(** Discretization needs a vocabulary that ends in "none": on an empty
    vocabulary it raises [IndexError], on any other vocabulary whose last
    entry is not "none" it raises [AssertionError], whatever the weights. *)
Theorem parse_from_numpy_needs_none (alpha : list (list (list Q))) (k : nat)
    (basic_op_list : list string) :
  last basic_op_list ≠ Some "none" →
  parse_from_numpy alpha k basic_op_list
  = Raise (if decide (basic_op_list = []) then IndexError else AssertionError).
Proof.
  intros Hlast. unfold parse_from_numpy. rewrite getitem_last.
  destruct (last basic_op_list) as [name|] eqn:Hl.
  - cbn. rewrite decide_False by congruence.
    rewrite decide_False; [done|]. by intros ->.
  - apply last_None in Hl as ->. done.
Qed.

Lemma parse_from_numpy_needs_none_witness :
  parse_from_numpy [] 2 GDAS_OP
  = Raise (if decide (GDAS_OP = []) then IndexError else AssertionError).
Proof. apply (parse_from_numpy_needs_none [] 2 GDAS_OP). discriminate. Defined.

(** What discretization returns: one node per weight group, [k] pairs per
    node on [k] different edges of the group; the operation of a pair is
    the vocabulary entry of the column that holds the largest weight of
    the edge's row, the last column left aside; and no edge left out has a
    larger best weight than an edge taken. *)
Theorem parse_from_numpy_selects_best (alpha : list (list (list Q))) (k : nat)
    (basic_op_list : list string) (g : gene) :
  parse_from_numpy alpha k basic_op_list = Ok g →
  length g = length alpha
  ∧ ∀ i node edges, g !! i = Some node → alpha !! i = Some edges →
      length node = k
      ∧ NoDup node.*2
      ∧ ∀ prim e, (prim, e) ∈ node →
          ∃ (en : nat) row p v,
            e = Z.of_nat en
            ∧ edges !! en = Some row
            ∧ best_entry row p v
            ∧ basic_op_list !! p = Some prim
            ∧ ∀ en' row' p' v',
                edges !! en' = Some row' → Z.of_nat en' ∉ node.*2 →
                best_entry row' p' v' → (v' <= v)%Q.
Proof.
  intros Hparse. apply parse_from_numpy_inv in Hparse as [_ Hall].
  split; [symmetry; by eapply Forall2_length|].
  intros i node edges Hnode Hedges.
  pose proof (Forall2_lookup_lr _ _ _ _ _ _ Hall Hedges Hnode) as Hpn.
  apply parse_node_inv in Hpn as (tops & sel & Htops & Hsel & Hsn).
  destruct (topk_spec _ _ _ Hsel) as (Hlen & Hnodup & Hval & _ & Hbest).
  assert (node.*2 = Z.of_nat <$> sel.*2) as Hidx.
  { clear -Hsn. induction Hsn as [|s pe sel node (t & _ & _ & Hz) _ IH]; [done|].
    rewrite !fmap_cons. by f_equal. }
  split; [rewrite <- Hlen; symmetry; by eapply Forall2_length|].
  split; [rewrite Hidx; apply NoDup_fmap_2; [apply _|done]|].
  intros prim e Hin. apply list_elem_of_lookup in Hin as [n Hn].
  destruct (Forall2_lookup_r _ _ _ _ _ Hsn Hn) as ([v en] & Hs & t & Ht & Hname & He).
  simpl in *. apply list_elem_of_lookup_2 in Hs.
  pose proof (Hval v en Hs) as Hv. rewrite list_lookup_fmap, Ht in Hv.
  injection Hv as Hv.
  destruct (Forall2_lookup_r _ _ _ _ _ Htops Ht) as (row & Hrow & Htop).
  destruct t as [tv p]. simpl in *. subst tv.
  exists en, row, p, v. split; [done|]. split; [done|].
  split; [by apply row_top1_spec|]. split; [done|].
  intros en' row' p' v' Hrow' Hnot (Hp' & Hv' & _).
  destruct (Forall2_lookup_l _ _ _ _ _ Htops Hrow') as ([tv' tp'] & Ht' & Htop').
  apply row_top1_spec in Htop' as (_ & _ & Hmax).
  apply Qle_trans with tv'; [by apply (Hmax p')|].
  apply (Hbest v en tv' en'); [done|by rewrite list_lookup_fmap, Ht'|].
  intros Hin'. apply Hnot. rewrite Hidx. apply list_elem_of_fmap.
  exists en'. split; [done|]. apply list_elem_of_fmap. by exists (tv', en').
Qed.

Lemma parse_from_numpy_selects_best_witness :
  ∃ g,
    parse_from_numpy [[[1 # 2; 1 # 3; 9]; [1 # 5; 1 # 3; 0]; [0; 0; 0]]%Q] 2
      ["skip_connect"; "sep_conv_3x3"; "none"] = Ok g
    ∧ length g = 1
    ∧ ∀ i node edges, g !! i = Some node →
        [[[1 # 2; 1 # 3; 9]; [1 # 5; 1 # 3; 0]; [0; 0; 0]]%Q] !! i = Some edges →
        length node = 2
        ∧ NoDup node.*2
        ∧ ∀ prim e, (prim, e) ∈ node →
            ∃ (en : nat) row p v,
              e = Z.of_nat en
              ∧ edges !! en = Some row
              ∧ best_entry row p v
              ∧ ["skip_connect"; "sep_conv_3x3"; "none"] !! p = Some prim
              ∧ ∀ en' row' p' v',
                  edges !! en' = Some row' → Z.of_nat en' ∉ node.*2 →
                  best_entry row' p' v' → (v' <= v)%Q.
Proof.
  eexists. split; [vm_compute; reflexivity|].
  apply (parse_from_numpy_selects_best
           [[[1 # 2; 1 # 3; 9]; [1 # 5; 1 # 3; 0]; [0; 0; 0]]%Q] 2
           ["skip_connect"; "sep_conv_3x3"; "none"]).
  vm_compute. reflexivity.
Defined.

(** ** The encoder on well-formed genotypes *)

Lemma np_set_nat (sample : list (list Q)) (r c : nat) (v : Q) (row : list Q) :
  sample !! r = Some row → c < length row →
  np_set sample (Z.of_nat r) (Z.of_nat c) v = Ok (<[r:=<[c:=v]> row]> sample).
Proof.
  intros Hr Hc. unfold np_set.
  rewrite py_index_nat by (by eapply lookup_lt_Some). cbn. rewrite Hr.
  by rewrite py_index_nat by done.
Qed.

Lemma alter_lookup_insert {A} (f : A → A) (l : list A) (i : nat) (x : A) :
  l !! i = Some x → <[i:=f x]> l = alter f i l.
Proof.
  intros Hi. apply list_eq. intros j. destruct (decide (i = j)) as [->|Hne].
  - rewrite list_lookup_alter_eq, Hi.
    by rewrite list_lookup_insert_eq by (by eapply lookup_lt_Some).
  - by rewrite list_lookup_insert_ne, list_lookup_alter_ne by done.
Qed.

Lemma list_index_lookup (name : string) (ops : list string) (c : nat) :
  list_index name ops = Ok c → ops !! c = Some name ∧ col_of ops name = c.
Proof.
  unfold col_of, list_index. intros H.
  destruct (list_find _ ops) as [[i y]|] eqn:Hfind; [|done].
  injection H as ->. apply list_find_Some in Hfind as (Hc & -> & _). done.
Qed.

(** The row offset of node [i] as the encoder computes it. *)
Lemma encoder_offset (n_nodes i : nat) :
  i < n_nodes →
  (if decide (i = 0) then Ok 0
   else if decide (i = 1) then getitem (seq 2 n_nodes) 0
        else Ok (sum_list (slice (seq 2 n_nodes) 0 i)))
  = Ok (node_offset 2 i).
Proof.
  intros Hi. destruct i as [|[|i]].
  - done.
  - rewrite decide_False, decide_True by lia.
    destruct n_nodes as [|n]; [lia|]. done.
  - rewrite !decide_False by lia. unfold slice.
    rewrite drop_0, Nat.sub_0_r, take_seq, Nat.min_l by lia.
    by rewrite sum_range_offset.
Qed.

Lemma onehot_set_op_ok (self : DartsCNN) (j i : nat) (sample : list (list Q))
    (name : string) (e c : nat) (row : list Q) :
  i < net_n_nodes self →
  list_index name (net_basic_op_list self) = Ok c →
  sample !! (j * num_edges self + node_offset 2 i + e) = Some row →
  c < length row →
  onehot_set_op self j i sample (name, Z.of_nat e)
  = Ok (<[j * num_edges self + node_offset 2 i + e:=<[c:=1%Q]> row]> sample).
Proof.
  intros Hi Hc Hrow Hlen. unfold onehot_set_op. cbn [fst snd].
  destruct i as [|i].
  - rewrite decide_True by done. cbn. rewrite Hc. cbn.
    rewrite <- Nat2Z.inj_add.
    replace (e + j * num_edges self) with (j * num_edges self + node_offset 2 0 + e)
      by (simpl; lia).
    by apply np_set_nat.
  - rewrite (decide_False (P := S i = 0)) by lia.
    pose proof (encoder_offset (net_n_nodes self) (S i) Hi) as Hoff.
    rewrite (decide_False (P := S i = 0)) in Hoff by lia.
    rewrite Hoff. cbn [mbind res_bind]. rewrite Hc. cbn [mbind res_bind].
    rewrite <- !Nat2Z.inj_add.
    replace (e + node_offset 2 (S i) + j * num_edges self)
      with (j * num_edges self + node_offset 2 (S i) + e) by lia.
    by apply np_set_nat.
Qed.

Lemma Forall_alter_length (block : list (list Q)) (n c e : nat) (v : Q) :
  Forall (λ row, length row = n) block →
  Forall (λ row, length row = n) (alter (<[c:=v]>) e block).
Proof.
  intros Hall. apply Forall_lookup. intros k row Hk.
  destruct (decide (e = k)) as [->|Hne].
  - rewrite list_lookup_alter_eq in Hk.
    destruct (block !! k) as [row'|] eqn:Hrow'; [|done]. injection Hk as <-.
    rewrite length_insert. by eapply (proj1 (Forall_lookup _ _) Hall).
  - rewrite list_lookup_alter_ne in Hk by done.
    by eapply (proj1 (Forall_lookup _ _) Hall).
Qed.

Lemma set_pairs_shape (ops : list string) (n : nat) (node : list (string * Z)) :
  ∀ block,
    Forall (λ row, length row = n) block →
    length (set_pairs ops node block) = length block
    ∧ Forall (λ row, length row = n) (set_pairs ops node block).
Proof.
  induction node as [|p node IH]; intros block Hall; [done|].
  destruct (IH (alter (<[col_of ops p.1:=1%Q]>) (Z.to_nat p.2) block)) as [Hlen Hrows].
  { by apply Forall_alter_length. }
  rewrite length_alter in Hlen. by split.
Qed.

(** The pairs of one node are written into the rows of that node and
    nowhere else. *)
Lemma node_loop_ok (self : DartsCNN) (j i : nat) :
  i < net_n_nodes self →
  ∀ (node : list (string * Z)) (block pre post : list (list Q)),
    length pre = j * num_edges self + node_offset 2 i →
    Forall (λ row, length row = length (net_basic_op_list self)) block →
    Forall (wf_pair (net_basic_op_list self) (length block)) node →
    for_each node (onehot_set_op self j i) (pre ++ block ++ post)
    = Ok (pre ++ set_pairs (net_basic_op_list self) node block ++ post).
Proof.
  intros Hi. induction node as [|[name z] node IH]; intros block pre post Hpre Hrows Hwf;
    [done|].
  apply Forall_cons in Hwf as [(e & c & Hz & He & Hc & Hcol) Hwf].
  simpl in Hz, He, Hc. subst z.
  destruct (lookup_lt_is_Some_2 block e He) as [row Hrow].
  pose proof (proj1 (Forall_lookup _ _) Hrows e row Hrow) as Hlen. simpl in Hlen.
  assert ((pre ++ block ++ post) !! (j * num_edges self + node_offset 2 i + e) = Some row)
    as Hsample.
  { rewrite <- Hpre, lookup_app_r by lia.
    replace (length pre + e - length pre) with e by lia.
    by rewrite lookup_app_l by done. }
  cbn [for_each].
  rewrite (onehot_set_op_ok self j i _ name e c row Hi Hc Hsample) by lia.
  cbn [mbind res_bind].
  rewrite <- Hpre, insert_app_r_alt by lia.
  replace (length pre + e - length pre) with e by lia.
  rewrite insert_app_l by done.
  rewrite (alter_lookup_insert (<[c:=1%Q]>) block e row Hrow).
  rewrite IH.
  - unfold set_pairs. cbn [foldl fst snd].
    destruct (list_index_lookup _ _ _ Hc) as [_ ->]. by rewrite Nat2Z.id.
  - done.
  - by apply Forall_alter_length.
  - by rewrite length_alter.
Qed.

Lemma length_enc_blocks (ops : list string) (nodes : gene) : ∀ i,
  length (enc_blocks ops i nodes) = length nodes
  ∧ Forall2 (λ k block, length block = 2 + k
                        ∧ Forall (λ row, length row = length ops) block)
      (seq i (length nodes)) (enc_blocks ops i nodes).
Proof.
  induction nodes as [|node nodes IH]; intros i; cbn [enc_blocks length seq];
    [by split; constructor|].
  destruct (IH (S i)) as [Hlen Hall]. split; [by rewrite Hlen|].
  constructor; [|done].
  destruct (set_pairs_shape ops (length ops) node
              (replicate (2 + i) (replicate (length ops) 0%Q))) as [Hl Hr].
  { apply Forall_replicate. apply length_replicate. }
  split; [by rewrite Hl, length_replicate|done].
Qed.

Lemma length_concat_blocks (blocks : list (list (list Q))) : ∀ i,
  Forall2 (λ k (block : list (list Q)), length block = 2 + k)
    (seq i (length blocks)) blocks →
  length (concat blocks) + node_offset 2 i = node_offset 2 (i + length blocks).
Proof.
  induction blocks as [|b blocks IH]; intros i Hall; simpl.
  - by rewrite Nat.add_0_r.
  - simpl in Hall. apply Forall2_cons in Hall as [Hb Hall].
    rewrite length_app, Hb. specialize (IH (S i) Hall).
    replace (i + S (length blocks)) with (S i + length blocks) by lia.
    rewrite <- IH. simpl. lia.
Qed.

(** The loop over the nodes of one gene writes node after node. *)
Lemma gene_loop_ok (self : DartsCNN) (j : nat) :
  ∀ (nodes : gene) (i0 : nat) (pre post : list (list Q)),
    i0 + length nodes ≤ net_n_nodes self →
    length pre = j * num_edges self + node_offset 2 i0 →
    (∀ k node, nodes !! k = Some node →
       Forall (wf_pair (net_basic_op_list self) (2 + (i0 + k))) node) →
    for_each (enumerate_from i0 nodes)
      (λ sample '(i, node), for_each node (onehot_set_op self j i) sample)
      (pre
       ++ concat ((λ i, replicate (2 + i)
                          (replicate (length (net_basic_op_list self)) 0%Q))
                    <$> seq i0 (length nodes))
       ++ post)
    = Ok (pre ++ concat (enc_blocks (net_basic_op_list self) i0 nodes) ++ post).
Proof.
  induction nodes as [|node nodes IH]; intros i0 pre post Hn Hpre Hwf; [done|].
  cbn [enumerate_from for_each length seq fmap list_fmap concat enc_blocks].
  rewrite <- !app_assoc.
  rewrite (node_loop_ok self j i0); [|simpl in Hn; lia|done| |].
  - cbn [mbind res_bind].
    set (block := set_pairs _ node _).
    rewrite (app_assoc pre block).
    rewrite IH.
    + by rewrite <- !app_assoc.
    + simpl in Hn. lia.
    + rewrite length_app, Hpre. unfold block.
      destruct (set_pairs_shape (net_basic_op_list self)
                  (length (net_basic_op_list self)) node
                  (replicate (2 + i0)
                     (replicate (length (net_basic_op_list self)) 0%Q))) as [-> _].
      { apply Forall_replicate. apply length_replicate. }
      rewrite length_replicate. simpl. lia.
    + intros k nd Hk. specialize (Hwf (S k) nd Hk).
      by replace (i0 + S k) with (S i0 + k) in Hwf by lia.
  - apply Forall_replicate. apply length_replicate.
  - rewrite length_replicate. specialize (Hwf 0 node eq_refl).
    by rewrite Nat.add_0_r in Hwf.
Qed.

(** The closing loop rewrites each row on its own. *)
Lemma default_loop_ok (todo : list (list Q)) : ∀ filled : list (list Q),
  Forall (λ row, 8 ≤ length row) todo →
  for_each (seq (length filled) (length todo)) onehot_default_row (filled ++ todo)
  = Ok (filled ++ (fill_default <$> todo)).
Proof.
  induction todo as [|row todo IH]; intros filled Hrows; [done|].
  apply Forall_cons in Hrows as [Hrow Hrows].
  cbn [length seq for_each fmap list_fmap].
  assert ((filled ++ row :: todo) !! length filled = Some row) as Hlook.
  { rewrite lookup_app_r by lia. by rewrite Nat.sub_diag. }
  assert (onehot_default_row (filled ++ row :: todo) (length filled)
          = Ok (filled ++ fill_default row :: todo)) as ->.
  { unfold onehot_default_row, fill_default. rewrite getitem_nat, Hlook.
    cbn [mbind res_bind]. destruct (Qeq_bool (Qsum row) 0); [|done].
    change 7%Z with (Z.of_nat 7). rewrite (np_set_nat _ _ _ _ row Hlook) by lia.
    rewrite insert_app_r_alt by lia. by rewrite Nat.sub_diag. }
  cbn [mbind res_bind].
  specialize (IH (filled ++ [fill_default row]) Hrows).
  rewrite length_app in IH. cbn [length] in IH.
  replace (length filled + 1) with (S (length filled)) in IH by lia.
  by rewrite <- !app_assoc in IH.
Qed.

Lemma concat_zero_blocks (nc : nat) (n : nat) : ∀ i,
  concat ((λ i, replicate (2 + i) (replicate nc 0%Q)) <$> seq i n)
  = replicate (node_offset 2 (i + n) - node_offset 2 i) (replicate nc 0%Q).
Proof.
  induction n as [|n IH]; intros i.
  - by rewrite Nat.add_0_r, Nat.sub_diag.
  - cbn [seq fmap list_fmap concat]. rewrite IH, <- replicate_add. f_equal.
    replace (i + S n) with (S i + n) by lia.
    pose proof (node_offset_mono 2 (S i) (S i + n)) as Hmono.
    rewrite (node_offset_S 2 i) in *. lia.
Qed.

Lemma wf_gene_pairs (ops : list string) (n : nat) (g : gene) :
  wf_gene ops n g →
  ∀ k node, g !! k = Some node → Forall (wf_pair ops (2 + (0 + k))) node.
Proof.
  intros [_ Hwf] k node Hk.
  destruct (Hwf k node Hk) as (pa & pb & -> & Ha & Hb & _).
  by repeat constructor.
Qed.

Lemma enc_blocks_rows (ops : list string) (g : gene) (n : nat) :
  length g = n →
  length (concat (enc_blocks ops 0 g)) = node_offset 2 n
  ∧ Forall (λ row, length row = length ops) (concat (enc_blocks ops 0 g)).
Proof.
  intros Hlen. destruct (length_enc_blocks ops g 0) as [Hl Hall]. split.
  - pose proof (length_concat_blocks (enc_blocks ops 0 g) 0) as Hc.
    rewrite Hl, Hlen in Hc. simpl in Hc. rewrite <- Hc; [lia|].
    rewrite <- Hlen. eapply Forall2_impl; [exact Hall|]. by intros ?? [? _].
  - apply Forall_concat. apply Forall_forall. intros block Hblock.
    apply list_elem_of_lookup in Hblock as [k Hk].
    destruct (Forall2_lookup_r _ _ _ _ _ Hall Hk) as (i & _ & _ & Hrows). done.
Qed.

(** What the encoder computes on a well-formed genotype, gene by gene and
    node by node. *)
Lemma genotype_to_onehot_sample_rows (self : DartsCNN) (g : Genotype) :
  num_edges self = node_offset 2 (net_n_nodes self) →
  all_edges self = 2 * num_edges self →
  8 ≤ length (net_basic_op_list self) →
  wf_gene (net_basic_op_list self) (net_n_nodes self) (normal g) →
  wf_gene (net_basic_op_list self) (net_n_nodes self) (reduce g) →
  genotype_to_onehot_sample self g = Ok (onehot_rows (net_basic_op_list self) g).
Proof.
  intros HE Hall Hops Hnorm Hred.
  set (ops := net_basic_op_list self) in *.
  set (N := net_n_nodes self) in *.
  destruct (enc_blocks_rows ops (normal g) N (proj1 Hnorm)) as [Hln Hrn].
  destruct (enc_blocks_rows ops (reduce g) N (proj1 Hred)) as [Hlr Hrr].
  unfold genotype_to_onehot_sample. fold ops.
  assert (replicate (all_edges self) (replicate (length ops) 0%Q)
          = [] ++ concat ((λ i, replicate (2 + i) (replicate (length ops) 0%Q))
                            <$> seq 0 (length (normal g)))
               ++ concat ((λ i, replicate (2 + i) (replicate (length ops) 0%Q))
                            <$> seq 0 (length (reduce g)))) as ->.
  { rewrite !concat_zero_blocks, (proj1 Hnorm), (proj1 Hred), <- replicate_add.
    cbn [app]. f_equal. rewrite Hall, HE. simpl. lia. }
  unfold enumerate. cbn [enumerate_from for_each].
  pose proof (gene_loop_ok self 0 (normal g) 0 []) as Hloop0. fold ops in Hloop0.
  rewrite Hloop0; cycle 1.
  { rewrite (proj1 Hnorm). fold N. lia. }
  { done. }
  { by eapply wf_gene_pairs. }
  cbn [mbind res_bind app].
  pose proof (gene_loop_ok self 1 (reduce g) 0 (concat (enc_blocks ops 0 (normal g))) [])
    as Hloop1. fold ops in Hloop1. rewrite !app_nil_r in Hloop1.
  rewrite Hloop1; cycle 1.
  { rewrite (proj1 Hred). fold N. lia. }
  { rewrite Hln, HE. fold N. simpl. lia. }
  { by eapply wf_gene_pairs. }
  cbn [mbind res_bind].
  pose proof (default_loop_ok
                (concat (enc_blocks ops 0 (normal g)) ++ concat (enc_blocks ops 0 (reduce g)))
                []) as Hfill.
  cbn [length app] in Hfill. rewrite length_app, Hln, Hlr in Hfill.
  replace (all_edges self) with (node_offset 2 N + node_offset 2 N)
    by (rewrite Hall, HE; fold N; lia).
  rewrite Hfill; [done|].
  apply Forall_app. split; (eapply Forall_impl; [eassumption|]); simpl; intros; lia.
Qed.

(** ** Decoding an encoded genotype *)

Lemma length_concat_take {A} (blocks : list (list A)) :
  (∀ k b, blocks !! k = Some b → length b = 2 + k) →
  ∀ i, i ≤ length blocks → length (concat (take i blocks)) = node_offset 2 i.
Proof.
  intros Hlen. induction i as [|i IH]; intros Hi; [done|].
  destruct (lookup_lt_is_Some_2 blocks i) as [b Hb]; [lia|].
  rewrite (take_S_r _ _ _ Hb), concat_app, length_app, IH by lia.
  cbn [concat]. rewrite app_nil_r, (Hlen _ _ Hb). by rewrite node_offset_S.
Qed.

(** Unpacking undoes the concatenation of groups of the right sizes. *)
Lemma darts_weight_unpack_concat {A} (blocks : list (list A)) :
  (∀ k b, blocks !! k = Some b → length b = 2 + k) →
  darts_weight_unpack (concat blocks) (length blocks) 2 = blocks.
Proof.
  intros Hlen. apply list_eq. intros i.
  destruct (decide (i < length blocks)) as [Hi|Hi].
  - rewrite darts_weight_unpack_lookup by done.
    destruct (lookup_lt_is_Some_2 blocks i Hi) as [b Hb]. rewrite Hb. f_equal.
    rewrite <- (take_drop_middle _ _ _ Hb) at 1.
    rewrite concat_app. cbn [concat]. unfold slice.
    replace (node_offset 2 (S i) - node_offset 2 i) with (length b)
      by (rewrite node_offset_S, (Hlen _ _ Hb); lia).
    rewrite <- (length_concat_take blocks Hlen i) by lia.
    by rewrite drop_app_length, take_app_length.
  - rewrite (proj2 (lookup_ge_None _ _)).
    + symmetry. apply lookup_ge_None. lia.
    + rewrite darts_weight_unpack_length. lia.
Qed.

Lemma enc_blocks_lookup (ops : list string) (nodes : gene) : ∀ i k,
  enc_blocks ops i nodes !! k
  = (λ node, set_pairs ops node (replicate (2 + (i + k)) (replicate (length ops) 0%Q)))
      <$> (nodes !! k).
Proof.
  induction nodes as [|node nodes IH]; intros i [|k]; cbn [enc_blocks]; try done.
  - cbn [lookup list_lookup fmap option_fmap option_map]. by rewrite Nat.add_0_r.
  - cbn [lookup list_lookup]. rewrite IH.
    by replace (S i + k) with (i + S k) by lia.
Qed.

Lemma parse_node_returns (k : nat) (ops : list string) (edges : list (list Q)) :
  Forall (λ row, 1 < length row ≤ length ops) edges →
  k ≤ length edges →
  ∃ node, parse_node k ops edges = Ok node.
Proof.
  intros Hrows Hk. unfold parse_node.
  destruct (for_each_collect row_top1 edges []) as (tops & Htops & Hall).
  { intros row Hrow. apply row_top1_returns.
    by apply (proj1 (Forall_forall _ _) Hrows). }
  rewrite Htops. cbn [mbind res_bind app].
  destruct (topk_returns (fst <$> tops) k) as [sel Hsel].
  { rewrite length_fmap, <- (Forall2_length _ _ _ Hall). done. }
  rewrite Hsel. cbn [mbind res_bind].
  rewrite (for_each_ext _
             (λ node_gene s,
                b ← (prim_idx ← match tops !! s.2 with
                                | Some t => Ok t.2
                                | None => Raise IndexError
                                end;
                     prim ← getitem ops (Z.of_nat prim_idx);
                     Ok (prim, Z.of_nat s.2));
                Ok (node_gene ++ [b]))).
  2:{ intros acc [v e]. simpl. destruct (tops !! e) as [[v' p]|]; [|done].
      cbn. by destruct (getitem ops (Z.of_nat p)). }
  destruct (for_each_collect
              (λ s : Q * nat,
                 prim_idx ← match tops !! s.2 with
                            | Some t => Ok t.2
                            | None => Raise IndexError
                            end;
                 prim ← getitem ops (Z.of_nat prim_idx);
                 Ok (prim, Z.of_nat s.2)) sel []) as (node & Hnode & _).
  { intros [v e] Hin. destruct (topk_spec _ _ _ Hsel) as (_ & _ & Hval & _).
    pose proof (Hval v e Hin) as He. rewrite list_lookup_fmap in He.
    cbn [snd]. destruct (tops !! e) as [t|] eqn:Ht; [|done].
    cbn [mbind res_bind].
    destruct (Forall2_lookup_r _ _ _ _ _ Hall Ht) as (row & Hrow & Htop).
    destruct t as [tv p]. apply row_top1_spec in Htop as (Hp & _).
    pose proof (proj1 (Forall_lookup _ _) Hrows _ _ Hrow) as Hlen. simpl in Hlen.
    rewrite getitem_nat. cbn [snd].
    destruct (lookup_lt_is_Some_2 ops p) as [name ->]; [lia|]. eauto. }
  exists node. by rewrite Hnode.
Qed.

Lemma parse_from_numpy_returns (alpha : list (list (list Q))) (k : nat)
    (ops : list string) :
  last ops = Some "none" →
  Forall (λ edges, ∃ node, parse_node k ops edges = Ok node) alpha →
  ∃ g, parse_from_numpy alpha k ops = Ok g.
Proof.
  intros Hlast Hall. unfold parse_from_numpy. rewrite getitem_last, Hlast.
  cbn [mbind res_bind]. rewrite decide_True by done.
  destruct (for_each_collect (parse_node k ops) alpha []) as (g & Hg & _).
  { intros edges Hin. by apply (proj1 (Forall_forall _ _) Hall). }
  exists g. by rewrite Hg.
Qed.

Lemma row_top1_selected (c : nat) :
  c < 7 →
  fill_default (<[c:=1%Q]> (replicate 8 0%Q)) = <[c:=1%Q]> (replicate 8 0%Q)
  ∧ row_top1 (<[c:=1%Q]> (replicate 8 0%Q)) = Ok (1%Q, c).
Proof.
  intros Hc. do 7 (destruct c as [|c]; [by vm_compute|]). lia.
Qed.

Lemma row_top1_default :
  ∃ p, row_top1 (fill_default (replicate 8 0%Q)) = Ok (0%Q, p).
Proof. eexists. vm_compute. reflexivity. Qed.

(** Decoding the rows of one encoded node gives its two pairs back, in
    one order or the other. *)
Lemma parse_node_onehot (ops : list string) (w : nat) (na nb : string)
    (ea eb ca cb : nat) (node' : list (string * Z)) :
  length ops = 8 →
  list_index na ops = Ok ca → ca < 7 →
  list_index nb ops = Ok cb → cb < 7 →
  ea < w → eb < w → ea ≠ eb →
  parse_node 2 ops
    (fill_default
       <$> set_pairs ops [(na, Z.of_nat ea); (nb, Z.of_nat eb)]
             (replicate w (replicate (length ops) 0%Q)))
  = Ok node' →
  node' ≡ₚ [(na, Z.of_nat ea); (nb, Z.of_nat eb)].
Proof.
  intros Hops Hca Hca7 Hcb Hcb7 Hea Heb Hne Hparse.
  destruct (list_index_lookup _ _ _ Hca) as [Hna Hcola].
  destruct (list_index_lookup _ _ _ Hcb) as [Hnb Hcolb].
  rewrite Hops in Hparse. unfold set_pairs in Hparse.
  cbn [foldl fst snd] in Hparse. rewrite !Nat2Z.id, Hcola, Hcolb in Hparse.
  set (rows := fill_default <$> _) in Hparse.
  assert (rows !! ea = Some (<[ca:=1%Q]> (replicate 8 0%Q))) as Hrow_a.
  { unfold rows. rewrite list_lookup_fmap, list_lookup_alter_ne by done.
    rewrite list_lookup_alter_eq, lookup_replicate_2 by done.
    cbn. f_equal. by apply row_top1_selected. }
  assert (rows !! eb = Some (<[cb:=1%Q]> (replicate 8 0%Q))) as Hrow_b.
  { unfold rows. rewrite list_lookup_fmap, list_lookup_alter_eq.
    rewrite list_lookup_alter_ne, lookup_replicate_2 by done.
    cbn. f_equal. by apply row_top1_selected. }
  assert (∀ e row, e ≠ ea → e ≠ eb → rows !! e = Some row →
                   row = fill_default (replicate 8 0%Q)) as Hrow_o.
  { intros e row Ha Hb. unfold rows.
    rewrite list_lookup_fmap, !list_lookup_alter_ne by done.
    intros Hrow. apply fmap_Some in Hrow as (row0 & Hrow0 & ->).
    apply lookup_replicate in Hrow0 as [-> _]. done. }
  apply parse_node_inv in Hparse as (tops & sel & Htops & Hsel & Hnode).
  destruct (topk_spec _ _ _ Hsel) as (Hlen & Hnodup & Hval & _ & Hbest).
  assert (tops !! ea = Some (1%Q, ca)) as Htop_a.
  { destruct (Forall2_lookup_l _ _ _ _ _ Htops Hrow_a) as (t & Ht & Htop).
    rewrite (proj2 (row_top1_selected ca Hca7)) in Htop. by injection Htop as <-. }
  assert (tops !! eb = Some (1%Q, cb)) as Htop_b.
  { destruct (Forall2_lookup_l _ _ _ _ _ Htops Hrow_b) as (t & Ht & Htop).
    rewrite (proj2 (row_top1_selected cb Hcb7)) in Htop. by injection Htop as <-. }
  assert (∀ e t, e ≠ ea → e ≠ eb → tops !! e = Some t → t.1 = 0%Q) as Htop_o.
  { intros e t Ha Hb Ht.
    destruct (Forall2_lookup_r _ _ _ _ _ Htops Ht) as (row & Hrow & Htop).
    destruct row_top1_default as [p Hp].
    rewrite (Hrow_o e row Ha Hb Hrow), Hp in Htop. by injection Htop as <-. }
  assert (∀ v i, (v, i) ∈ sel → (1 <= v)%Q → i = ea ∨ i = eb) as Hone.
  { intros v i Hin Hv. pose proof (Hval v i Hin) as Hi.
    rewrite list_lookup_fmap in Hi. apply fmap_Some in Hi as (t & Ht & Hv').
    destruct (decide (i = ea)) as [|Ha]; [by left|].
    destruct (decide (i = eb)) as [|Hb]; [by right|].
    rewrite (Htop_o i t Ha Hb Ht) in Hv'. subst v.
    unfold Qle in Hv. simpl in Hv. lia. }
  destruct sel as [|[v1 i1] [|[v2 i2] [|? ?]]]; try done.
  cbn [fmap list_fmap snd] in Hnodup.
  apply NoDup_cons in Hnodup as [Hi12 _].
  rewrite list_elem_of_singleton in Hi12.
  assert (∀ e c, tops !! e = Some (1%Q, c) → e = i1 ∨ e = i2) as Hin_sel.
  { intros e c He.
    destruct (decide (e = i1)) as [|H1]; [by left|].
    destruct (decide (e = i2)) as [|H2]; [by right|]. exfalso.
    assert ((1%Q, e) ∉ [(v1, i1); (v2, i2)]) as Hnot.
    { intros Hin. apply elem_of_cons in Hin as [[= _ ?]|Hin]; [done|].
      apply list_elem_of_singleton in Hin as [= _ ?]. done. }
    assert ((fst <$> tops) !! e = Some 1%Q) as Hfe.
    { by rewrite list_lookup_fmap, He. }
    assert (i1 = ea ∨ i1 = eb) as Hc1.
    { apply (Hone v1); [by left|]. apply (Hbest v1 i1 1%Q e); [by left|done..]. }
    assert (i2 = ea ∨ i2 = eb) as Hc2.
    { apply (Hone v2); [by right; left|].
      apply (Hbest v2 i2 1%Q e); [by right; left|done..]. }
    assert (e = ea ∨ e = eb) as Hce.
    { destruct (decide (e = ea)) as [|Ha]; [by left|].
      destruct (decide (e = eb)) as [|Hb]; [by right|].
      by pose proof (Htop_o e _ Ha Hb He). }
    lia. }
  apply Forall2_cons_inv_l in Hnode as ([n1 z1] & node1 & (t1 & Ht1 & Hn1 & Hz1) & Hnode & ->).
  apply Forall2_cons_inv_l in Hnode as ([n2 z2] & node2 & (t2 & Ht2 & Hn2 & Hz2) & Hnode & ->).
  apply Forall2_nil_inv_l in Hnode as ->.
  cbn [fst snd] in *. subst z1 z2.
  destruct (Hin_sel ea ca Htop_a) as [<-|<-], (Hin_sel eb cb Htop_b) as [<-|<-];
    try done.
  - rewrite Htop_a in Ht1. rewrite Htop_b in Ht2.
    injection Ht1 as <-. injection Ht2 as <-. cbn [snd] in *.
    rewrite Hna in Hn1. rewrite Hnb in Hn2. injection Hn1 as <-. injection Hn2 as <-.
    done.
  - rewrite Htop_b in Ht1. rewrite Htop_a in Ht2.
    injection Ht1 as <-. injection Ht2 as <-. cbn [snd] in *.
    rewrite Hnb in Hn1. rewrite Hna in Hn2. injection Hn1 as <-. injection Hn2 as <-.
    apply Permutation_swap.
Qed.

Lemma fmap_concat {A B} (f : A → B) (ls : list (list A)) :
  f <$> concat ls = concat (fmap (M:=list) f <$> ls).
Proof.
  induction ls as [|l ls IH]; [done|].
  cbn [concat fmap list_fmap]. by rewrite fmap_app, IH.
Qed.

Lemma length_fill_default (row : list Q) : length (fill_default row) = length row.
Proof. unfold fill_default. destruct (Qeq_bool _ _); [apply length_insert|done]. Qed.

(** Decoding the rows of one encoded gene gives the gene back, node by
    node, up to the order of the two pairs of a node. *)
Lemma parse_gene_onehot (ops : list string) (n : nat) (g : gene) :
  length ops = 8 → last ops = Some "none" → wf_gene ops n g →
  ∃ g',
    parse_from_numpy
      (darts_weight_unpack (fill_default <$> concat (enc_blocks ops 0 g)) n 2) 2 ops
    = Ok g'
    ∧ Forall2 (≡ₚ) g' g.
Proof.
  intros Hops Hlast [Hlen Hwf].
  destruct (length_enc_blocks ops g 0) as [Hlb _].
  set (blocks := fmap (M:=list) fill_default <$> enc_blocks ops 0 g).
  assert (∀ k b, blocks !! k = Some b →
            ∃ node, g !! k = Some node
                    ∧ b = fill_default
                            <$> set_pairs ops node
                                  (replicate (2 + k) (replicate (length ops) 0%Q)))
    as Hblock.
  { intros k b. unfold blocks. rewrite list_lookup_fmap, enc_blocks_lookup.
    destruct (g !! k) as [node|]; [|done]. intros [= <-]. by exists node. }
  assert (∀ k b, blocks !! k = Some b →
            length b = 2 + k ∧ Forall (λ row, length row = length ops) b) as Hshape.
  { intros k b Hb. destruct (Hblock k b Hb) as (node & _ & ->).
    destruct (set_pairs_shape ops (length ops) node
                (replicate (2 + k) (replicate (length ops) 0%Q))) as [Hl Hr].
    { apply Forall_replicate. apply length_replicate. }
    split; [by rewrite length_fmap, Hl, length_replicate|].
    apply Forall_fmap. eapply Forall_impl; [exact Hr|].
    intros row Hrow. simpl. by rewrite length_fill_default. }
  rewrite fmap_concat. fold blocks.
  replace n with (length blocks) by (unfold blocks; by rewrite length_fmap, Hlb).
  rewrite darts_weight_unpack_concat by (intros k b Hb; by apply Hshape).
  destruct (parse_from_numpy_returns blocks 2 ops Hlast) as [g' Hg'].
  { apply Forall_lookup. intros k b Hb. destruct (Hshape k b Hb) as [Hl Hr].
    apply parse_node_returns; [|lia].
    eapply Forall_impl; [exact Hr|]. intros row Hrow. simpl in *. lia. }
  exists g'. split; [done|].
  apply parse_from_numpy_inv in Hg' as [_ Hall].
  apply Forall2_same_length_lookup. split.
  { rewrite <- (Forall2_length _ _ _ Hall). unfold blocks.
    by rewrite length_fmap, Hlb. }
  intros k node' node Hnode' Hnode.
  destruct (Forall2_lookup_r _ _ _ _ _ Hall Hnode') as (b & Hb & Hparse).
  destruct (Hblock k b Hb) as (node0 & Hnode0 & ->).
  rewrite Hnode in Hnode0. injection Hnode0 as <-.
  destruct (Hwf k node Hnode)
    as ([na za] & [nb zb] & -> & (ea & ca & Hza & Hea & Hca & Hca') &
        (eb & cb & Hzb & Heb & Hcb & Hcb') & Hne).
  cbn [fst snd] in *. subst za zb.
  eapply (parse_node_onehot ops (2 + k) na nb ea eb ca cb); try done; lia.
Qed.

(** Encoding a well-formed genotype and decoding the sample gives the
    genotype back: for a network whose vocabulary has eight entries and
    ends in "none", the decoder returns on the encoder's sample, and each
    node of each gene it returns holds the two pairs of the same node of
    the genotype that was encoded, in one order or the other. *)
Theorem genotype_roundtrip (C n_classes n_layers n_nodes : nat)
    (basic_op_list : list string) (net : DartsCNN) (g : Genotype) :
  DartsCNN_init C n_classes n_layers n_nodes basic_op_list = Ok net →
  length (net_basic_op_list net) = 8 →
  last (net_basic_op_list net) = Some "none" →
  wf_gene (net_basic_op_list net) n_nodes (normal g) →
  wf_gene (net_basic_op_list net) n_nodes (reduce g) →
  ∃ sample g',
    genotype_to_onehot_sample net g = Ok sample
    ∧ DartsCNN_genotype net sample = Ok g'
    ∧ Forall2 (≡ₚ) (normal g') (normal g)
    ∧ Forall2 (≡ₚ) (reduce g') (reduce g)
    ∧ normal_concat g' = seq 2 n_nodes
    ∧ reduce_concat g' = seq 2 n_nodes.
Proof.
  intros Hinit Hops Hlast Hnorm Hred.
  destruct (DartsCNN_init_fields _ _ _ _ _ _ Hinit)
    as (HN & _ & _ & HE & Hall & _).
  set (ops := net_basic_op_list net) in *.
  exists (onehot_rows ops g).
  rewrite <- HN in Hnorm, Hred, HE, Hall.
  assert (genotype_to_onehot_sample net g = Ok (onehot_rows ops g)) as Henc.
  { apply genotype_to_onehot_sample_rows; try done; [lia|]. fold ops. lia. }
  destruct (enc_blocks_rows ops (normal g) _ (proj1 Hnorm)) as [Hln _].
  destruct (parse_gene_onehot ops _ (normal g) Hops Hlast Hnorm) as (gn & Hgn & Hpn).
  destruct (parse_gene_onehot ops _ (reduce g) Hops Hlast Hred) as (gr & Hgr & Hpr).
  exists {| normal := gn; normal_concat := seq 2 (net_n_nodes net);
            reduce := gr; reduce_concat := seq 2 (net_n_nodes net) |}.
  split; [done|]. rewrite <- HN. split; [|done].
  unfold DartsCNN_genotype, onehot_rows. fold ops.
  rewrite slice_from_zero, fmap_app.
  rewrite take_app_length' by (by rewrite length_fmap, Hln, HE).
  rewrite drop_app_length' by (by rewrite length_fmap, Hln, HE).
  rewrite Hgn. cbn [mbind res_bind]. by rewrite Hgr.
Qed.

Lemma wf_pair_intro (ops : list string) (width : nat) (name : string) (e c : nat) :
  list_index name ops = Ok c → c + 1 < length ops → e < width →
  wf_pair ops width (name, Z.of_nat e).
Proof. intros Hc Hlast He. by exists e, c. Qed.

Lemma wf_node_intro (ops : list string) (width : nat) (na nb : string)
    (ea eb ca cb : nat) :
  list_index na ops = Ok ca → ca + 1 < length ops → ea < width →
  list_index nb ops = Ok cb → cb + 1 < length ops → eb < width →
  ea ≠ eb →
  wf_node ops width [(na, Z.of_nat ea); (nb, Z.of_nat eb)].
Proof.
  intros Hca Hla Hea Hcb Hlb Heb Hne.
  exists (na, Z.of_nat ea), (nb, Z.of_nat eb).
  split; [done|]. split; [by eapply wf_pair_intro|].
  split; [by eapply wf_pair_intro|]. simpl. lia.
Qed.

Lemma two_node_genotype_wf :
  wf_gene DEFAULT_OP 2 (normal two_node_genotype)
  ∧ wf_gene DEFAULT_OP 2 (reduce two_node_genotype).
Proof.
  split; (split; [done|]); intros [|[|i]] node Hnode; try done;
    injection Hnode as <-.
  - apply (wf_node_intro DEFAULT_OP 2 "skip_connect" "skip_connect" 0 1 2 2);
      first [by vm_compute | simpl; lia].
  - apply (wf_node_intro DEFAULT_OP 3 "skip_connect" "skip_connect" 1 2 2 2);
      first [by vm_compute | simpl; lia].
  - apply (wf_node_intro DEFAULT_OP 2 "skip_connect" "skip_connect" 0 1 2 2);
      first [by vm_compute | simpl; lia].
  - apply (wf_node_intro DEFAULT_OP 3 "skip_connect" "skip_connect" 0 1 2 2);
      first [by vm_compute | simpl; lia].
Qed.

Lemma genotype_roundtrip_witness :
  ∃ net,
    DartsCNN_init 16 10 8 2 [] = Ok net
    ∧ ∃ sample g',
        genotype_to_onehot_sample net two_node_genotype = Ok sample
        ∧ DartsCNN_genotype net sample = Ok g'
        ∧ Forall2 (≡ₚ) (normal g') (normal two_node_genotype)
        ∧ Forall2 (≡ₚ) (reduce g') (reduce two_node_genotype)
        ∧ normal_concat g' = seq 2 2
        ∧ reduce_concat g' = seq 2 2.
Proof.
  eexists. split; [vm_compute; reflexivity|].
  apply (genotype_roundtrip 16 10 8 2 []);
    [vm_compute; reflexivity|reflexivity|reflexivity
    |exact (proj1 two_node_genotype_wf)|exact (proj2 two_node_genotype_wf)].
Defined.

Lemma list_index_first (ops : list string) (p : nat) (name : string) :
  ops !! p = Some name → ∃ c, list_index name ops = Ok c ∧ c ≤ p.
Proof.
  intros Hp. unfold list_index.
  destruct (list_find (λ y, y = name) ops) as [[c y]|] eqn:Hfind.
  - exists c. split; [done|].
    apply list_find_Some in Hfind as (_ & _ & Hfirst).
    destruct (decide (c ≤ p)) as [|Hlt]; [done|].
    exfalso. apply (Hfirst p name Hp); [lia|done].
  - apply list_find_None in Hfind.
    by pose proof (proj1 (Forall_lookup _ _) Hfind p name Hp).
Qed.

(** One gene as [parse_from_numpy] returns it from unpacked weights. *)
Lemma parse_from_numpy_wf (ops : list string) (n : nat) (weight : list (list Q))
    (g : gene) :
  Forall (λ row, length row = length ops) weight →
  parse_from_numpy (darts_weight_unpack weight n 2) 2 ops = Ok g →
  wf_gene ops n g.
Proof.
  intros Hrows Hparse. apply parse_from_numpy_inv in Hparse as [_ Hall].
  split.
  { rewrite <- (Forall2_length _ _ _ Hall). apply darts_weight_unpack_length. }
  intros i node Hnode.
  destruct (Forall2_lookup_r _ _ _ _ _ Hall Hnode) as (edges & Hedges & Hpn).
  assert (i < n) as Hi.
  { apply lookup_lt_Some in Hedges. by rewrite darts_weight_unpack_length in Hedges. }
  rewrite darts_weight_unpack_lookup in Hedges by done. injection Hedges as <-.
  set (edges := slice weight _ _) in Hpn.
  assert (length edges ≤ 2 + i) as Hwidth.
  { unfold edges. rewrite length_slice. lia. }
  assert (Forall (λ row, length row = length ops) edges) as Hedge_rows.
  { unfold edges, slice. by apply Forall_take, Forall_drop. }
  apply parse_node_inv in Hpn as (tops & sel & Htops & Hsel & Hsn).
  destruct (topk_spec _ _ _ Hsel) as (Hlen & Hnodup & Hval & _).
  assert (∀ s pe, s ∈ sel →
            (∃ t, tops !! s.2 = Some t ∧ ops !! t.2 = Some pe.1 ∧ pe.2 = Z.of_nat s.2) →
            wf_pair ops (2 + i) pe) as Hpair.
  { intros [v e] [name z] Hin (t & Ht & Hname & Hz). cbn [fst snd] in *.
    destruct (Forall2_lookup_r _ _ _ _ _ Htops Ht) as (row & Hrow & Htop).
    destruct t as [tv p]. apply row_top1_spec in Htop as (Hp & _).
    pose proof (proj1 (Forall_lookup _ _) Hedge_rows _ _ Hrow) as Hrl. simpl in Hrl.
    destruct (list_index_first ops p name Hname) as (c & Hc & Hcp).
    exists e, c. cbn [fst snd]. split; [done|]. split; [|split; [done|lia]].
    apply lookup_lt_Some in Hrow. lia. }
  destruct sel as [|s1 [|s2 [|? ?]]]; try done.
  apply Forall2_cons_inv_l in Hsn as (p1 & node1 & H1 & Hsn & ->).
  apply Forall2_cons_inv_l in Hsn as (p2 & node2 & H2 & Hsn & ->).
  apply Forall2_nil_inv_l in Hsn as ->.
  exists p1, p2. split; [done|].
  split; [apply (Hpair s1); [by left|done]|].
  split; [apply (Hpair s2); [by right; left|done]|].
  destruct H1 as (_ & _ & _ & ->), H2 as (_ & _ & _ & ->).
  cbn [fmap list_fmap] in Hnodup. apply NoDup_cons in Hnodup as [Hne _].
  rewrite list_elem_of_singleton in Hne. lia.
Qed.

(** The genotype read off architecture weights is well formed: each gene
    has one node per intermediate node, a node holds two pairs on two
    different edges among the [2 + i] edges entering it, and the operation
    of a pair is a vocabulary name whose first column is not the last
    one. *)
Theorem genotype_well_formed (C n_classes n_layers n_nodes : nat)
    (basic_op_list : list string) (net : DartsCNN) (theta : list (list Q))
    (g : Genotype) :
  DartsCNN_init C n_classes n_layers n_nodes basic_op_list = Ok net →
  Forall (λ row, length row = length (net_basic_op_list net)) theta →
  DartsCNN_genotype net theta = Ok g →
  wf_gene (net_basic_op_list net) n_nodes (normal g)
  ∧ wf_gene (net_basic_op_list net) n_nodes (reduce g)
  ∧ normal_concat g = seq 2 n_nodes
  ∧ reduce_concat g = seq 2 n_nodes.
Proof.
  intros Hinit Hrows Hgen.
  destruct (DartsCNN_init_fields _ _ _ _ _ _ Hinit) as (HN & _).
  unfold DartsCNN_genotype in Hgen. rewrite HN in Hgen.
  destruct (parse_from_numpy (darts_weight_unpack (slice theta 0 (num_edges net)) _ _)
              2 _) as [gn|e] eqn:Hgn; [|done].
  cbn [mbind res_bind] in Hgen.
  destruct (parse_from_numpy (darts_weight_unpack (drop (num_edges net) theta) _ _)
              2 _) as [gr|e] eqn:Hgr; [|done].
  cbn [mbind res_bind] in Hgen. injection Hgen as <-.
  cbn [normal reduce normal_concat reduce_concat].
  split; [|split; [|done]].
  - eapply parse_from_numpy_wf; [|exact Hgn].
    unfold slice. by apply Forall_take, Forall_drop.
  - eapply parse_from_numpy_wf; [|exact Hgr]. by apply Forall_drop.
Qed.

Lemma genotype_well_formed_witness :
  ∃ net g,
    DartsCNN_init 16 10 8 2 [] = Ok net
    ∧ DartsCNN_genotype net (two_node_theta 8 2) = Ok g
    ∧ wf_gene (net_basic_op_list net) 2 (normal g)
    ∧ wf_gene (net_basic_op_list net) 2 (reduce g)
    ∧ normal_concat g = seq 2 2
    ∧ reduce_concat g = seq 2 2.
Proof.
  eexists. eexists. split; [vm_compute; reflexivity|].
  split; [vm_compute; reflexivity|].
  apply (genotype_well_formed 16 10 8 2 [] _ (two_node_theta 8 2));
    [vm_compute; reflexivity| |vm_compute; reflexivity].
  unfold two_node_theta.
  repeat (apply Forall_cons; split; [reflexivity|]). constructor.
Defined.

(** ** The rows of an encoded genotype *)

Lemma Qsum_zeros (n : nat) : (Qsum (replicate n 0%Q) == 0)%Q.
Proof.
  induction n as [|n IH]; [done|].
  cbn [replicate Qsum foldr]. fold (Qsum (replicate n 0%Q)). rewrite IH. done.
Qed.

Lemma Qsum_selected (n c : nat) :
  c < n → (Qsum (<[c:=1%Q]> (replicate n 0%Q)) == 1)%Q.
Proof.
  revert c. induction n as [|n IH]; intros c Hc; [lia|].
  destruct c as [|c]; cbn [replicate insert list_insert Qsum foldr].
  - fold (Qsum (replicate n 0%Q)). rewrite Qsum_zeros. done.
  - fold (Qsum (<[c:=1%Q]> (replicate n 0%Q))). rewrite IH by lia. done.
Qed.

Lemma fill_default_zeros (n : nat) :
  fill_default (replicate n 0%Q) = <[7:=1%Q]> (replicate n 0%Q).
Proof.
  unfold fill_default.
  by rewrite (proj2 (Qeq_bool_iff _ _) (Qsum_zeros n)).
Qed.

Lemma fill_default_selected (n c : nat) :
  c < n → fill_default (<[c:=1%Q]> (replicate n 0%Q)) = <[c:=1%Q]> (replicate n 0%Q).
Proof.
  intros Hc. unfold fill_default.
  destruct (Qeq_bool _ _) eqn:Hsum; [|done].
  apply Qeq_bool_iff in Hsum. rewrite (Qsum_selected n c Hc) in Hsum. done.
Qed.

Lemma set_pairs_rows (ops : list string) (w : nat) (node : list (string * Z)) :
  wf_node ops w node →
  ∀ e row,
    set_pairs ops node (replicate w (replicate (length ops) 0%Q)) !! e = Some row →
    row = replicate (length ops) 0%Q
    ∨ ∃ c, c + 1 < length ops ∧ row = <[c:=1%Q]> (replicate (length ops) 0%Q).
Proof.
  intros ([na za] & [nb zb] & -> & (ea & ca & Hza & Hea & Hca & Hca') &
          (eb & cb & Hzb & Heb & Hcb & Hcb') & Hne) e row.
  cbn [fst snd] in *. subst za zb.
  destruct (list_index_lookup _ _ _ Hca) as [_ Hcola].
  destruct (list_index_lookup _ _ _ Hcb) as [_ Hcolb].
  unfold set_pairs. cbn [foldl fst snd]. rewrite !Nat2Z.id, Hcola, Hcolb.
  destruct (decide (eb = e)) as [<-|Hb].
  - rewrite list_lookup_alter_eq, list_lookup_alter_ne by lia.
    rewrite lookup_replicate_2 by done. intros [= <-]. right. by exists cb.
  - rewrite list_lookup_alter_ne by done.
    destruct (decide (ea = e)) as [<-|Ha].
    + rewrite list_lookup_alter_eq, lookup_replicate_2 by done.
      intros [= <-]. right. by exists ca.
    + rewrite list_lookup_alter_ne by done.
      intros Hrow. apply lookup_replicate in Hrow as [-> _]. by left.
Qed.

Lemma enc_blocks_one_hot (ops : list string) (n : nat) (g : gene) :
  8 ≤ length ops → wf_gene ops n g →
  Forall (λ row, ∃ c, c < length ops
                      ∧ row = <[c:=1%Q]> (replicate (length ops) 0%Q))
    (fill_default <$> concat (enc_blocks ops 0 g)).
Proof.
  intros Hops [_ Hwf]. apply Forall_fmap, Forall_concat, Forall_lookup.
  intros k block Hblock. rewrite enc_blocks_lookup in Hblock.
  apply fmap_Some in Hblock as (node & Hnode & ->).
  apply Forall_lookup. intros e row Hrow. simpl.
  destruct (set_pairs_rows ops _ node (Hwf k node Hnode) e row Hrow)
    as [->|(c & Hc & ->)].
  - exists 7. split; [lia|]. apply fill_default_zeros.
  - exists c. split; [lia|]. apply fill_default_selected. lia.
Qed.

Lemma concat_lookup_block {A} (blocks : list (list A)) (i e : nat) (b : list A) :
  (∀ k b, blocks !! k = Some b → length b = 2 + k) →
  blocks !! i = Some b → e < 2 + i →
  concat blocks !! (node_offset 2 i + e) = b !! e.
Proof.
  intros Hlen Hb He.
  rewrite <- (take_drop_middle _ _ _ Hb) at 1.
  rewrite concat_app. cbn [concat].
  rewrite <- (length_concat_take blocks Hlen i)
    by (apply lookup_lt_Some in Hb; lia).
  rewrite lookup_app_r by lia.
  replace (length (concat (take i blocks)) + e - length (concat (take i blocks)))
    with e by lia.
  apply lookup_app_l. rewrite (Hlen _ _ Hb). lia.
Qed.

(** Row [e] of the rows of one node before the closing loop: the one-hot
    row of the pair that names edge [e], or zeros when no pair does. *)
Lemma set_pairs_row (ops : list string) (w : nat) (node : list (string * Z)) (e : nat) :
  wf_node ops w node → e < w →
  ∃ row,
    set_pairs ops node (replicate w (replicate (length ops) 0%Q)) !! e = Some row
    ∧ ((∃ name c, (name, Z.of_nat e) ∈ node ∧ list_index name ops = Ok c
                  ∧ c + 1 < length ops
                  ∧ row = <[c:=1%Q]> (replicate (length ops) 0%Q))
       ∨ ((∀ name, (name, Z.of_nat e) ∉ node)
          ∧ row = replicate (length ops) 0%Q)).
Proof.
  intros ([na za] & [nb zb] & -> & (ea & ca & Hza & Hea & Hca & Hca') &
          (eb & cb & Hzb & Heb & Hcb & Hcb') & Hne) He.
  cbn [fst snd] in *. subst za zb.
  destruct (list_index_lookup _ _ _ Hca) as [_ Hcola].
  destruct (list_index_lookup _ _ _ Hcb) as [_ Hcolb].
  unfold set_pairs. cbn [foldl fst snd]. rewrite !Nat2Z.id, Hcola, Hcolb.
  destruct (decide (eb = e)) as [<-|Hb].
  - rewrite list_lookup_alter_eq, list_lookup_alter_ne by lia.
    rewrite lookup_replicate_2 by done. eexists. split; [done|].
    left. exists nb, cb. repeat split; try done. set_solver.
  - rewrite list_lookup_alter_ne by done.
    destruct (decide (ea = e)) as [<-|Ha].
    + rewrite list_lookup_alter_eq, lookup_replicate_2 by done.
      eexists. split; [done|]. left. exists na, ca. repeat split; try done. set_solver.
    + rewrite list_lookup_alter_ne, lookup_replicate_2 by done.
      eexists. split; [done|]. right. split; [|done].
      intros name Hin. apply elem_of_cons in Hin as [Hin|Hin].
      * injection Hin as _ Hin. lia.
      * apply list_elem_of_singleton in Hin. injection Hin as _ Hin. lia.
Qed.

(** Row [e] of node [i] in the encoding of one gene. *)
Lemma enc_blocks_row (ops : list string) (n : nat) (g : gene) (i e : nat)
    (node : list (string * Z)) :
  8 ≤ length ops → wf_gene ops n g → g !! i = Some node → e < 2 + i →
  ∃ row,
    (fill_default <$> concat (enc_blocks ops 0 g)) !! (node_offset 2 i + e) = Some row
    ∧ ((∃ name c, (name, Z.of_nat e) ∈ node ∧ list_index name ops = Ok c
                  ∧ row = <[c:=1%Q]> (replicate (length ops) 0%Q))
       ∨ ((∀ name, (name, Z.of_nat e) ∉ node)
          ∧ row = <[7:=1%Q]> (replicate (length ops) 0%Q))).
Proof.
  intros Hops [Hlen Hwf] Hnode He.
  destruct (set_pairs_row ops (2 + i) node e (Hwf i node Hnode) He)
    as (row0 & Hrow0 & Hcase).
  rewrite list_lookup_fmap.
  rewrite (concat_lookup_block _ i e
             (set_pairs ops node (replicate (2 + i) (replicate (length ops) 0%Q)))).
  - rewrite Hrow0. cbn. eexists. split; [done|].
    destruct Hcase as [(name & c & Hin & Hc & Hclt & ->)|[Hnone ->]].
    + left. exists name, c. split; [done|]. split; [done|].
      apply fill_default_selected. lia.
    + right. split; [done|]. apply fill_default_zeros.
  - intros k b Hb. rewrite enc_blocks_lookup in Hb.
    apply fmap_Some in Hb as (nd & _ & ->).
    destruct (set_pairs_shape ops (length ops) nd
                (replicate (2 + (0 + k)) (replicate (length ops) 0%Q))) as [-> _].
    { apply Forall_replicate. apply length_replicate. }
    by rewrite length_replicate.
  - by rewrite enc_blocks_lookup, Hnode.
  - done.
Qed.

(** On a well-formed genotype, for a vocabulary of at least eight
    entries, the encoder returns a matrix with one row per edge of the two
    cell kinds, and every row is one-hot. Row [e] of node [i] of gene [j]
    (0 for the normal gene, 1 for the reduction gene) stands at position
    [j * num_edges + Σ_{t<i} (2+t) + e]; it has its 1 in the column where
    the vocabulary first lists the operation of the pair that names edge
    [e], and in column 7 when no pair of the node names that edge. *)
Theorem genotype_to_onehot_sample_one_hot (C n_classes n_layers n_nodes : nat)
    (basic_op_list : list string) (net : DartsCNN) (g : Genotype) :
  DartsCNN_init C n_classes n_layers n_nodes basic_op_list = Ok net →
  8 ≤ length (net_basic_op_list net) →
  wf_gene (net_basic_op_list net) n_nodes (normal g) →
  wf_gene (net_basic_op_list net) n_nodes (reduce g) →
  ∃ sample,
    genotype_to_onehot_sample net g = Ok sample
    ∧ length sample = all_edges net
    ∧ Forall (λ row, ∃ c, c < length (net_basic_op_list net)
                          ∧ row = <[c:=1%Q]>
                                    (replicate (length (net_basic_op_list net)) 0%Q))
        sample
    ∧ ∀ j gene i node e,
        [normal g; reduce g] !! j = Some gene → gene !! i = Some node → e < 2 + i →
        ∃ row,
          sample !! (j * num_edges net + node_offset 2 i + e) = Some row
          ∧ ((∃ name c,
                (name, Z.of_nat e) ∈ node
                ∧ list_index name (net_basic_op_list net) = Ok c
                ∧ row = <[c:=1%Q]> (replicate (length (net_basic_op_list net)) 0%Q))
             ∨ ((∀ name, (name, Z.of_nat e) ∉ node)
                ∧ row = <[7:=1%Q]> (replicate (length (net_basic_op_list net)) 0%Q))).
Proof.
  intros Hinit Hops Hnorm Hred.
  destruct (DartsCNN_init_fields _ _ _ _ _ _ Hinit)
    as (HN & _ & _ & HE & Hall & _).
  set (ops := net_basic_op_list net) in *.
  exists (onehot_rows ops g).
  rewrite <- HN in Hnorm, Hred, HE, Hall.
  destruct (enc_blocks_rows ops (normal g) _ (proj1 Hnorm)) as [Hln _].
  destruct (enc_blocks_rows ops (reduce g) _ (proj1 Hred)) as [Hlr _].
  split; [apply genotype_to_onehot_sample_rows; try done; lia|].
  unfold onehot_rows. split; [|split].
  - rewrite length_fmap, length_app, Hln, Hlr, Hall. lia.
  - rewrite fmap_app. apply Forall_app. split; by eapply enc_blocks_one_hot.
  - intros j gene i node e Hgene Hnode He. rewrite fmap_app.
    destruct j as [|[|j]]; [| |done]; injection Hgene as <-.
    + rewrite Nat.mul_0_l, Nat.add_0_l.
      destruct (enc_blocks_row ops _ (normal g) i e node Hops Hnorm Hnode He)
        as (row & Hrow & Hcase).
      exists row. split; [|done]. rewrite lookup_app_l; [done|].
      by eapply lookup_lt_Some.
    + rewrite Nat.mul_1_l.
      destruct (enc_blocks_row ops _ (reduce g) i e node Hops Hred Hnode He)
        as (row & Hrow & Hcase).
      exists row. split; [|done].
      rewrite lookup_app_r by (rewrite length_fmap, Hln, HE; lia).
      rewrite length_fmap, Hln, HE.
      by replace (node_offset 2 (net_n_nodes net) + node_offset 2 i + e
                  - node_offset 2 (net_n_nodes net)) with (node_offset 2 i + e) by lia.
Qed.

Lemma genotype_to_onehot_sample_one_hot_witness :
  ∃ net,
    DartsCNN_init 16 10 8 2 [] = Ok net
    ∧ ∃ sample,
        genotype_to_onehot_sample net two_node_genotype = Ok sample
        ∧ length sample = all_edges net
        ∧ Forall (λ row, ∃ c, c < length (net_basic_op_list net)
                              ∧ row = <[c:=1%Q]>
                                        (replicate (length (net_basic_op_list net)) 0%Q))
            sample
        ∧ ∀ j gene i node e,
            [normal two_node_genotype; reduce two_node_genotype] !! j = Some gene →
            gene !! i = Some node → e < 2 + i →
            ∃ row,
              sample !! (j * num_edges net + node_offset 2 i + e) = Some row
              ∧ ((∃ name c,
                    (name, Z.of_nat e) ∈ node
                    ∧ list_index name (net_basic_op_list net) = Ok c
                    ∧ row = <[c:=1%Q]>
                              (replicate (length (net_basic_op_list net)) 0%Q))
                 ∨ ((∀ name, (name, Z.of_nat e) ∉ node)
                    ∧ row = <[7:=1%Q]>
                              (replicate (length (net_basic_op_list net)) 0%Q))).
Proof.
  eexists. split; [vm_compute; reflexivity|].
  apply (genotype_to_onehot_sample_one_hot 16 10 8 2 []);
    [vm_compute; reflexivity|vm_compute; lia
    |exact (proj1 two_node_genotype_wf)|exact (proj2 two_node_genotype_wf)].
Defined.
